(** * Signed-envelope issuance and verification (package [apple])

    A shallow embedding of the Go package: [public_key.go] (the key
    directory), [JWT.go] and [client.go] (issuing an authorization token,
    decoding and verifying App Store envelopes, the HTTP client) and the
    claim accessors of [subscription.go].

    Conventions.  A Go [string] is a [string] (a sequence of 8-bit
    characters), a [[]byte] is a [list byte], Go's [int]/[int64] values are
    [Z] (every arithmetic step of the package stays far inside 64 bits, see
    [exponent_int_range]), a nilable pointer is an [option], an
    [(value, error)] return is a [result].  Instants of [time.Time] are
    nanoseconds since the Unix epoch. *)

From Stdlib Require Import ZArith String Ascii List Bool Lia.
From Stdlib Require Import DecimalString DecimalZ.
From Stdlib.Strings Require Import Byte.
From stdpp Require Import base option gmap strings list relations.
Import ListNotations.

Set Warnings "-register-all".
Local Open Scope string_scope.
Local Open Scope Z_scope.

(** ** Results *)

Inductive result (E A : Type) : Type :=
| Ok (a : A)
| Err (e : E).
Arguments Ok {E A} a.
Arguments Err {E A} e.

#[global] Instance result_bind {E} : MBind (result E) :=
  λ A B f r, match r with Ok a => f a | Err e => Err e end.

(** ** Go primitives used by the package *)

Module strings.

(** [strings.Split(s, sep)] for the one-character separators the package
    uses: [n] separators give [n + 1] pieces, the empty string gives one
    empty piece. *)
Fixpoint split_on (c : ascii) (s : string) : list string :=
  match s with
  | EmptyString => [EmptyString]
  | String a rest =>
      if Ascii.eqb a c then EmptyString :: split_on c rest
      else match split_on c rest with
           | [] => [String a EmptyString]
           | piece :: pieces => String a piece :: pieces
           end
  end.

Definition Split_dot (s : string) : list string := split_on "." s.

(** [c] does not occur in [s]. *)
Fixpoint lacks (c : ascii) (s : string) : bool :=
  match s with
  | EmptyString => true
  | String a rest => negb (Ascii.eqb a c) && lacks c rest
  end.

End strings.

Definition int_of_byte (b : byte) : Z := Z.of_N (Byte.to_N b).

Definition byte_of_N (n : N) : byte :=
  match Byte.of_N (n mod 256) with Some b => b | None => x00 end.

Definition bytes_of_string (s : string) : list byte :=
  map byte_of_ascii (list_ascii_of_string s).

Definition string_of_bytes (bs : list byte) : string :=
  string_of_list_ascii (map ascii_of_byte bs).

Module base64.

(** The URL alphabet of [encoding/base64]: [A-Z a-z 0-9 - _]. *)
Definition decodeMap (c : ascii) : option N :=
  let n := N_of_ascii c in
  if ((65 <=? n) && (n <=? 90))%N then Some (n - 65)%N
  else if ((97 <=? n) && (n <=? 122))%N then Some (n - 71)%N
  else if ((48 <=? n) && (n <=? 57))%N then Some (n + 4)%N
  else if (n =? 45)%N then Some 62%N
  else if (n =? 95)%N then Some 63%N
  else None.
#[global] Arguments decodeMap c : simpl never.

Definition is_newline (c : ascii) : bool :=
  let n := N_of_ascii c in ((n =? 10) || (n =? 13))%N.

(** The 6-bit values of the input; the decoder skips ['\r'] and ['\n'] and
    refuses every other character outside the alphabet (there is no padding
    character in the raw encodings). *)
Fixpoint sextets (s : string) : option (list N) :=
  match s with
  | EmptyString => Some []
  | String c rest =>
      match decodeMap c with
      | Some v => cons v <$> sextets rest
      | None => if is_newline c then sextets rest else None
      end
  end.

(** [decodeQuantum]: four values give three bytes; a last group of two or
    three gives one or two bytes (left-over bits are dropped, the encoding
    is not strict); a last group of one is corrupt input. *)
Fixpoint quanta (vs : list N) : option (list byte) :=
  match vs with
  | [] => Some []
  | [_] => None
  | [a; b] =>
      let val := N.lor (N.shiftl a 18) (N.shiftl b 12) in
      Some [byte_of_N (N.shiftr val 16)]
  | [a; b; c] =>
      let val := N.lor (N.lor (N.shiftl a 18) (N.shiftl b 12)) (N.shiftl c 6) in
      Some [byte_of_N (N.shiftr val 16); byte_of_N (N.shiftr val 8)]
  | a :: b :: c :: d :: rest =>
      let val :=
        N.lor (N.lor (N.lor (N.shiftl a 18) (N.shiftl b 12)) (N.shiftl c 6)) d in
      (fun tl => byte_of_N (N.shiftr val 16) :: byte_of_N (N.shiftr val 8)
                 :: byte_of_N val :: tl) <$> quanta rest
  end.

(** [base64.RawURLEncoding.DecodeString]; [None] is a non-nil error (the
    package never looks at the bytes decoded before the error). *)
Definition RawURLEncoding_DecodeString (s : string) : option (list byte) :=
  sextets s ≫= quanta.

Definition encodeChar (v : N) : ascii :=
  ascii_of_N
    (if v <? 26 then v + 65
     else if v <? 52 then v + 71
     else if v <? 62 then v - 4
     else if v =? 62 then 45
     else 95)%N.

(** [base64.RawURLEncoding.EncodeToString]: three bytes give four
    characters, a last group of one or two bytes gives two or three. *)
Fixpoint RawURLEncoding_EncodeToString (bs : list byte) : string :=
  match bs with
  | [] => EmptyString
  | [x] =>
      let val := N.shiftl (Byte.to_N x) 16 in
      String (encodeChar (N.land (N.shiftr val 18) 63))
        (String (encodeChar (N.land (N.shiftr val 12) 63)) EmptyString)
  | [x; y] =>
      let val := N.lor (N.shiftl (Byte.to_N x) 16) (N.shiftl (Byte.to_N y) 8) in
      String (encodeChar (N.land (N.shiftr val 18) 63))
        (String (encodeChar (N.land (N.shiftr val 12) 63))
           (String (encodeChar (N.land (N.shiftr val 6) 63)) EmptyString))
  | x :: y :: z :: rest =>
      let val :=
        N.lor (N.lor (N.shiftl (Byte.to_N x) 16) (N.shiftl (Byte.to_N y) 8))
          (Byte.to_N z) in
      String (encodeChar (N.land (N.shiftr val 18) 63))
        (String (encodeChar (N.land (N.shiftr val 12) 63))
           (String (encodeChar (N.land (N.shiftr val 6) 63))
              (String (encodeChar (N.land val 63))
                 (RawURLEncoding_EncodeToString rest))))
  end.

End base64.

Module big.

(** [new(big.Int).SetBytes(buf)]: [buf] read as a big-endian unsigned
    integer. *)
Definition SetBytes (buf : list byte) : Z :=
  fold_left (fun acc b => acc * 256 + int_of_byte b) buf 0.

End big.

(** ** public_key.go: the key directory *)

(** One entry of the [Keys] array of [AppleJWK] (an anonymous struct in the
    source). *)
Module JWK.
Record t : Type := {
  Kty : string;
  Kid : string;
  Use : string;
  Alg : string;
  N : string;
  E : string;
}.
End JWK.

Record AppleJWK : Type := { Keys : list JWK.t }.

Module rsa.
Record PublicKey : Type := { N : Z; E : Z }.
End rsa.

Inductive key_error : Type :=
| ErrDecodeModulus            (* "failed to decode modulus (n): %v" *)
| ErrDecodeExponent           (* "failed to decode exponent (e): %v" *)
| ErrUnexpectedExponentLength (* "unexpected exponent length" *)
| ErrNoMatchingKey (kid : string). (* "no matching key found for kid: %s" *)

(** The [if len(eBytes) == 3 ... else if len(eBytes) == 1 ... else] of
    [GetAppleRSAPublicKey]. *)
Definition exponent_int (eBytes : list byte) : result key_error Z :=
  match eBytes with
  | [e0; e1; e2] =>
      Ok (Z.lor (Z.lor (Z.shiftl (int_of_byte e0) 16)
                       (Z.shiftl (int_of_byte e1) 8))
                (int_of_byte e2))
  | [e0] => Ok (int_of_byte e0)
  | _ => Err ErrUnexpectedExponentLength
  end.

(** The body of the loop of [GetAppleRSAPublicKey] for a key whose [Kid]
    matched. *)
Definition publicKeyOf (key : JWK.t) : result key_error rsa.PublicKey :=
  match base64.RawURLEncoding_DecodeString (JWK.N key) with
  | None => Err ErrDecodeModulus
  | Some nBytes =>
      match base64.RawURLEncoding_DecodeString (JWK.E key) with
      | None => Err ErrDecodeExponent
      | Some eBytes =>
          eInt ← exponent_int eBytes;
          Ok {| rsa.N := big.SetBytes nBytes; rsa.E := eInt |}
      end
  end.

Fixpoint GetAppleRSAPublicKey_range (keys : list JWK.t) (kid : string)
  : result key_error rsa.PublicKey :=
  match keys with
  | [] => Err (ErrNoMatchingKey kid)
  | key :: rest =>
      if String.eqb (JWK.Kid key) kid then publicKeyOf key
      else GetAppleRSAPublicKey_range rest kid
  end.

Definition GetAppleRSAPublicKey (jwk : AppleJWK) (kid : string)
  : result key_error rsa.PublicKey :=
  GetAppleRSAPublicKey_range (Keys jwk) kid.

(** ** package time *)

Module time.

(** A [time.Time], as nanoseconds since the Unix epoch (unbounded: the
    package never comes near the limits of Go's representation). *)
Definition Time : Type := Z.

Definition Second : Z := 1000000000.
Definition Minute : Z := 60 * Second.

(** [time.Unix(sec, nsec)]. *)
Definition Unix (sec nsec : Z) : Time := sec * Second + nsec.

(** [time.UnixMilli(msec)] is [Unix(msec/1e3, (msec%1e3)*1e6)], with Go's
    truncated division. *)
Definition UnixMilli (msec : Z) : Time :=
  Unix (Z.quot msec 1000) (Z.rem msec 1000 * 1000000).

(** [t.Add(d)], [d] a [time.Duration] in nanoseconds. *)
Definition Add (t : Time) (d : Z) : Time := t + d.

(** [t.Unix()]: whole seconds since the epoch, rounded down. *)
Definition Unix_of (t : Time) : Z := t / Second.

(** [t.Truncate(time.Second)]. *)
Definition Truncate_Second (t : Time) : Time := (t / Second) * Second.

(** [t.Before(u)]. *)
Definition Before (t u : Time) : bool := t <? u.

End time.

(** ** Values of [interface{}]

    The dynamic values that occur in a token header or a claim map:
    what [encoding/json] stores into an [interface{}] ([nil], [bool],
    [float64], [string], [[]interface{}], [map[string]interface{}]) and the
    [int64] and [string] values [GenerateAuthorizationJWT] puts there.

    [float64] stays abstract, with the three operations the claim accessors
    apply to it. *)

Class Float64 : Type := {
  float64 : Type;
  (** [f == 0] *)
  float64_is_zero : float64 -> bool;
  (** [int64(f)] *)
  int64_of_float64 : float64 -> Z;
  (** jwt's [newNumericDateFromSeconds(f)]: the instant
      [time.Unix(int64(round), int64(frac*1e9))] truncated to the second,
      where [round, frac := math.Modf(f)]. *)
  newNumericDateFromSeconds : float64 -> time.Time;
}.

Inductive any `{Float64} : Type :=
| ANil
| ABool (b : bool)
| AFloat64 (f : float64)
| AInt64 (z : Z)
| AString (s : string)
| ASlice (l : list any)
| AMap (m : list (string * any)).

(** ** Claim payloads (subscription.go, client.go) *)

(** [SubscriptionInfo] of subscription.go. *)
Module SubscriptionInfo.
Record t : Type := {
  Environment : string;
  AppAppleID : Z;
  BundleID : string;
  ProductID : string;
  Storefront : string;
  StorefrontID : string;
  OriginalTransactionID : string;
  SubscriptionGroupID : string;
  PurchaseDate : string;
  OriginalPurchaseDate : string;
  ExpirationDate : string;
  IsInBillingRetryPeriod : option bool;
  GracePeriodExpiresDate : option string;
  AutoRenewStatus : Z;
  AutoRenewProductID : option string;
  IsUpgraded : option bool;
  OfferType : option Z;
  OfferIdentifier : option string;
  SignedTransactionInfo : string;
  SignedRenewalInfo : string;
}.
End SubscriptionInfo.

(** [type Timestamp int64]: milliseconds since the Unix epoch. *)
Definition Timestamp : Type := Z.

(** [JWSRenewalInfoDecodedPayload] of client.go. *)
Module RenewalInfo.
Record t : Type := {
  OriginalTransactionId : string;
  TransactionId : string;
  WebOrderLineItemId : string;
  BundleId : string;
  AppAccountToken : option string;
  ProductId : string;
  Type_ : string;
  SubscriptionGroupIdentifier : string;
  Quantity : option Z;
  Price : option Z;
  Currency : string;
  Storefront : string;
  StorefrontId : string;
  EligibleWinBackOfferIds : list string;
  OfferType : Z;
  OfferDiscountType : string;
  OriginalPurchaseDate : Timestamp;
  PurchaseDate : Timestamp;
  RecentSubscriptionStartDate : Timestamp;
  IsInBillingRetryPeriod : bool;
  GracePeriodExpiresDate : Timestamp;
  AutoRenewStatus : Z;
  AutoRenewProductId : string;
  ExpirationIntent : Z;
  ExpiresDate : Timestamp;
  IsUpgraded : bool;
  RenewalDate : Timestamp;
  RenewalPrice : Z;
  InAppOwnershipType : string;
  PriceIncreaseStatus : Z;
  RevocationDate : Timestamp;
  RevocationReason : string;
  TransactionReason : string;
  SignedDate : Timestamp;
  Environment : string;
  OfferIdentifier : string;
}.
End RenewalInfo.
Abbreviation JWSRenewalInfoDecodedPayload := RenewalInfo.t.

(** ** The libraries the package calls

    What the package takes from [encoding/json], [crypto/rsa],
    [crypto/ecdsa], [crypto/x509] and [encoding/pem]: functions of their
    arguments, about which nothing is assumed.  [None] (or [true] in the
    second component of [json_Decode_AppleJWK]) stands for a non-nil
    [error]. *)

Module crypto.
Inductive Hash : Type := SHA256 | SHA384 | SHA512.
End crypto.

Module ecdsa.
(** An [*ecdsa.PrivateKey]: the bit size of its curve and the secret. *)
Record PrivateKey : Type := { CurveBitSize : Z; D : Z }.
End ecdsa.

Module pem.
(** A [*pem.Block] (its headers are not read by the package). *)
Record Block : Type := { Type_ : string; Bytes : list byte }.
End pem.

Class Lib `{Float64} : Type := {
  (** Two details of github.com/golang-jwt/jwt/v5 that changed between
      its releases, left open: whether [ParseWithClaims] runs the key
      function before it decodes the signature segment (the early
      releases) or after (the later ones), and whether [ParseUnverified]
      decodes the claim bytes with a [json.Decoder] (the early releases)
      or with [json.Unmarshal] (the later ones). *)
  jwt_keyfunc_first : bool;
  jwt_claims_by_decoder : bool;
  (** [json.Unmarshal(data, &m)], [m] a [map[string]interface{}] (a token
      header, a [jwt.MapClaims]). *)
  json_Unmarshal_map : list byte -> option (gmap string any);
  (** [json.Unmarshal(data, &v)], [v] a zero [SubscriptionInfo]. *)
  json_Unmarshal_SubscriptionInfo : list byte -> option SubscriptionInfo.t;
  (** [json.Unmarshal(data, &v)], [v] a zero
      [JWSRenewalInfoDecodedPayload]. *)
  json_Unmarshal_RenewalInfo : list byte -> option RenewalInfo.t;
  (** The first JSON value of [data], which is what a [json.Decoder]
      decodes (it does not look at what follows the value); [None] when
      [data] does not start with a JSON value. *)
  json_first_value : list byte -> option (list byte);
  (** [json.NewDecoder(body).Decode(&p)] for a [p] of type [*AppleJWK]
      that holds [target]: the value of [p] afterwards and whether the
      error is non-nil.  (The decoder allocates the struct when [p] is nil
      and the body is a value other than [null], stores into the struct
      [p] points to otherwise, and reports a value of the wrong type only
      after it has stored the rest.) *)
  json_Decode_AppleJWK :
    option AppleJWK -> list byte -> option AppleJWK * bool;
  (** [json.Marshal(m)], [m] a token header or a [jwt.MapClaims]. *)
  json_Marshal : gmap string any -> option (list byte);
  (** [rsa.VerifyPKCS1v15(key, hash, hash.Sum(signingString), sig) == nil] *)
  rsa_VerifyPKCS1v15 : rsa.PublicKey -> crypto.Hash -> string -> list byte -> bool;
  (** [rsa.VerifyPSS(key, hash, hash.Sum(signingString), sig, opts) == nil] *)
  rsa_VerifyPSS : rsa.PublicKey -> crypto.Hash -> string -> list byte -> bool;
  (** [ecdsa.Sign(rand.Reader, key, hash.Sum(signingString))], the pair
      [(r, s)] serialized as jwt does. *)
  ecdsa_Sign : ecdsa.PrivateKey -> crypto.Hash -> string -> option (list byte);
  (** [pem.Decode(data)], the first block or nil. *)
  pem_Decode : string -> option pem.Block;
  (** [x509.ParseECPrivateKey(der)] *)
  x509_ParseECPrivateKey : list byte -> option ecdsa.PrivateKey;
}.

(** ** github.com/golang-jwt/jwt/v5, as far as the package drives it

    The parser with its default options ([jwt.NewParser()], [jwt.Parse],
    [jwt.ParseWithClaims]) and the registered signing methods, applied to
    the only kind of key the package hands over, an [*rsa.PublicKey]. *)

Module jwt.

Inductive SigningMethod : Type :=
| SigningMethodHMAC (h : crypto.Hash)
| SigningMethodRSA (h : crypto.Hash)
| SigningMethodRSAPSS (h : crypto.Hash)
| SigningMethodECDSA (h : crypto.Hash) (CurveBits : Z)
| SigningMethodEd25519
| SigningMethodNone.

Definition SigningMethodES256 : SigningMethod :=
  SigningMethodECDSA crypto.SHA256 256.

(** The methods the library registers in its [init] functions. *)
Definition signingMethods : gmap string SigningMethod :=
  list_to_map
    [ ("HS256", SigningMethodHMAC crypto.SHA256);
      ("HS384", SigningMethodHMAC crypto.SHA384);
      ("HS512", SigningMethodHMAC crypto.SHA512);
      ("RS256", SigningMethodRSA crypto.SHA256);
      ("RS384", SigningMethodRSA crypto.SHA384);
      ("RS512", SigningMethodRSA crypto.SHA512);
      ("PS256", SigningMethodRSAPSS crypto.SHA256);
      ("PS384", SigningMethodRSAPSS crypto.SHA384);
      ("PS512", SigningMethodRSAPSS crypto.SHA512);
      ("ES256", SigningMethodES256);
      ("ES384", SigningMethodECDSA crypto.SHA384 384);
      ("ES512", SigningMethodECDSA crypto.SHA512 521);
      ("EdDSA", SigningMethodEd25519);
      ("none", SigningMethodNone) ].

Definition GetSigningMethod (alg : string) : option SigningMethod :=
  signingMethods !! alg.

(** The key families: which methods verify with an RSA public key. *)
Definition is_RSA_family (m : SigningMethod) : bool :=
  match m with
  | SigningMethodRSA _ | SigningMethodRSAPSS _ => true
  | _ => false
  end.

(** *** Errors *)

(** What [ParseUnverified] reports. *)
Inductive parse_error : Type :=
| ErrInvalidSegments  (* ErrTokenMalformed: "token contains an invalid number of segments" *)
| ErrHeaderBase64     (* ErrTokenMalformed: "could not base64 decode header" (or the "bearer " hint) *)
| ErrHeaderJSON       (* ErrTokenMalformed: "could not JSON decode header" *)
| ErrClaimBase64      (* ErrTokenMalformed: "could not base64 decode claim" *)
| ErrClaimJSON        (* ErrTokenMalformed: "could not JSON decode claim" *)
| ErrAlgUnavailable   (* ErrTokenUnverifiable: "signing method (alg) is unavailable" *)
| ErrAlgUnspecified.  (* ErrTokenUnverifiable: "signing method (alg) is unspecified" *)

(** What a claim accessor ([GetExpirationTime], ...) reports: the errors
    of [jwt.MapClaims] and of the two claim types of the package. *)
Inductive claims_error : Type :=
| ErrInvalidType (claim : string)  (* jwt: "<claim> is invalid" *)
| ErrNotSet (what : string)        (* client.go: "expiration time not set", "issued at time not set" *)
| ErrParseJWT (e : parse_error)    (* subscription.go: "failed to parse JWT: %v" *)
| ErrNotInClaims (claim : string). (* subscription.go: "... (<claim>) not found in claims" *)

(** What the validator collects. *)
Inductive validation_error : Type :=
| ErrAccessor (e : claims_error)
| ErrTokenExpired
| ErrTokenNotValidYet.

(** What [Method.Verify] reports. *)
Inductive verify_error : Type :=
| ErrInvalidKeyType                 (* the key is not of the method's type *)
| NoneSignatureTypeDisallowedError  (* "none" without the magic constant *)
| ErrVerification.                  (* crypto/rsa: verification error *)

(** What [ParseWithClaims] reports; [K] is the error of the key function. *)
Inductive error (K : Type) : Type :=
| ErrParse (e : parse_error)
| ErrSignatureBase64   (* ErrTokenMalformed: "could not base64 decode signature" *)
| ErrKeyfunc (e : K)   (* ErrTokenUnverifiable: "error while executing keyfunc" *)
| ErrTokenSignatureInvalid (e : verify_error)
| ErrTokenInvalidClaims (errs : list validation_error).
Arguments ErrParse {K} e.
Arguments ErrSignatureBase64 {K}.
Arguments ErrKeyfunc {K} e.
Arguments ErrTokenSignatureInvalid {K} e.
Arguments ErrTokenInvalidClaims {K} errs.

(** *** Claims *)

(** [jwt.NewNumericDate(t)]: [t] truncated to [jwt.TimePrecision], one
    second. *)
Definition NewNumericDate (t : time.Time) : time.Time := time.Truncate_Second t.

(** The interface [jwt.Claims], its temporal part: the accessors the
    default validator calls.  [GetIssuer], [GetSubject] and [GetAudience]
    are called only when a parser option names an expected value, and the
    package passes no option.  A nil [*NumericDate] is [None]. *)
Class Claims (C : Type) : Type := {
  GetExpirationTime : C -> result claims_error (option time.Time);
  GetIssuedAt : C -> result claims_error (option time.Time);
  GetNotBefore : C -> result claims_error (option time.Time);
}.

Module Token.
(** A [*jwt.Token] whose [Claims] hold a value of type [C]. *)
Record t `{Float64} (C : Type) : Type := {
  Raw : string;
  Method : SigningMethod;
  Header : gmap string any;
  Claims : C;
  Signature : list byte;
  Valid : bool;
}.
Arguments Raw {_ C} _.
Arguments Method {_ C} _.
Arguments Header {_ C} _.
Arguments Claims {_ C} _.
Arguments Signature {_ C} _.
Arguments Valid {_ C} _.
End Token.

Section Parser.
Context {F : Float64} {L : Lib}.

(** [MapClaims.parseNumericDate] (without [json.Number], which only a
    parser option produces). *)
Definition parseNumericDate (m : gmap string any) (key : string)
  : result claims_error (option time.Time) :=
  match m !! key with
  | None => Ok None
  | Some (AFloat64 exp) =>
      if float64_is_zero exp then Ok None
      else Ok (Some (newNumericDateFromSeconds exp))
  | Some _ => Err (ErrInvalidType key)
  end.

#[global] Instance MapClaims_Claims : Claims (gmap string any) := {
  GetExpirationTime m := parseNumericDate m "exp";
  GetIssuedAt m := parseNumericDate m "iat";
  GetNotBefore m := parseNumericDate m "nbf";
}.

(** [Parser.DecodeSegment] with the default options. *)
Definition DecodeSegment (seg : string) : option (list byte) :=
  base64.RawURLEncoding_DecodeString seg.

(** The claim bytes decoded into the type of the claims, of which
    [unmarshal] is the [json.Unmarshal]. *)
Definition decode_claims {C : Type} (unmarshal : list byte -> option C)
    (claimBytes : list byte) : option C :=
  if jwt_claims_by_decoder then json_first_value claimBytes ≫= unmarshal
  else unmarshal claimBytes.

(** [Parser.ParseUnverified(tokenString, claims)]; [unmarshal] is
    [json.Unmarshal] into the type of [claims].  On success the token and
    the three segments. *)
Definition ParseUnverified {C : Type} (unmarshal : list byte -> option C)
    (tokenString : string) : result parse_error (Token.t C * list string) :=
  let parts := strings.Split_dot tokenString in
  match parts with
  | [p0; p1; _] =>
      match DecodeSegment p0 with
      | None => Err ErrHeaderBase64
      | Some headerBytes =>
          match json_Unmarshal_map headerBytes with
          | None => Err ErrHeaderJSON
          | Some header =>
              match DecodeSegment p1 with
              | None => Err ErrClaimBase64
              | Some claimBytes =>
                  match decode_claims unmarshal claimBytes with
                  | None => Err ErrClaimJSON
                  | Some claims =>
                      match header !! "alg" with
                      | Some (AString method) =>
                          match GetSigningMethod method with
                          | None => Err ErrAlgUnavailable
                          | Some m =>
                              Ok ({| Token.Raw := tokenString;
                                     Token.Method := m;
                                     Token.Header := header;
                                     Token.Claims := claims;
                                     Token.Signature := [];
                                     Token.Valid := false |}, parts)
                          end
                      | _ => Err ErrAlgUnspecified
                      end
                  end
              end
          end
      end
  | _ => Err ErrInvalidSegments
  end.

(** [Method.Verify(signingString, sig, key)] for a [key] that holds an
    [*rsa.PublicKey]: the RSA methods check the signature, every other
    method refuses the key by its type. *)
Definition Verify (m : SigningMethod) (signingString : string)
    (sig : list byte) (key : rsa.PublicKey) : option verify_error :=
  match m with
  | SigningMethodRSA h =>
      if rsa_VerifyPKCS1v15 key h signingString sig then None
      else Some ErrVerification
  | SigningMethodRSAPSS h =>
      if rsa_VerifyPSS key h signingString sig then None
      else Some ErrVerification
  | SigningMethodHMAC _ | SigningMethodECDSA _ _ | SigningMethodEd25519 =>
      Some ErrInvalidKeyType
  | SigningMethodNone => Some NoneSignatureTypeDisallowedError
  end.

(** [Validator.verifyExpiresAt(claims, now, false)], no leeway. *)
Definition verifyExpiresAt {C} `{Claims C} (claims : C) (cmp : time.Time)
  : option validation_error :=
  match GetExpirationTime claims with
  | Err e => Some (ErrAccessor e)
  | Ok None => None
  | Ok (Some exp) => if time.Before cmp exp then None else Some ErrTokenExpired
  end.

(** [Validator.verifyNotBefore(claims, now, false)], no leeway. *)
Definition verifyNotBefore {C} `{Claims C} (claims : C) (cmp : time.Time)
  : option validation_error :=
  match GetNotBefore claims with
  | Err e => Some (ErrAccessor e)
  | Ok None => None
  | Ok (Some nbf) =>
      if negb (time.Before cmp nbf) then None else Some ErrTokenNotValidYet
  end.

(** [Validator.Validate(claims)] of the default validator at the instant
    [now]: expiry and not-before are checked; issued-at, audience, issuer
    and subject are not (no option asks for them), and none of the claim
    types has a [Validate] method of its own.  The errors found, in
    order; none means valid. *)
Definition Validate {C} `{Claims C} (now : time.Time) (claims : C)
  : list validation_error :=
  option_list (verifyExpiresAt claims now)
  ++ option_list (verifyNotBefore claims now).

(** [Parser.ParseWithClaims(tokenString, claims, keyFunc)] at the instant
    [now]. *)
Definition ParseWithClaims {C K : Type} `{Claims C}
    (unmarshal : list byte -> option C) (now : time.Time)
    (tokenString : string) (keyFunc : Token.t C -> result K rsa.PublicKey)
  : result (error K) (Token.t C) :=
  match ParseUnverified unmarshal tokenString with
  | Err e => Err (ErrParse e)
  | Ok (token, parts) =>
      let signature := DecodeSegment (nth 2 parts "") in
      let text := nth 0 parts "" ++ "." ++ nth 1 parts "" in
      let verified (sig : list byte) (key : rsa.PublicKey) :=
        match Verify (Token.Method token) text sig key with
        | Some e => Err (ErrTokenSignatureInvalid e)
        | None =>
            match Validate now (Token.Claims token) with
            | [] =>
                Ok {| Token.Raw := Token.Raw token;
                      Token.Method := Token.Method token;
                      Token.Header := Token.Header token;
                      Token.Claims := Token.Claims token;
                      Token.Signature := sig;
                      Token.Valid := true |}
            | errs => Err (ErrTokenInvalidClaims errs)
            end
        end in
      if jwt_keyfunc_first then
        match keyFunc token with
        | Err e => Err (ErrKeyfunc e)
        | Ok key =>
            match signature with
            | None => Err ErrSignatureBase64
            | Some sig => verified sig key
            end
        end
      else
        match signature with
        | None => Err ErrSignatureBase64
        | Some sig =>
            match keyFunc token with
            | Err e => Err (ErrKeyfunc e)
            | Ok key => verified sig key
            end
        end
  end.

Definition hash_bits (h : crypto.Hash) : string :=
  match h with
  | crypto.SHA256 => "256" | crypto.SHA384 => "384" | crypto.SHA512 => "512"
  end.

(** [Method.Alg()]. *)
Definition Alg (m : SigningMethod) : string :=
  match m with
  | SigningMethodHMAC h => "HS" ++ hash_bits h
  | SigningMethodRSA h => "RS" ++ hash_bits h
  | SigningMethodRSAPSS h => "PS" ++ hash_bits h
  | SigningMethodECDSA h _ => "ES" ++ hash_bits h
  | SigningMethodEd25519 => "EdDSA"
  | SigningMethodNone => "none"
  end.

(** What [Token.SignedString] reports. *)
Inductive sign_error : Type :=
| ErrMarshal          (* json.Marshal of the header or of the claims failed *)
| ErrSignInvalidKeyType
| ErrSignNone
| ErrEcdsaSign        (* ecdsa.Sign failed *)
| ErrInvalidKey.      (* the key's curve is not the method's *)

(** [jwt.NewWithClaims(method, claims)]. *)
Definition NewWithClaims {C : Type} (method : SigningMethod) (claims : C)
  : Token.t C :=
  {| Token.Raw := "";
     Token.Method := method;
     Token.Header :=
       <["typ" := AString "JWT"]> (<["alg" := AString (Alg method)]> ∅);
     Token.Claims := claims;
     Token.Signature := [];
     Token.Valid := false |}.

(** [Token.EncodeSegment]. *)
Definition EncodeSegment (seg : list byte) : string :=
  base64.RawURLEncoding_EncodeToString seg.

(** [Token.SigningString()] of a token with map claims. *)
Definition SigningString (t : Token.t (gmap string any)) : option string :=
  h ← json_Marshal (Token.Header t);
  c ← json_Marshal (Token.Claims t);
  Some (EncodeSegment h ++ "." ++ EncodeSegment c).

(** [Method.Sign(signingString, key)] for a [key] that holds an
    [*ecdsa.PrivateKey]. *)
Definition Sign (m : SigningMethod) (signingString : string)
    (key : ecdsa.PrivateKey) : result sign_error (list byte) :=
  match m with
  | SigningMethodECDSA h CurveBits =>
      match ecdsa_Sign key h signingString with
      | None => Err ErrEcdsaSign
      | Some out =>
          if negb (CurveBits =? ecdsa.CurveBitSize key) then Err ErrInvalidKey
          else Ok out
      end
  | SigningMethodNone => Err ErrSignNone
  | _ => Err ErrSignInvalidKeyType
  end.

(** [Token.SignedString(key)]. *)
Definition SignedString (t : Token.t (gmap string any))
    (key : ecdsa.PrivateKey) : result sign_error string :=
  match SigningString t with
  | None => Err ErrMarshal
  | Some sstr =>
      sig ← Sign (Token.Method t) sstr key;
      Ok (sstr ++ "." ++ EncodeSegment sig)
  end.

End Parser.
End jwt.

(** ** The package: state and environment *)

(** What [http.Get] returns: a non-nil error, or a response with its status
    code and its body. *)
Inductive http_result : Type :=
| HttpError
| HttpResponse (StatusCode : Z) (Body : list byte).

(** The network answers the [n]-th request of the process. *)
Definition Network : Type := nat -> http_result.

(** The state of the process: the package variable [AppleJWKs] and the
    number of [http.Get] calls made so far. *)
Record World : Type := {
  AppleJWKs : option AppleJWK;
  requests : nat;
}.

(** A call returns a value, returns an error, or panics (a nil pointer is
    dereferenced). *)
Inductive outcome (E A : Type) : Type :=
| Success (a : A)
| Failure (e : E)
| Panic.
Arguments Success {E A} a.
Arguments Failure {E A} e.
Arguments Panic {E A}.

Definition succeeded {E A} (o : outcome E A) : bool :=
  match o with Success _ => true | _ => false end.

Inductive fetch_error : Type :=
| ErrFetch    (* "failed to fetch Apple JWKs: %v" *)
| ErrDecode.  (* "failed to decode Apple JWKs: %v" *)

(** The error of the key function of [VerifyJWT]; [alg] is
    [token.Header["alg"]]. *)
Inductive keyfunc_error `{Float64} : Type :=
| ErrUnexpectedSigningMethod (alg : option any). (* "unexpected signing method: %v" *)

(** The errors of [VerifyJWT], [VerifyJWSTransaction] and
    [VerifyJWSRenewalInfo]. *)
Inductive verify_failure `{Float64} : Type :=
| FailedToFetch (e : fetch_error)       (* "failed to fetch Apple JWKs: %v" *)
| FailedToParse (e : jwt.parse_error)   (* "failed to parse JWT: %v" *)
| KidNotFound                           (* "kid not found in JWT header" *)
| FailedToGetKey (e : key_error)        (* "failed to get RSA public key: %v", "failed to get ECDSA public key: %v" *)
| FailedToVerify (e : jwt.error keyfunc_error) (* "failed to verify JWT: %v" *)
| InvalidJWT.                           (* "invalid JWT" *)

(** The errors of [DecodeJWSTransaction] and [JWSRenewalInfoDecoded]. *)
Inductive decode_error : Type :=
| ErrInvalidJWTFormat   (* "invalid JWT format" *)
| ErrDecodePayload      (* "failed to decode payload: %v" *)
| ErrUnmarshalPayload.  (* "failed to unmarshal payload: %v" *)

(** The errors of [GenerateAuthorizationJWT]. *)
Inductive issue_error : Type :=
| ErrInvalidPEM                     (* "failed to parse private key: invalid PEM format" *)
| ErrParseECPrivateKey              (* "failed to parse EC private key: %v" *)
| ErrSignJWT (e : jwt.sign_error).  (* "failed to sign JWT: %v" *)

Section Package.
Context {F : Float64} {L : Lib}.

(** *** public_key.go *)

(** [FetchAppleJWKs]. *)
Definition FetchAppleJWKs (net : Network) (w : World)
  : result fetch_error (option AppleJWK) * World :=
  match AppleJWKs w with
  | Some jwks => (Ok (Some jwks), w)
  | None =>
      match net (requests w) with
      | HttpError =>
          (Err ErrFetch, {| AppleJWKs := None; requests := S (requests w) |})
      | HttpResponse _ body =>
          let '(decoded, failed) := json_Decode_AppleJWK None body in
          let w' := {| AppleJWKs := decoded; requests := S (requests w) |} in
          if failed then (Err ErrDecode, w') else (Ok decoded, w')
      end
  end.

(** *** client.go: the accessors of [JWSRenewalInfoDecodedPayload] *)

(** [Timestamp.ToNumericDate]. *)
Definition ToNumericDate (t : Timestamp) : time.Time :=
  jwt.NewNumericDate (time.UnixMilli t).

Definition RenewalInfo_GetExpirationTime (J : RenewalInfo.t)
  : result jwt.claims_error (option time.Time) :=
  if RenewalInfo.ExpiresDate J =? 0 then Err (jwt.ErrNotSet "expiration time")
  else Ok (Some (ToNumericDate (RenewalInfo.ExpiresDate J))).

Definition RenewalInfo_GetIssuedAt (J : RenewalInfo.t)
  : result jwt.claims_error (option time.Time) :=
  if RenewalInfo.SignedDate J =? 0 then Err (jwt.ErrNotSet "issued at time")
  else Ok (Some (ToNumericDate (RenewalInfo.SignedDate J))).

Definition RenewalInfo_GetNotBefore (J : RenewalInfo.t)
  : result jwt.claims_error (option time.Time) :=
  Ok None.

#[global] Instance RenewalInfo_Claims : jwt.Claims RenewalInfo.t := {
  jwt.GetExpirationTime := RenewalInfo_GetExpirationTime;
  jwt.GetIssuedAt := RenewalInfo_GetIssuedAt;
  jwt.GetNotBefore := RenewalInfo_GetNotBefore;
}.

(** *** subscription.go: the accessors of [SubscriptionInfo] *)

(** [SubscriptionInfo.parseJWT]. *)
Definition parseJWT (signedJWT : string)
  : result jwt.claims_error (gmap string any) :=
  match jwt.ParseUnverified json_Unmarshal_map signedJWT with
  | Err e => Err (jwt.ErrParseJWT e)
  | Ok (token, _) => Ok (jwt.Token.Claims token)
  end.

(** The common shape of [GetExpirationTime], [GetIssuedAt] and
    [GetNotBefore] of [SubscriptionInfo], for the claim [name]. *)
Definition SubscriptionInfo_numericClaim (name : string)
    (s : SubscriptionInfo.t) : result jwt.claims_error (option time.Time) :=
  claims ← parseJWT (SubscriptionInfo.SignedTransactionInfo s);
  match claims !! name with
  | Some (AFloat64 v) =>
      Ok (Some (jwt.NewNumericDate (time.Unix (int64_of_float64 v) 0)))
  | _ => Err (jwt.ErrNotInClaims name)
  end.

Definition SubscriptionInfo_GetExpirationTime :=
  SubscriptionInfo_numericClaim "exp".
Definition SubscriptionInfo_GetIssuedAt :=
  SubscriptionInfo_numericClaim "iat".
Definition SubscriptionInfo_GetNotBefore :=
  SubscriptionInfo_numericClaim "nbf".

#[global] Instance SubscriptionInfo_Claims : jwt.Claims SubscriptionInfo.t := {
  jwt.GetExpirationTime := SubscriptionInfo_GetExpirationTime;
  jwt.GetIssuedAt := SubscriptionInfo_GetIssuedAt;
  jwt.GetNotBefore := SubscriptionInfo_GetNotBefore;
}.

(** *** JWT.go *)

(** [token.Header["kid"].(string)]. *)
Definition header_kid {C} (token : jwt.Token.t C) : option string :=
  match jwt.Token.Header token !! "kid" with
  | Some (AString kid) => Some kid
  | _ => None
  end.

(** The key function of [VerifyJWT]: the type assertion of
    [token.Method] to a pointer to [jwt.SigningMethodRSA] holds for RS256,
    RS384 and RS512 only (the PS methods have a type of their own). *)
Definition keyFunc_VerifyJWT {C} (pubKey : rsa.PublicKey)
    (token : jwt.Token.t C) : result keyfunc_error rsa.PublicKey :=
  match jwt.Token.Method token with
  | jwt.SigningMethodRSA _ => Ok pubKey
  | _ => Err (ErrUnexpectedSigningMethod (jwt.Token.Header token !! "alg"))
  end.

(** The key function of [VerifyJWSTransaction] and of
    [VerifyJWSRenewalInfo]. *)
Definition keyFunc_pubKey {C} (pubKey : rsa.PublicKey)
    (token : jwt.Token.t C) : result keyfunc_error rsa.PublicKey :=
  Ok pubKey.

(** [VerifyJWT] at the instant [now]. *)
Definition VerifyJWT (net : Network) (now : time.Time) (jws : string)
    (w : World) : outcome verify_failure unit * World :=
  let '(fetched, w') := FetchAppleJWKs net w in
  (match fetched with
   | Err err => Failure (FailedToFetch err)
   | Ok jwk =>
       match jwt.ParseUnverified json_Unmarshal_map jws with
       | Err err => Failure (FailedToParse err)
       | Ok (token, _) =>
           match header_kid token with
           | None => Failure KidNotFound
           | Some kid =>
               match jwk with
               | None => Panic
               | Some jwk =>
                   match GetAppleRSAPublicKey jwk kid with
                   | Err err => Failure (FailedToGetKey err)
                   | Ok pubKey =>
                       match jwt.ParseWithClaims json_Unmarshal_map now jws
                               (keyFunc_VerifyJWT pubKey) with
                       | Err err => Failure (FailedToVerify err)
                       | Ok parsedToken =>
                           if negb (jwt.Token.Valid parsedToken)
                           then Failure InvalidJWT
                           else Success tt
                       end
                   end
               end
           end
       end
   end, w').

(** [DecodeJWSTransaction]. *)
Definition DecodeJWSTransaction (jws : string)
  : result decode_error SubscriptionInfo.t :=
  let parts := strings.Split_dot jws in
  if negb (length parts =? 3)%nat then Err ErrInvalidJWTFormat
  else
    match base64.RawURLEncoding_DecodeString (nth 1 parts "") with
    | None => Err ErrDecodePayload
    | Some payload =>
        match json_Unmarshal_SubscriptionInfo payload with
        | None => Err ErrUnmarshalPayload
        | Some transaction => Ok transaction
        end
    end.

(** [VerifyJWSTransaction] at the instant [now]. *)
Definition VerifyJWSTransaction (net : Network) (now : time.Time)
    (jws : string) (w : World)
  : outcome verify_failure SubscriptionInfo.t * World :=
  let '(fetched, w') := FetchAppleJWKs net w in
  (match fetched with
   | Err err => Failure (FailedToFetch err)
   | Ok jwk =>
       match jwt.ParseUnverified json_Unmarshal_map jws with
       | Err err => Failure (FailedToParse err)
       | Ok (token, _) =>
           match header_kid token with
           | None => Failure KidNotFound
           | Some kid =>
               match jwk with
               | None => Panic
               | Some jwk =>
                   match GetAppleRSAPublicKey jwk kid with
                   | Err err => Failure (FailedToGetKey err)
                   | Ok pubKey =>
                       match jwt.ParseWithClaims
                               json_Unmarshal_SubscriptionInfo now jws
                               (keyFunc_pubKey pubKey) with
                       | Err err => Failure (FailedToVerify err)
                       | Ok parsedToken =>
                           Success (jwt.Token.Claims parsedToken)
                       end
                   end
               end
           end
       end
   end, w').

(** *** client.go *)

(** [JWSRenewalInfoDecoded]. *)
Definition JWSRenewalInfoDecoded (jws : string)
  : result decode_error JWSRenewalInfoDecodedPayload :=
  let parts := strings.Split_dot jws in
  if negb (length parts =? 3)%nat then Err ErrInvalidJWTFormat
  else
    match base64.RawURLEncoding_DecodeString (nth 1 parts "") with
    | None => Err ErrDecodePayload
    | Some payload =>
        match json_Unmarshal_RenewalInfo payload with
        | None => Err ErrUnmarshalPayload
        | Some transaction => Ok transaction
        end
    end.

(** [VerifyJWSRenewalInfo] at the instant [now]. *)
Definition VerifyJWSRenewalInfo (net : Network) (now : time.Time)
    (jws : string) (w : World)
  : outcome verify_failure JWSRenewalInfoDecodedPayload * World :=
  let '(fetched, w') := FetchAppleJWKs net w in
  (match fetched with
   | Err err => Failure (FailedToFetch err)
   | Ok jwk =>
       match jwt.ParseUnverified json_Unmarshal_map jws with
       | Err err => Failure (FailedToParse err)
       | Ok (token, _) =>
           match header_kid token with
           | None => Failure KidNotFound
           | Some kid =>
               match jwk with
               | None => Panic
               | Some jwk =>
                   match GetAppleRSAPublicKey jwk kid with
                   | Err err => Failure (FailedToGetKey err)
                   | Ok pubKey =>
                       match jwt.ParseWithClaims
                               json_Unmarshal_RenewalInfo now jws
                               (keyFunc_pubKey pubKey) with
                       | Err err => Failure (FailedToVerify err)
                       | Ok parsedToken =>
                           Success (jwt.Token.Claims parsedToken)
                       end
                   end
               end
           end
       end
   end, w').

(** *** JWT.go: issuing *)

(** The [jwt.MapClaims] literal of [GenerateAuthorizationJWT]. *)
Definition authorizationClaims (now : time.Time) (Bid Iss : string)
  : gmap string any :=
  <["iss" := AString Iss]>
    (<["iat" := AInt64 (time.Unix_of now)]>
       (<["exp" := AInt64 (time.Unix_of (time.Add now (30 * time.Minute)))]>
          (<["aud" := AString "appstoreconnect-v1"]>
             (<["bid" := AString Bid]> ∅)))).

(** The token [GenerateAuthorizationJWT] signs: [jwt.NewWithClaims] and
    the assignment [token.Header["kid"] = Kid]. *)
Definition authorizationToken (now : time.Time) (Kid Bid Iss : string)
  : jwt.Token.t (gmap string any) :=
  let token :=
    jwt.NewWithClaims jwt.SigningMethodES256 (authorizationClaims now Bid Iss) in
  {| jwt.Token.Raw := jwt.Token.Raw token;
     jwt.Token.Method := jwt.Token.Method token;
     jwt.Token.Header := <["kid" := AString Kid]> (jwt.Token.Header token);
     jwt.Token.Claims := jwt.Token.Claims token;
     jwt.Token.Signature := jwt.Token.Signature token;
     jwt.Token.Valid := jwt.Token.Valid token |}.

(** [GenerateAuthorizationJWT]; [now] is what [time.Now()] returns. *)
Definition GenerateAuthorizationJWT (now : time.Time)
    (Kid Bid Iss privateKeyStr : string) : result issue_error string :=
  match pem_Decode privateKeyStr with
  | None => Err ErrInvalidPEM
  | Some block =>
      if negb (String.eqb (pem.Type_ block) "PRIVATE KEY") then Err ErrInvalidPEM
      else
        match x509_ParseECPrivateKey (pem.Bytes block) with
        | None => Err ErrParseECPrivateKey
        | Some privateKey =>
            match jwt.SignedString (authorizationToken now Kid Bid Iss)
                    privateKey with
            | Err err => Err (ErrSignJWT err)
            | Ok signedToken => Ok signedToken
            end
        end
  end.

End Package.

(** [jws] is the three segments [h], [p] and [s], none of which holds a
    dot, joined by dots. *)
Definition three_segments (jws h p s : string) : Prop :=
  strings.lacks "." h = true ∧ strings.lacks "." p = true
  ∧ strings.lacks "." s = true ∧ jws = h +:+ "." +:+ p +:+ "." +:+ s.

(** ** The verification algorithm as the specification words it

    "verify<T: ClaimSet>(compact) -> T": fetch the directory, read the key
    identifier from the unverified header, resolve the key, verify the
    signature and decode the payload into the caller's claim shape [C]. *)

Section Generic.
Context {F : Float64} {L : Lib}.

(** Steps 1 to 3: the directory, the key identifier, the key. *)
Definition resolve_key (net : Network) (jws : string) (w : World)
  : outcome verify_failure rsa.PublicKey * World :=
  let '(fetched, w') := FetchAppleJWKs net w in
  (match fetched with
   | Err err => Failure (FailedToFetch err)
   | Ok jwk =>
       match jwt.ParseUnverified json_Unmarshal_map jws with
       | Err err => Failure (FailedToParse err)
       | Ok (token, _) =>
           match header_kid token with
           | None => Failure KidNotFound
           | Some kid =>
               match jwk with
               | None => Panic
               | Some jwk =>
                   match GetAppleRSAPublicKey jwk kid with
                   | Err err => Failure (FailedToGetKey err)
                   | Ok pubKey => Success pubKey
                   end
               end
           end
       end
   end, w').

(** Steps 4 and 5 for the claim shape [C]. *)
Definition verify_claims {C : Type} `{jwt.Claims C}
    (unmarshal : list byte -> option C) (now : time.Time) (jws : string)
    (pubKey : rsa.PublicKey) : outcome verify_failure C :=
  match jwt.ParseWithClaims unmarshal now jws (keyFunc_pubKey pubKey) with
  | Err err => Failure (FailedToVerify err)
  | Ok parsedToken => Success (jwt.Token.Claims parsedToken)
  end.

Definition verify {C : Type} `{jwt.Claims C}
    (unmarshal : list byte -> option C) (net : Network) (now : time.Time)
    (jws : string) (w : World) : outcome verify_failure C * World :=
  match resolve_key net jws w with
  | (Success pubKey, w') => (verify_claims unmarshal now jws pubKey, w')
  | (Failure e, w') => (Failure e, w')
  | (Panic, w') => (Panic, w')
  end.

(** The token of [ParseUnverified] with other claims in it. *)
Definition with_claims {C C'} (token : jwt.Token.t C) (claims : C')
  : jwt.Token.t C' :=
  {| jwt.Token.Raw := jwt.Token.Raw token;
     jwt.Token.Method := jwt.Token.Method token;
     jwt.Token.Header := jwt.Token.Header token;
     jwt.Token.Claims := claims;
     jwt.Token.Signature := jwt.Token.Signature token;
     jwt.Token.Valid := jwt.Token.Valid token |}.

(** A method outside the RSA family refuses an RSA public key. *)
Definition refusal (m : jwt.SigningMethod) : jwt.verify_error :=
  match m with
  | jwt.SigningMethodNone => jwt.NoneSignatureTypeDisallowedError
  | _ => jwt.ErrInvalidKeyType
  end.

(** The failures of steps 1 to 3, which do not involve the claim shape. *)
Definition before_claims (e : verify_failure) : bool :=
  match e with
  | FailedToFetch _ | FailedToParse _ | KidNotFound | FailedToGetKey _ => true
  | FailedToVerify _ | InvalidJWT => false
  end.

End Generic.

(** ** Concurrent callers of [FetchAppleJWKs]

    Each caller runs the function in two steps: the test [AppleJWKs != nil]
    (which ends the call on a hit and sends the request on a miss), and the
    arrival of the response, decoded into [AppleJWKs].  The function takes
    no lock, so the steps of different callers interleave freely. *)

Inductive caller : Type :=
| AtEntry
| InFlight (response : http_result)
| Returned (r : result fetch_error (option AppleJWK)).

Record System : Type := {
  world : World;
  callers : list caller;
}.

Definition in_flight (c : caller) : bool :=
  match c with InFlight _ => true | _ => false end.

Definition at_entry (c : caller) : bool :=
  match c with AtEntry => true | _ => false end.

(** The number of callers for which [f] holds. *)
Definition count_callers (f : caller → bool) (cs : list caller) : nat :=
  length (filter (λ c, f c = true) cs).

Definition weight (b : bool) : nat := if b then 1 else 0.

(** The number of requests sent and not yet answered. *)
Definition fetches_in_flight (s : System) : nat :=
  count_callers in_flight (callers s).

(** The first [k] of [n] callers have sent their requests and wait for
    the responses. *)
Definition waiting (net : Network) (n k : nat) : System :=
  {| world := {| AppleJWKs := None; requests := k |};
     callers := map (λ j, InFlight (net j)) (seq 0 k)
                ++ replicate (n - k) AtEntry |}.

Section Concurrency.
Context {F : Float64} {L : Lib}.

(** The state after the response arrives at a caller. *)
Definition arrive (response : http_result) (w : World)
  : result fetch_error (option AppleJWK) * World :=
  match response with
  | HttpError => (Err ErrFetch, w)
  | HttpResponse _ body =>
      let '(decoded, failed) := json_Decode_AppleJWK (AppleJWKs w) body in
      let w' := {| AppleJWKs := decoded; requests := requests w |} in
      if failed then (Err ErrDecode, w') else (Ok decoded, w')
  end.

Inductive step (net : Network) : System -> System -> Prop :=
| step_hit s i jwks :
    callers s !! i = Some AtEntry ->
    AppleJWKs (world s) = Some jwks ->
    step net s {| world := world s;
                  callers := <[i := Returned (Ok (Some jwks))]> (callers s) |}
| step_miss s i :
    callers s !! i = Some AtEntry ->
    AppleJWKs (world s) = None ->
    step net s {| world := {| AppleJWKs := None;
                              requests := S (requests (world s)) |};
                  callers := <[i := InFlight (net (requests (world s)))]> (callers s) |}
| step_arrive s i response :
    callers s !! i = Some (InFlight response) ->
    step net s {| world := (arrive response (world s)).2;
                  callers := <[i := Returned (arrive response (world s)).1]> (callers s) |}.

(** [n] callers about to start, the cache unpopulated, no request sent. *)
Definition start (n : nat) : System :=
  {| world := {| AppleJWKs := None; requests := 0 |};
     callers := replicate n AtEntry |}.

End Concurrency.

(** ** Fixtures

    Concrete inputs for the examples: JSON texts (written with ['] for the
    double quote), a key directory, envelopes, and an instance of the
    libraries.  Its JSON functions answer as [encoding/json] does on the
    texts below (and refuse every other text); [float64] is restricted to
    whole numbers; the cryptographic functions are stand-ins: every
    signing returns the bytes [sig], every RSA verification accepts
    exactly these bytes, and the text [pem] is a private key. *)

Module Fixture.

Definition quote (c : ascii) : ascii :=
  if Ascii.eqb c "'" then ascii_of_nat 34 else c.

Fixpoint quoted (s : string) : string :=
  match s with
  | EmptyString => EmptyString
  | String c rest => String (quote c) (quoted rest)
  end.

Definition json (text : string) : list byte := bytes_of_string (quoted text).

Definition is_json (data : list byte) (text : string) : bool :=
  String.eqb (string_of_bytes data) (quoted text).

#[local] Instance whole_numbers : Float64 := {
  float64 := Z;
  float64_is_zero f := f =? 0;
  int64_of_float64 f := f;
  newNumericDateFromSeconds f := time.Unix f 0;
}.

Definition zero_SubscriptionInfo : SubscriptionInfo.t :=
  {| SubscriptionInfo.Environment := ""; SubscriptionInfo.AppAppleID := 0;
     SubscriptionInfo.BundleID := ""; SubscriptionInfo.ProductID := "";
     SubscriptionInfo.Storefront := ""; SubscriptionInfo.StorefrontID := "";
     SubscriptionInfo.OriginalTransactionID := "";
     SubscriptionInfo.SubscriptionGroupID := "";
     SubscriptionInfo.PurchaseDate := "";
     SubscriptionInfo.OriginalPurchaseDate := "";
     SubscriptionInfo.ExpirationDate := "";
     SubscriptionInfo.IsInBillingRetryPeriod := None;
     SubscriptionInfo.GracePeriodExpiresDate := None;
     SubscriptionInfo.AutoRenewStatus := 0;
     SubscriptionInfo.AutoRenewProductID := None;
     SubscriptionInfo.IsUpgraded := None; SubscriptionInfo.OfferType := None;
     SubscriptionInfo.OfferIdentifier := None;
     SubscriptionInfo.SignedTransactionInfo := "";
     SubscriptionInfo.SignedRenewalInfo := "" |}.

(** The zero [JWSRenewalInfoDecodedPayload] but for [ExpiresDate]. *)
Definition renewal (expiresDate : Timestamp) : RenewalInfo.t :=
  {| RenewalInfo.OriginalTransactionId := ""; RenewalInfo.TransactionId := "";
     RenewalInfo.WebOrderLineItemId := ""; RenewalInfo.BundleId := "";
     RenewalInfo.AppAccountToken := None; RenewalInfo.ProductId := "";
     RenewalInfo.Type_ := ""; RenewalInfo.SubscriptionGroupIdentifier := "";
     RenewalInfo.Quantity := None; RenewalInfo.Price := None;
     RenewalInfo.Currency := ""; RenewalInfo.Storefront := "";
     RenewalInfo.StorefrontId := ""; RenewalInfo.EligibleWinBackOfferIds := [];
     RenewalInfo.OfferType := 0; RenewalInfo.OfferDiscountType := "";
     RenewalInfo.OriginalPurchaseDate := 0; RenewalInfo.PurchaseDate := 0;
     RenewalInfo.RecentSubscriptionStartDate := 0;
     RenewalInfo.IsInBillingRetryPeriod := false;
     RenewalInfo.GracePeriodExpiresDate := 0; RenewalInfo.AutoRenewStatus := 0;
     RenewalInfo.AutoRenewProductId := ""; RenewalInfo.ExpirationIntent := 0;
     RenewalInfo.ExpiresDate := expiresDate; RenewalInfo.IsUpgraded := false;
     RenewalInfo.RenewalDate := 0; RenewalInfo.RenewalPrice := 0;
     RenewalInfo.InAppOwnershipType := ""; RenewalInfo.PriceIncreaseStatus := 0;
     RenewalInfo.RevocationDate := 0; RenewalInfo.RevocationReason := "";
     RenewalInfo.TransactionReason := ""; RenewalInfo.SignedDate := 0;
     RenewalInfo.Environment := ""; RenewalInfo.OfferIdentifier := "" |}.

(** JSON texts. *)
Definition header_RS256 : string := "{'alg':'RS256','kid':'AB12'}".
Definition header_ES256 : string := "{'alg':'ES256','kid':'AB12'}".
Definition payload_empty : string := "{}".
Definition payload_1970 : string := "{'expiresDate':1000}".
Definition payload_2100 : string := "{'expiresDate':4102444800000}".
Definition directory : string :=
  "{'keys':[{'kty':'RSA','kid':'AB12','use':'sig','alg':'RS256','n':'AQAB','e':'AQAB'}]}".
Definition keys_of_wrong_type : string := "{'keys':5}".
Definition issued_header : string :=
  "{'alg':'ES256','kid':'2X9R4HXF34','typ':'JWT'}".
Definition issued_claims : string :=
  "{'aud':'appstoreconnect-v1','bid':'com.example.testbundleid','exp':1801,'iat':1,'iss':'57246542-96fe-1a63-e053-0824d011072a'}".

Definition AB12 : JWK.t :=
  {| JWK.Kty := "RSA"; JWK.Kid := "AB12"; JWK.Use := "sig";
     JWK.Alg := "RS256"; JWK.N := "AQAB"; JWK.E := "AQAB" |}.

Definition apple_keys : AppleJWK := {| Keys := [AB12] |}.

Definition sig : list byte := bytes_of_string "sig".

Definition header_of (alg : string) : gmap string any :=
  <["alg" := AString alg]> (<["kid" := AString "AB12"]> ∅).

#[local] Instance lib : Lib := {
  jwt_keyfunc_first := false;
  jwt_claims_by_decoder := false;
  json_Unmarshal_map data :=
    if is_json data header_RS256 then Some (header_of "RS256")
    else if is_json data header_ES256 then Some (header_of "ES256")
    else if is_json data payload_empty then Some ∅
    else if is_json data payload_1970 then Some {["expiresDate" := AFloat64 1000]}
    else if is_json data payload_2100
         then Some {["expiresDate" := AFloat64 4102444800000]}
    else None;
  json_Unmarshal_SubscriptionInfo data :=
    if is_json data payload_empty || is_json data payload_1970
       || is_json data payload_2100
    then Some zero_SubscriptionInfo else None;
  json_Unmarshal_RenewalInfo data :=
    if is_json data payload_empty then Some (renewal 0)
    else if is_json data payload_1970 then Some (renewal 1000)
    else if is_json data payload_2100 then Some (renewal 4102444800000)
    else None;
  json_first_value data := Some data;
  json_Decode_AppleJWK target body :=
    let allocated := Some (default {| Keys := [] |} target) in
    if is_json body directory then (Some apple_keys, false)
    else if is_json body payload_empty then (allocated, false)
    else if is_json body keys_of_wrong_type then (allocated, true)
    else (target, true);
  json_Marshal m :=
    match m !! "typ" with
    | Some _ => Some (json issued_header)
    | None => Some (json issued_claims)
    end;
  rsa_VerifyPKCS1v15 key h signingString signature :=
    String.eqb (string_of_bytes signature) "sig";
  rsa_VerifyPSS key h signingString signature :=
    String.eqb (string_of_bytes signature) "sig";
  ecdsa_Sign key h signingString := Some sig;
  pem_Decode data :=
    if String.eqb data "pem"
    then Some {| pem.Type_ := "PRIVATE KEY"; pem.Bytes := [] |} else None;
  x509_ParseECPrivateKey der :=
    Some {| ecdsa.CurveBitSize := 256; ecdsa.D := 1 |};
}.

(** The compact envelope of a header, a payload and a signature. *)
Definition envelope (header payload : string) (signature : list byte)
  : string :=
  jwt.EncodeSegment (json header) ++ "."
  ++ jwt.EncodeSegment (json payload) ++ "."
  ++ jwt.EncodeSegment signature.

(** The network answers every request with [status] and the JSON [text]. *)
Definition answers (status : Z) (text : string) : Network :=
  λ _, HttpResponse status (json text).

Definition fresh : World := {| AppleJWKs := None; requests := 0 |}.

(** 2026-10-30T00:00:00Z. *)
Definition today : time.Time := time.Unix 1793318400 0.

End Fixture.

(** ** More of the package

    The HTTP client of [client.go], the remaining claim accessors of
    [subscription.go] and [client.go], and runs of several calls. *)

(** *** fmt and strings *)

(** The verb [%d] of [fmt.Sprintf] for an [int]: the decimal digits, after
    a minus sign for a negative number. *)
Definition Sprintf_d (val : Z) : string :=
  NilZero.string_of_int (Z.to_int val).

(** [strings.Join(elems, sep)]. *)
Fixpoint Join (elems : list string) (sep : string) : string :=
  match elems with
  | [] => ""
  | [elem] => elem
  | elem :: rest => elem +:+ sep +:+ Join rest sep
  end.

(** *** client.go: the HTTP client *)

(** [convertToQueryParam]: the loop appends one [key=value] per element. *)
Definition convertToQueryParam (arr : list Z) (key : string) : string :=
  let params :=
    fold_left (λ params val, (params ++ [key +:+ "=" +:+ Sprintf_d val])%list)
      arr [] in
  Join params "&".

Module Config.
Record t : Type := {
  Sandbox : bool;
  Kid : string;
  PrivateKey : string;
  Iss : string;
  Bid : string;
}.
End Config.

(** The package variables [BaseURL] and [SandboxURL], which the package
    never assigns. *)
Definition BaseURL : string := "https://api.storekit.itunes.apple.com".
Definition SandboxURL : string := "https://api.storekit-sandbox.itunes.apple.com".

Module Client.
(** A [Client]; the pointers [Config] and [Authorization] and the reader
    [payload] are nil when [None]. *)
Record t : Type := {
  Config : option Config.t;
  url : string;
  method : string;
  payload : option (list byte);
  Authorization : option string;
}.
End Client.

(** [NewClient]. *)
Definition NewClient (config : option Config.t) : Client.t :=
  {| Client.Config := config; Client.url := ""; Client.method := "";
     Client.payload := None; Client.Authorization := None |}.

(** [Client.Subscriptions]: the client with its method and address set;
    [None] when the call panics, [c.Config] being nil. *)
Definition Subscriptions (c : Client.t) (transactionId : string)
    (status : list Z) : option Client.t :=
  let state :=
    if (0 <? length status)%nat
    then "?" +:+ convertToQueryParam status "status" else "" in
  config ← Client.Config c;
  Some {| Client.Config := Client.Config c;
          Client.url :=
            (if Config.Sandbox config then SandboxURL else BaseURL)
            +:+ "/inApps/v1/subscriptions/" +:+ transactionId +:+ state;
          Client.method := "GET";
          Client.payload := Client.payload c;
          Client.Authorization := Client.Authorization c |}.

(** The response types of subscription.go. *)
Module LastTransactionsItem.
Record t : Type := {
  OriginalTransactionId : string;
  Status : string;
  SignedRenewalInfo : string;
  SignedTransactionInfo : string;
}.
End LastTransactionsItem.

Module SubscriptionGroupIdentifierItem.
Record t : Type := {
  SubscriptionGroupIdentifier : string;
  LastTransactions : option LastTransactionsItem.t;
}.
End SubscriptionGroupIdentifierItem.

Module StatusResponse.
Record t : Type := {
  Data : list (option SubscriptionGroupIdentifierItem.t);
  Environment : string;
  AppAppleId : string;
  BundleId : string;
}.
End StatusResponse.

Module http.
(** An [*http.Request], as far as [Do] fills it in. *)
Record Request : Type := {
  Method : string;
  URL : string;
  Body : option (list byte);
  Authorization : option string;
}.

(** What [client.Do(req)] returns: a non-nil error, or a response with its
    status code and its body ([None] when reading the body fails). *)
Inductive result : Type :=
| Error
| Response (StatusCode : Z) (Body : option (list byte)).
End http.

(** What [Do] takes from [net/http] and [encoding/json]. *)
Class ClientLib : Type := {
  (** [http.NewRequest(method, url, body)]: whether it returns a
      request (the method is a token and the address parses). *)
  http_NewRequest : string -> string -> bool;
  (** [json.Unmarshal(data, &v)], [v] a zero [StatusResponse]. *)
  json_Unmarshal_StatusResponse : list byte -> option StatusResponse.t;
}.

(** The errors of [Do]. *)
Inductive do_error : Type :=
| ErrAuthorization (e : issue_error)  (* the error of GenerateAuthorizationJWT *)
| ErrNewRequest                       (* the error of http.NewRequest *)
| ErrClientDo                         (* the error of client.Do *)
| ErrStatus (StatusCode : Z)          (* errors.New(res.Status) *)
| ErrReadAll                          (* the error of io.ReadAll *)
| ErrUnmarshalResponse.               (* the error of json.Unmarshal *)

Section Client.
Context {F : Float64} {L : Lib} {CL : ClientLib}.

(** Lines 75 to 80 of [Do]: the request that carries the token [jwt]
    ([http.NewRequest] reads an empty method as GET). *)
Definition Do_request (c : Client.t) (jwt : string) : option http.Request :=
  if http_NewRequest (Client.method c) (Client.url c)
  then Some {| http.Method :=
                 if String.eqb (Client.method c) "" then "GET"
                 else Client.method c;
               http.URL := Client.url c;
               http.Body := Client.payload c;
               http.Authorization := Some ("Bearer " +:+ jwt) |}
  else None.

(** Lines 82 to 102 of [Do]: what it makes of the answer. *)
Definition Do_response (res : http.result)
  : outcome do_error StatusResponse.t :=
  match res with
  | http.Error => Failure ErrClientDo
  | http.Response StatusCode body =>
      if negb (StatusCode =? 200) then Failure (ErrStatus StatusCode)
      else
        match body with
        | None => Failure ErrReadAll
        | Some body =>
            match json_Unmarshal_StatusResponse body with
            | None => Failure ErrUnmarshalResponse
            | Some response => Success response
            end
        end
  end.

(** [Client.Do]; [send] is the network as [client.Do] sees it, [now] what
    [time.Now()] returns.  The outcome and the client afterwards. *)
Definition Do (send : http.Request -> http.result) (now : time.Time)
    (c : Client.t) : outcome do_error StatusResponse.t * Client.t :=
  let exchange (c : Client.t) (jwt : string) :=
    match Do_request c jwt with
    | None => Failure ErrNewRequest
    | Some req => Do_response (send req)
    end in
  match Client.Authorization c with
  | Some jwt => (exchange c jwt, c)
  | None =>
      match Client.Config c with
      | None => (Panic, c)
      | Some config =>
          match GenerateAuthorizationJWT now (Config.Kid config)
                  (Config.Bid config) (Config.Iss config)
                  (Config.PrivateKey config) with
          | Err err => (Failure (ErrAuthorization err), c)
          | Ok jwt =>
              let c' :=
                {| Client.Config := Client.Config c;
                   Client.url := Client.url c;
                   Client.method := Client.method c;
                   Client.payload := Client.payload c;
                   Client.Authorization := Some jwt |} in
              (exchange c' jwt, c')
          end
      end
  end.

End Client.

(** *** client.go: [Timestamp] *)

(** [Timestamp.Time]. *)
Definition Timestamp_Time (t : Timestamp) : time.Time := time.UnixMilli t.

(** *** subscription.go: the identity accessors of [SubscriptionInfo] *)

(** The errors of [SubscriptionInfo.GetAudience]. *)
Inductive audience_error : Type :=
| ErrAudienceClaims (e : jwt.claims_error)
| ErrInvalidAudienceType.   (* "invalid audience type in claims" *)

Section Identity.
Context {F : Float64} {L : Lib}.

(** The common shape of [GetIssuer] and [GetSubject] of
    [SubscriptionInfo], for the claim [name]. *)
Definition SubscriptionInfo_stringClaim (name : string)
    (s : SubscriptionInfo.t) : result jwt.claims_error string :=
  claims ← parseJWT (SubscriptionInfo.SignedTransactionInfo s);
  match claims !! name with
  | Some (AString v) => Ok v
  | _ => Err (jwt.ErrNotInClaims name)
  end.

Definition SubscriptionInfo_GetIssuer := SubscriptionInfo_stringClaim "iss".
Definition SubscriptionInfo_GetSubject := SubscriptionInfo_stringClaim "sub".

(** The loop of [GetAudience]: the elements so far, or the first element
    that is no string. *)
Fixpoint audience_range (aud : list any) : option (list string) :=
  match aud with
  | [] => Some []
  | AString v :: rest => cons v <$> audience_range rest
  | _ :: _ => None
  end.

(** [SubscriptionInfo.GetAudience]. *)
Definition SubscriptionInfo_GetAudience (s : SubscriptionInfo.t)
  : result audience_error (list string) :=
  match parseJWT (SubscriptionInfo.SignedTransactionInfo s) with
  | Err err => Err (ErrAudienceClaims err)
  | Ok claims =>
      match claims !! "aud" with
      | Some (ASlice aud) =>
          match audience_range aud with
          | Some audience => Ok audience
          | None => Err ErrInvalidAudienceType
          end
      | _ => Err (ErrAudienceClaims (jwt.ErrNotInClaims "aud"))
      end
  end.

End Identity.

(** *** Runs of calls

    The package functions that touch [AppleJWKs], called one after the
    other. *)

Inductive call : Type :=
| CallFetchAppleJWKs
| CallVerifyJWT (now : time.Time) (jws : string)
| CallVerifyJWSTransaction (now : time.Time) (jws : string)
| CallVerifyJWSRenewalInfo (now : time.Time) (jws : string).

Section Runs.
Context {F : Float64} {L : Lib}.

(** The state a call leaves behind. *)
Definition after_call (net : Network) (w : World) (c : call) : World :=
  match c with
  | CallFetchAppleJWKs => (FetchAppleJWKs net w).2
  | CallVerifyJWT now jws => (VerifyJWT net now jws w).2
  | CallVerifyJWSTransaction now jws => (VerifyJWSTransaction net now jws w).2
  | CallVerifyJWSRenewalInfo now jws => (VerifyJWSRenewalInfo net now jws w).2
  end.

Definition after_calls (net : Network) (cs : list call) (w : World) : World :=
  fold_left (after_call net) cs w.

End Runs.

(** ** More fixtures

    A second instance of the libraries, which also reads back the header
    and the claims [GenerateAuthorizationJWT] issues (no key of the claims
    is a field of [SubscriptionInfo], so they unmarshal into its zero
    value), decodes the body [null], and knows a header that names PS256
    and transaction payloads whose [signedTransactionInfo] is itself an
    envelope; and an instance of what [Do] takes from [net/http]. *)

Module Cases.

#[local] Existing Instance Fixture.whole_numbers.

Definition header_PS256 : string := "{'alg':'PS256','kid':'AB12'}".
Definition payload_window : string := "{'exp':4102444800,'nbf':1}".
Definition payload_audience : string := "{'aud':['a','b']}".

(** The envelope inside a transaction payload. *)
Definition signedTransactionInfo (payload : string) : string :=
  Fixture.envelope Fixture.header_RS256 payload Fixture.sig.

Definition payload_transaction (payload : string) : string :=
  "{'signedTransactionInfo':'" +:+ signedTransactionInfo payload +:+ "'}".

(** The zero [SubscriptionInfo] but for [SignedTransactionInfo]. *)
Definition transaction (info : string) : SubscriptionInfo.t :=
  {| SubscriptionInfo.Environment := ""; SubscriptionInfo.AppAppleID := 0;
     SubscriptionInfo.BundleID := ""; SubscriptionInfo.ProductID := "";
     SubscriptionInfo.Storefront := ""; SubscriptionInfo.StorefrontID := "";
     SubscriptionInfo.OriginalTransactionID := "";
     SubscriptionInfo.SubscriptionGroupID := "";
     SubscriptionInfo.PurchaseDate := "";
     SubscriptionInfo.OriginalPurchaseDate := "";
     SubscriptionInfo.ExpirationDate := "";
     SubscriptionInfo.IsInBillingRetryPeriod := None;
     SubscriptionInfo.GracePeriodExpiresDate := None;
     SubscriptionInfo.AutoRenewStatus := 0;
     SubscriptionInfo.AutoRenewProductID := None;
     SubscriptionInfo.IsUpgraded := None; SubscriptionInfo.OfferType := None;
     SubscriptionInfo.OfferIdentifier := None;
     SubscriptionInfo.SignedTransactionInfo := info;
     SubscriptionInfo.SignedRenewalInfo := "" |}.

Definition issued_header : gmap string any :=
  <["alg" := AString "ES256"]>
    (<["kid" := AString "2X9R4HXF34"]> (<["typ" := AString "JWT"]> ∅)).

Definition issued_claims : gmap string any :=
  <["aud" := AString "appstoreconnect-v1"]>
    (<["bid" := AString "com.example.testbundleid"]>
       (<["exp" := AFloat64 1801]>
          (<["iat" := AFloat64 1]>
             (<["iss" := AString "57246542-96fe-1a63-e053-0824d011072a"]> ∅)))).

(** The token [jwt.ParseUnverified] makes of the envelope with the header
    [Fixture.header_RS256], the payload [payload], read as [claims], and
    the signature [Fixture.sig]. *)
Definition parsed {C : Type} (payload : string) (claims : C)
  : jwt.Token.t C :=
  {| jwt.Token.Raw :=
       Fixture.envelope Fixture.header_RS256 payload Fixture.sig;
     jwt.Token.Method := jwt.SigningMethodRSA crypto.SHA256;
     jwt.Token.Header := Fixture.header_of "RS256";
     jwt.Token.Claims := claims;
     jwt.Token.Signature := [];
     jwt.Token.Valid := false |}.

(** The claim maps of the payloads. *)
Definition window : gmap string any :=
  <["exp" := AFloat64 4102444800]> {["nbf" := AFloat64 1]}.

Definition expires_2100 : gmap string any :=
  {["expiresDate" := AFloat64 4102444800000]}.

Definition signed (payload : string) : gmap string any :=
  {["signedTransactionInfo" := AString (signedTransactionInfo payload)]}.

#[local] Instance lib : Lib := {
  jwt_keyfunc_first := true;
  jwt_claims_by_decoder := false;
  json_Unmarshal_map data :=
    if Fixture.is_json data header_PS256 then Some (Fixture.header_of "PS256")
    else if Fixture.is_json data Fixture.issued_header then Some issued_header
    else if Fixture.is_json data Fixture.issued_claims then Some issued_claims
    else if Fixture.is_json data payload_window
         then Some window
    else if Fixture.is_json data payload_audience
         then Some {["aud" := ASlice [AString "a"; AString "b"]]}
    else if Fixture.is_json data (payload_transaction payload_window)
         then Some (signed payload_window)
    else if Fixture.is_json data (payload_transaction payload_audience)
         then Some (signed payload_audience)
    else json_Unmarshal_map (Lib := Fixture.lib) data;
  json_Unmarshal_SubscriptionInfo data :=
    if Fixture.is_json data (payload_transaction payload_window)
    then Some (transaction (signedTransactionInfo payload_window))
    else if Fixture.is_json data (payload_transaction payload_audience)
    then Some (transaction (signedTransactionInfo payload_audience))
    else if Fixture.is_json data Fixture.issued_claims
    then Some Fixture.zero_SubscriptionInfo
    else json_Unmarshal_SubscriptionInfo (Lib := Fixture.lib) data;
  json_Unmarshal_RenewalInfo :=
    json_Unmarshal_RenewalInfo (Lib := Fixture.lib);
  json_first_value data := Some data;
  json_Decode_AppleJWK target body :=
    if Fixture.is_json body "null" then (None, false)
    else json_Decode_AppleJWK (Lib := Fixture.lib) target body;
  json_Marshal := json_Marshal (Lib := Fixture.lib);
  rsa_VerifyPKCS1v15 := rsa_VerifyPKCS1v15 (Lib := Fixture.lib);
  rsa_VerifyPSS := rsa_VerifyPSS (Lib := Fixture.lib);
  ecdsa_Sign := ecdsa_Sign (Lib := Fixture.lib);
  pem_Decode data :=
    if String.eqb data "rsa"
    then Some {| pem.Type_ := "RSA PRIVATE KEY"; pem.Bytes := [] |}
    else pem_Decode (Lib := Fixture.lib) data;
  x509_ParseECPrivateKey := x509_ParseECPrivateKey (Lib := Fixture.lib);
}.

Definition empty_StatusResponse : StatusResponse.t :=
  {| StatusResponse.Data := []; StatusResponse.Environment := "";
     StatusResponse.AppAppleId := ""; StatusResponse.BundleId := "" |}.

(** Every method and address makes a request; the body [{}] is the zero
    response. *)
#[local] Instance client_lib : ClientLib := {
  http_NewRequest method url := true;
  json_Unmarshal_StatusResponse data :=
    if Fixture.is_json data Fixture.payload_empty
    then Some empty_StatusResponse else None;
}.

Definition config : Config.t :=
  {| Config.Sandbox := true; Config.Kid := "2X9R4HXF34";
     Config.PrivateKey := "pem";
     Config.Iss := "57246542-96fe-1a63-e053-0824d011072a";
     Config.Bid := "com.example.testbundleid" |}.

(** The App Store answers every request with [StatusCode] and the JSON
    [text]. *)
Definition replies (StatusCode : Z) (text : string)
  : http.Request -> http.result :=
  λ _, http.Response StatusCode (Some (Fixture.json text)).

End Cases.

(** * Properties *)

(** ** Splitting at dots *)

Section Split.
Variable c : ascii.

Lemma split_on_nonempty s : strings.split_on c s ≠ [].
Proof.
  destruct s as [|a s]; simpl; [easy|].
  destruct (Ascii.eqb a c); [easy|]. destruct (strings.split_on c s); easy.
Qed.

Lemma split_on_lacks s :
  strings.lacks c s = true → strings.split_on c s = [s].
Proof.
  induction s as [|a s IH]; simpl; [reflexivity|].
  intros [Ha Hs]%andb_true_iff. apply negb_true_iff in Ha.
  rewrite Ha, IH; auto.
Qed.

Lemma split_on_app h rest :
  strings.lacks c h = true →
  strings.split_on c (h +:+ String c rest) = h :: strings.split_on c rest.
Proof.
  induction h as [|a h IH]; simpl.
  - intros _. rewrite Ascii.eqb_refl. reflexivity.
  - intros [Ha Hh]%andb_true_iff. apply negb_true_iff in Ha.
    rewrite Ha, IH; auto.
Qed.

Lemma split_on_inv s piece pieces :
  strings.split_on c s = piece :: pieces →
  strings.lacks c piece = true ∧
  match pieces with
  | [] => s = piece
  | _ :: _ =>
      ∃ rest, s = piece +:+ String c rest ∧ strings.split_on c rest = pieces
  end.
Proof.
  revert piece pieces. induction s as [|a s IH]; simpl; intros piece pieces.
  - intros [= <- <-]. auto.
  - destruct (Ascii.eqb a c) eqn:Ha.
    + intros [= <- <-]. apply Ascii.eqb_eq in Ha as ->.
      split; [reflexivity|].
      pose proof (split_on_nonempty s).
      destruct (strings.split_on c s) eqn:E; [easy|].
      exists s. simpl. rewrite E. auto.
    + destruct (strings.split_on c s) as [|p ps] eqn:E;
        [apply split_on_nonempty in E; easy|].
      intros [= <- <-]. destruct (IH _ _ eq_refl) as [Hp Hps].
      simpl. rewrite Ha, Hp. split; [reflexivity|].
      destruct ps.
      * now subst.
      * destruct Hps as (rest & -> & Hrest). exists rest. auto.
Qed.

End Split.

Lemma Split_dot_three jws h p s :
  strings.Split_dot jws = [h; p; s] ↔ three_segments jws h p s.
Proof.
  unfold strings.Split_dot, three_segments. split.
  - intros H. apply split_on_inv in H as (Hh & rest & -> & H).
    apply split_on_inv in H as (Hp & rest' & -> & H).
    apply split_on_inv in H as (Hs & ->). auto.
  - intros (Hh & Hp & Hs & ->).
    change ("." +:+ p +:+ "." +:+ s) with (String "." (p +:+ String "." s)).
    rewrite !split_on_app, split_on_lacks by assumption. reflexivity.
Qed.

Lemma Split_dot_length jws :
  length (strings.Split_dot jws) = 3%nat ↔ ∃ h p s, three_segments jws h p s.
Proof.
  split.
  - intros H.
    destruct (strings.Split_dot jws) as [|h [|p [|s [|]]]] eqn:E;
      try discriminate.
    exists h, p, s. now apply Split_dot_three.
  - intros (h & p & s & H). apply Split_dot_three in H. now rewrite H.
Qed.

(** ** Bytes as integers *)

Lemma int_of_byte_range b : 0 <= int_of_byte b < 256.
Proof. unfold int_of_byte. pose proof (Byte.to_N_bounded b). lia. Qed.

Lemma testbit_small x n i : 0 <= x < 2 ^ n → n <= i → Z.testbit x i = false.
Proof.
  intros Hx Hi.
  assert (0 <= n)
    by (destruct (Z.le_gt_cases 0 n); [lia|]; rewrite Z.pow_neg_r in Hx; lia).
  apply Z.testbit_false; [lia|].
  rewrite Z.div_small; [reflexivity|].
  split; [lia|]. eapply Z.lt_le_trans; [apply Hx|].
  apply Z.pow_le_mono_r; lia.
Qed.

Lemma lor_shiftl_small a x n :
  0 <= n → 0 <= x < 2 ^ n → Z.lor (Z.shiftl a n) x = a * 2 ^ n + x.
Proof.
  intros Hn Hx.
  assert (Hland : Z.land (Z.shiftl a n) x = 0).
  { apply Z.bits_inj'; intros i Hi. rewrite Z.land_spec, Z.bits_0.
    destruct (Z.lt_ge_cases i n).
    - rewrite Z.shiftl_spec_low by lia. reflexivity.
    - rewrite (testbit_small x n i) by lia. apply andb_false_r. }
  rewrite <- Z.lxor_lor, <- Z.add_nocarry_lxor by assumption.
  rewrite Z.shiftl_mul_pow2 by lia. reflexivity.
Qed.

(** The shifts of the three-byte case never leave 24 bits, so Go's 64-bit
    [int] computes what [Z] computes. *)
Lemma exponent_int_three e0 e1 e2 :
  exponent_int [e0; e1; e2]
  = Ok (int_of_byte e0 * 65536 + int_of_byte e1 * 256 + int_of_byte e2).
Proof.
  pose proof (int_of_byte_range e0). pose proof (int_of_byte_range e1).
  pose proof (int_of_byte_range e2).
  unfold exponent_int. f_equal.
  replace (Z.lor (Z.shiftl (int_of_byte e0) 16) (Z.shiftl (int_of_byte e1) 8))
    with (Z.shiftl (Z.lor (Z.shiftl (int_of_byte e0) 8) (int_of_byte e1)) 8).
  - rewrite !lor_shiftl_small; lia.
  - rewrite Z.shiftl_lor, Z.shiftl_shiftl by lia. reflexivity.
Qed.

Lemma exponent_int_range eBytes e :
  exponent_int eBytes = Ok e → 0 <= e < 2 ^ 24.
Proof.
  destruct eBytes as [|e0 [|e1 [|e2 [|]]]]; try discriminate.
  - intros [= <-]. pose proof (int_of_byte_range e0). lia.
  - rewrite exponent_int_three. intros [= <-].
    pose proof (int_of_byte_range e0). pose proof (int_of_byte_range e1).
    pose proof (int_of_byte_range e2). lia.
Qed.

(** ** The key directory *)

(** The loop of [GetAppleRSAPublicKey] stops at the first key whose [Kid]
    is [kid]. *)
Lemma GetAppleRSAPublicKey_find jwk kid :
  GetAppleRSAPublicKey jwk kid =
  match find (λ key, String.eqb (JWK.Kid key) kid) (Keys jwk) with
  | Some key => publicKeyOf key
  | None => Err (ErrNoMatchingKey kid)
  end.
Proof.
  unfold GetAppleRSAPublicKey. induction (Keys jwk) as [|key keys IH]; simpl.
  - reflexivity.
  - destruct (String.eqb (JWK.Kid key) kid); auto.
Qed.

(** C6.  Exponent reconstruction in [GetAppleRSAPublicKey], for the key the
    loop selects (the first with the wanted [Kid]) once its modulus and its
    exponent are base64url-decoded: an exponent of exactly one byte is the
    value of that byte, an exponent of exactly three bytes is their
    big-endian value, and for any other length the function returns the
    error "unexpected exponent length" and no key. *)
Theorem exponent_reconstruction (jwk : AppleJWK) (kid : string) (key : JWK.t)
    (nBytes eBytes : list byte) :
  find (λ key, String.eqb (JWK.Kid key) kid) (Keys jwk) = Some key →
  base64.RawURLEncoding_DecodeString (JWK.N key) = Some nBytes →
  base64.RawURLEncoding_DecodeString (JWK.E key) = Some eBytes →
  GetAppleRSAPublicKey jwk kid =
  match eBytes with
  | [e0] => Ok {| rsa.N := big.SetBytes nBytes; rsa.E := int_of_byte e0 |}
  | [e0; e1; e2] =>
      Ok {| rsa.N := big.SetBytes nBytes;
            rsa.E := int_of_byte e0 * 65536 + int_of_byte e1 * 256
                     + int_of_byte e2 |}
  | _ => Err ErrUnexpectedExponentLength
  end.
Proof.
  intros Hkey Hn He. rewrite GetAppleRSAPublicKey_find, Hkey.
  unfold publicKeyOf. rewrite Hn, He.
  destruct eBytes as [|e0 [|e1 [|e2 [|]]]]; try reflexivity.
  rewrite exponent_int_three. reflexivity.
Qed.

(** The exponents [[0x03]] (base64url [Aw]) and [[0x01,0x00,0x01]]
    ([AQAB]) give 3 and 65537; the two-byte exponent [[0x01,0x00]] ([AQA])
    is refused. *)
Lemma exponent_reconstruction_examples :
  let key e := {| JWK.Kty := "RSA"; JWK.Kid := "AB12"; JWK.Use := "sig";
                  JWK.Alg := "RS256"; JWK.N := "AQAB"; JWK.E := e |} in
  GetAppleRSAPublicKey {| Keys := [key "Aw"] |} "AB12"
  = Ok {| rsa.N := 65537; rsa.E := 3 |}
  ∧ GetAppleRSAPublicKey {| Keys := [key "AQAB"] |} "AB12"
    = Ok {| rsa.N := 65537; rsa.E := 65537 |}
  ∧ GetAppleRSAPublicKey {| Keys := [key "AQA"] |} "AB12"
    = Err ErrUnexpectedExponentLength.
Proof.
  intros key. split; [|split].
  - exact (exponent_reconstruction {| Keys := [key "Aw"] |} "AB12"
             (key "Aw") [x01; x00; x01] [x03] eq_refl eq_refl eq_refl).
  - exact (exponent_reconstruction {| Keys := [key "AQAB"] |} "AB12"
             (key "AQAB") [x01; x00; x01] [x01; x00; x01]
             eq_refl eq_refl eq_refl).
  - exact (exponent_reconstruction {| Keys := [key "AQA"] |} "AB12"
             (key "AQA") [x01; x00; x01] [x01; x00]
             eq_refl eq_refl eq_refl).
Defined.

(** ** Unverified decoding *)

Section Decoding.
Context {F : Float64} {L : Lib}.

Lemma DecodeJWSTransaction_segments jws h p s :
  three_segments jws h p s →
  DecodeJWSTransaction jws =
  match base64.RawURLEncoding_DecodeString p with
  | None => Err ErrDecodePayload
  | Some payload =>
      match json_Unmarshal_SubscriptionInfo payload with
      | None => Err ErrUnmarshalPayload
      | Some transaction => Ok transaction
      end
  end.
Proof.
  intros H%Split_dot_three. unfold DecodeJWSTransaction. now rewrite H.
Qed.

Lemma JWSRenewalInfoDecoded_segments jws h p s :
  three_segments jws h p s →
  JWSRenewalInfoDecoded jws =
  match base64.RawURLEncoding_DecodeString p with
  | None => Err ErrDecodePayload
  | Some payload =>
      match json_Unmarshal_RenewalInfo payload with
      | None => Err ErrUnmarshalPayload
      | Some transaction => Ok transaction
      end
  end.
Proof.
  intros H%Split_dot_three. unfold JWSRenewalInfoDecoded. now rewrite H.
Qed.

(** C5, as the code has it.  [DecodeJWSTransaction] and
    [JWSRenewalInfoDecoded] return the error "invalid JWT format" exactly
    for the inputs that are not three dot-separated segments; whether a
    segment is empty plays no part. *)
Theorem split_step_counts_segments (jws : string) :
  (DecodeJWSTransaction jws = Err ErrInvalidJWTFormat
   ↔ ¬ ∃ h p s, three_segments jws h p s)
  ∧ (JWSRenewalInfoDecoded jws = Err ErrInvalidJWTFormat
     ↔ ¬ ∃ h p s, three_segments jws h p s).
Proof.
  split; split.
  - intros Herr (h & p & s & H).
    rewrite (DecodeJWSTransaction_segments _ _ _ _ H) in Herr.
    repeat case_match; discriminate.
  - intros Hno. unfold DecodeJWSTransaction.
    destruct (length (strings.Split_dot jws) =? 3)%nat eqn:E; [|reflexivity].
    apply Nat.eqb_eq, Split_dot_length in E. contradiction.
  - intros Herr (h & p & s & H).
    rewrite (JWSRenewalInfoDecoded_segments _ _ _ _ H) in Herr.
    repeat case_match; discriminate.
  - intros Hno. unfold JWSRenewalInfoDecoded.
    destruct (length (strings.Split_dot jws) =? 3)%nat eqn:E; [|reflexivity].
    apply Nat.eqb_eq, Split_dot_length in E. contradiction.
Qed.

(** C8.  Unverified decoding does not read the signature segment: two
    envelopes with the same header and payload segments decode alike, and
    when the payload segment is base64url and its bytes unmarshal into the
    claim shape, both [DecodeJWSTransaction] and [JWSRenewalInfoDecoded]
    succeed on both envelopes with that claim set, whatever the two
    signature segments are. *)
Theorem decode_ignores_signature (jws1 jws2 h p s1 s2 : string)
    (payload : list byte) :
  three_segments jws1 h p s1 →
  three_segments jws2 h p s2 →
  base64.RawURLEncoding_DecodeString p = Some payload →
  DecodeJWSTransaction jws1 = DecodeJWSTransaction jws2
  ∧ JWSRenewalInfoDecoded jws1 = JWSRenewalInfoDecoded jws2
  ∧ (∀ claims, json_Unmarshal_SubscriptionInfo payload = Some claims →
       DecodeJWSTransaction jws1 = Ok claims
       ∧ DecodeJWSTransaction jws2 = Ok claims)
  ∧ (∀ claims, json_Unmarshal_RenewalInfo payload = Some claims →
       JWSRenewalInfoDecoded jws1 = Ok claims
       ∧ JWSRenewalInfoDecoded jws2 = Ok claims).
Proof.
  intros H1 H2 Hp.
  rewrite (DecodeJWSTransaction_segments _ _ _ _ H1),
    (DecodeJWSTransaction_segments _ _ _ _ H2),
    (JWSRenewalInfoDecoded_segments _ _ _ _ H1),
    (JWSRenewalInfoDecoded_segments _ _ _ _ H2), Hp.
  split; [reflexivity|]. split; [reflexivity|].
  split; intros claims ->; split; reflexivity.
Qed.

End Decoding.

(** C5, the claim as stated fails: the input [.e30.] has three segments of
    which the header and the signature are empty (the payload [e30] is the
    JSON text of the empty object), and both decoders accept it. *)
Lemma empty_segments_accepted :
  strings.Split_dot ".e30." = [""; "e30"; ""]
  ∧ DecodeJWSTransaction (L := Fixture.lib) ".e30."
    = Ok Fixture.zero_SubscriptionInfo
  ∧ JWSRenewalInfoDecoded (L := Fixture.lib) ".e30." = Ok (Fixture.renewal 0).
Proof. vm_compute. auto. Qed.

(** C8 on the fixtures: the envelope with the signature [c2ln] and the one
    with the signature segment [AAAA] decode to the same claims. *)
Lemma decode_ignores_signature_example :
  let jws s := Fixture.envelope Fixture.header_RS256 Fixture.payload_2100 s in
  DecodeJWSTransaction (L := Fixture.lib) (jws Fixture.sig)
  = DecodeJWSTransaction (L := Fixture.lib) (jws [x00; x00; x00])
  ∧ JWSRenewalInfoDecoded (L := Fixture.lib) (jws Fixture.sig)
    = Ok (Fixture.renewal 4102444800000)
  ∧ JWSRenewalInfoDecoded (L := Fixture.lib) (jws [x00; x00; x00])
    = Ok (Fixture.renewal 4102444800000).
Proof.
  intros jws.
  pose proof (decode_ignores_signature (L := Fixture.lib)
                (jws Fixture.sig) (jws [x00; x00; x00])
                (jwt.EncodeSegment (Fixture.json Fixture.header_RS256))
                (jwt.EncodeSegment (Fixture.json Fixture.payload_2100))
                "c2ln" "AAAA" (Fixture.json Fixture.payload_2100)) as H.
  destruct H as (Htx & _ & _ & Hrn).
  - vm_compute. auto.
  - vm_compute. auto.
  - vm_compute. reflexivity.
  - split; [exact Htx|].
    apply (Hrn (Fixture.renewal 4102444800000)). vm_compute. reflexivity.
Defined.

(** ** Base64 *)

Local Open Scope N_scope.

Lemma list_ind3 {A} (P : list A → Prop) :
  P [] → (∀ x, P [x]) → (∀ x y, P [x; y]) →
  (∀ x y z l, P l → P (x :: y :: z :: l)) → ∀ l, P l.
Proof.
  intros H0 H1 H2 H3.
  fix IH 1. intros [|x [|y [|z l]]]; [exact H0|exact (H1 x)|exact (H2 x y)|].
  exact (H3 x y z l (IH l)).
Qed.

Lemma N_testbit_small x n i : x < 2 ^ n → n <= i → N.testbit x i = false.
Proof.
  intros Hx Hi. destruct (N.eq_dec x 0) as [->|Hx0]; [apply N.bits_0|].
  apply N.bits_above_log2. apply N.log2_lt_pow2; [lia|].
  eapply N.lt_le_trans; [apply Hx|]. apply N.pow_le_mono_r; lia.
Qed.

Lemma N_lor_shiftl_small a x n :
  x < 2 ^ n → N.lor (N.shiftl a n) x = a * 2 ^ n + x.
Proof.
  intros Hx.
  assert (Hland : N.land (N.shiftl a n) x = 0).
  { apply N.bits_inj; intros i. rewrite N.land_spec, N.bits_0.
    destruct (N.lt_ge_cases i n).
    - rewrite N.shiftl_spec_low by lia. reflexivity.
    - rewrite (N_testbit_small x n i) by lia. apply andb_false_r. }
  rewrite <- N.lxor_lor, <- N.add_nocarry_lxor by assumption.
  rewrite N.shiftl_mul_pow2. reflexivity.
Qed.

Lemma to_N_lt b : Byte.to_N b < 256.
Proof. pose proof (Byte.to_N_bounded b). lia. Qed.

Lemma byte_of_N_to_N b : byte_of_N (Byte.to_N b) = b.
Proof.
  unfold byte_of_N. rewrite N.mod_small by apply to_N_lt.
  now rewrite Byte.of_to_N.
Qed.

Lemma byte_of_N_mod n b : n mod 256 = Byte.to_N b → byte_of_N n = b.
Proof. unfold byte_of_N. intros ->. now rewrite Byte.of_to_N. Qed.

Lemma decodeMap_encodeChar v :
  v < 64 → base64.decodeMap (base64.encodeChar v) = Some v.
Proof.
  intros Hv. unfold base64.decodeMap, base64.encodeChar.
  destruct (N.ltb_spec v 26), (N.ltb_spec v 52), (N.ltb_spec v 62),
    (N.eqb_spec v 62); try lia;
    rewrite N_ascii_embedding by lia.
  all: repeat match goal with
         | |- context [(?a <=? ?b)%N] => destruct (N.leb_spec a b); try lia
         | |- context [(?a =? ?b)%N] => destruct (N.eqb_spec a b); try lia
         end; simpl; f_equal; lia.
Qed.

(** The three bytes of a group as one 24-bit number. *)
Lemma group_value x y z :
  N.lor (N.lor (N.shiftl (Byte.to_N x) 16) (N.shiftl (Byte.to_N y) 8)) (Byte.to_N z)
  = Byte.to_N x * 65536 + Byte.to_N y * 256 + Byte.to_N z.
Proof.
  pose proof (to_N_lt x). pose proof (to_N_lt y). pose proof (to_N_lt z).
  replace (N.lor (N.shiftl (Byte.to_N x) 16) (N.shiftl (Byte.to_N y) 8))
    with (N.shiftl (N.lor (N.shiftl (Byte.to_N x) 8) (Byte.to_N y)) 8).
  - rewrite !N_lor_shiftl_small; [lia|..]; simpl; lia.
  - rewrite N.shiftl_lor, N.shiftl_shiftl. reflexivity.
Qed.

Lemma sextet_lt v : N.land v 63 < 64.
Proof.
  change 63 with (N.ones 6). rewrite N.land_ones. apply N.mod_lt. discriminate.
Qed.

(** The four six-bit values of a 24-bit number put together again. *)
Lemma regroup val :
  val < 2 ^ 24 →
  N.lor (N.lor (N.lor (N.shiftl (N.land (N.shiftr val 18) 63) 18)
                      (N.shiftl (N.land (N.shiftr val 12) 63) 12))
               (N.shiftl (N.land (N.shiftr val 6) 63) 6))
        (N.land val 63) = val.
Proof.
  intros Hval. apply N.bits_inj. intros i.
  rewrite !N.lor_spec.
  change 63 with (N.ones 6).
  destruct (N.lt_ge_cases i 6) as [H6|H6].
  { rewrite !N.shiftl_spec_low by lia. simpl.
    rewrite N.land_spec, N.ones_spec_low by lia. apply andb_true_r. }
  destruct (N.lt_ge_cases i 12) as [H12|H12].
  { rewrite (N.shiftl_spec_low _ 18), (N.shiftl_spec_low _ 12) by lia.
    rewrite N.shiftl_spec_high' by lia.
    rewrite !N.land_spec, N.shiftr_spec', N.ones_spec_low, N.ones_spec_high by lia.
    replace (i - 6 + 6) with i by lia. now rewrite andb_true_r, andb_false_r, orb_false_r. }
  destruct (N.lt_ge_cases i 18) as [H18|H18].
  { rewrite (N.shiftl_spec_low _ 18) by lia.
    rewrite !N.shiftl_spec_high' by lia.
    rewrite !N.land_spec, !N.shiftr_spec'.
    rewrite (N.ones_spec_low 6 (i - 12)), !N.ones_spec_high by lia.
    replace (i - 12 + 12) with i by lia.
    now rewrite andb_true_r, !andb_false_r, !orb_false_r. }
  destruct (N.lt_ge_cases i 24) as [H24|H24].
  { rewrite !N.shiftl_spec_high' by lia.
    rewrite !N.land_spec, !N.shiftr_spec'.
    rewrite (N.ones_spec_low 6 (i - 18)), !N.ones_spec_high by lia.
    replace (i - 18 + 18) with i by lia.
    now rewrite andb_true_r, !andb_false_r, !orb_false_r. }
  rewrite !N.shiftl_spec_high' by lia.
  rewrite !N.land_spec, !N.ones_spec_high by lia.
  rewrite !andb_false_r. simpl. symmetry. apply (N_testbit_small val 24); lia.
Qed.

Lemma sextets_encodeChar v rest :
  v < 64 →
  base64.sextets (String (base64.encodeChar v) rest)
  = cons v <$> base64.sextets rest.
Proof. intros Hv. simpl. now rewrite decodeMap_encodeChar. Qed.

Lemma decode_group x y z :
  let val := N.lor (N.lor (N.shiftl (Byte.to_N x) 16) (N.shiftl (Byte.to_N y) 8)) (Byte.to_N z) in
  byte_of_N (N.shiftr val 16) = x ∧ byte_of_N (N.shiftr val 8) = y ∧ byte_of_N val = z.
Proof.
  intros val. subst val. rewrite group_value.
  pose proof (to_N_lt x). pose proof (to_N_lt y). pose proof (to_N_lt z).
  rewrite !N.shiftr_div_pow2. change (2 ^ 16) with 65536. change (2 ^ 8) with 256.
  set (X := Byte.to_N x) in *. set (Y := Byte.to_N y) in *.
  set (Z := Byte.to_N z) in *.
  assert ((X * 65536 + Y * 256 + Z) / 65536 = X) as ->.
  { replace (X * 65536 + Y * 256 + Z) with ((Y * 256 + Z) + X * 65536) by lia.
    rewrite N.div_add, N.div_small by lia. lia. }
  assert ((X * 65536 + Y * 256 + Z) / 256 = X * 256 + Y) as ->.
  { replace (X * 65536 + Y * 256 + Z) with (Z + (X * 256 + Y) * 256) by lia.
    rewrite N.div_add, N.div_small by lia. lia. }
  split; [|split]; apply byte_of_N_mod.
  - apply N.mod_small. lia.
  - rewrite N.add_comm, N.Div0.mod_add. apply N.mod_small. lia.
  - replace (X * 65536 + Y * 256 + Z) with (Z + (X * 256 + Y) * 256) by lia.
    rewrite N.Div0.mod_add. apply N.mod_small. lia.
Qed.

(** Decoding undoes encoding. *)
Lemma base64_round_trip bs :
  base64.RawURLEncoding_DecodeString (base64.RawURLEncoding_EncodeToString bs)
  = Some bs.
Proof.
  unfold base64.RawURLEncoding_DecodeString.
  induction bs as [|x|x y|x y z rest IH] using list_ind3.
  - reflexivity.
  - cbn [base64.RawURLEncoding_EncodeToString].
    set (val := N.shiftl (Byte.to_N x) 16).
    rewrite !sextets_encodeChar by apply sextet_lt.
    cbn [base64.sextets fmap option_fmap option_map mbind option_bind base64.quanta].
    assert (val < 2 ^ 24) as Hval.
    { subst val. rewrite N.shiftl_mul_pow2. pose proof (to_N_lt x). simpl. lia. }
    pose proof (regroup val Hval) as Hre.
    assert (N.land (N.shiftr val 6) 63 = 0 ∧ N.land val 63 = 0) as [H6 H0].
    { change 63 with (N.ones 6). rewrite !N.land_ones, N.shiftr_div_pow2.
      subst val. rewrite N.shiftl_mul_pow2.
      change (2 ^ 16) with (1024 * 2 ^ 6). change (1024 * 2 ^ 6) with (16 * 2 ^ 6 * 2 ^ 6) at 1.
      rewrite !N.mul_assoc, N.div_mul by discriminate.
      now rewrite !N.Div0.mod_mul. }
    rewrite H6, H0, N.shiftl_0_l, !N.lor_0_r in Hre. rewrite Hre.
    do 2 f_equal. subst val. rewrite N.shiftr_shiftl_l by lia. simpl.
    rewrite N.shiftl_0_r. apply byte_of_N_to_N.
  - cbn [base64.RawURLEncoding_EncodeToString].
    set (val := N.lor (N.shiftl (Byte.to_N x) 16) (N.shiftl (Byte.to_N y) 8)).
    rewrite !sextets_encodeChar by apply sextet_lt.
    cbn [base64.sextets fmap option_fmap option_map mbind option_bind base64.quanta].
    pose proof (group_value x y x00) as Hgv. simpl (Byte.to_N x00) in Hgv.
    rewrite N.lor_0_r, N.add_0_r in Hgv. fold val in Hgv.
    pose proof (to_N_lt x). pose proof (to_N_lt y).
    assert (val < 2 ^ 24) as Hval by (rewrite Hgv; simpl; lia).
    pose proof (regroup val Hval) as Hre.
    assert (N.land val 63 = 0) as Hlow.
    { change 63 with (N.ones 6). rewrite N.land_ones, Hgv.
      replace (Byte.to_N x * 65536 + Byte.to_N y * 256)
        with ((Byte.to_N x * 1024 + Byte.to_N y * 4) * 2 ^ 6) by (simpl; lia).
      apply N.Div0.mod_mul. }
    rewrite Hlow, N.lor_0_r in Hre. rewrite Hre.
    destruct (decode_group x y x00) as (Hx & Hy & _).
    simpl (Byte.to_N x00) in Hx, Hy. rewrite N.lor_0_r in Hx, Hy.
    fold val in Hx, Hy. now rewrite Hx, Hy.
  - cbn [base64.RawURLEncoding_EncodeToString].
    set (val := N.lor (N.lor (N.shiftl (Byte.to_N x) 16) (N.shiftl (Byte.to_N y) 8)) (Byte.to_N z)).
    rewrite !sextets_encodeChar by apply sextet_lt.
    destruct (base64.sextets (base64.RawURLEncoding_EncodeToString rest)) as [vs|];
      [|discriminate].
    cbn [fmap option_fmap option_map mbind option_bind base64.quanta] in IH |- *.
    rewrite IH. cbn [fmap option_fmap option_map].
    pose proof (to_N_lt x). pose proof (to_N_lt y). pose proof (to_N_lt z).
    assert (val < 2 ^ 24) as Hval by (subst val; rewrite group_value; simpl; lia).
    rewrite (regroup val Hval).
    destruct (decode_group x y z) as (Hx & Hy & Hz). fold val in Hx, Hy, Hz.
    now rewrite Hx, Hy, Hz.
Qed.

Local Close Scope N_scope.

(** ** Issuing the authorization token *)

Lemma append_assoc (a b c : string) : (a +:+ b) +:+ c = a +:+ b +:+ c.
Proof.
  induction a as [|x a IH]; [reflexivity|].
  change (String x ((a +:+ b) +:+ c) = String x (a +:+ b +:+ c)).
  by rewrite IH.
Qed.

Lemma encodeChar_not_dot v : Ascii.eqb (base64.encodeChar (N.land v 63)) "." = false.
Proof.
  assert (N.land v 63 < 64)%N as Hlt.
  { change 63%N with (N.ones 6). rewrite N.land_ones. apply N.mod_lt. discriminate. }
  generalize dependent (N.land v 63). intros n Hn.
  apply Ascii.eqb_neq. intros H.
  apply (f_equal N_of_ascii) in H. unfold base64.encodeChar in H.
  change (N_of_ascii ".") with 46%N in H.
  destruct (N.ltb_spec n 26), (N.ltb_spec n 52), (N.ltb_spec n 62),
    (N.eqb_spec n 62);
    rewrite N_ascii_embedding in H by lia; lia.
Qed.

Lemma EncodeToString_lacks_dot bs :
  strings.lacks "." (base64.RawURLEncoding_EncodeToString bs) = true.
Proof.
  induction bs as [|x|x y|x y z l IH] using list_ind3; cbn -[N.land N.shiftr N.shiftl N.lor base64.encodeChar].
  - reflexivity.
  - rewrite !encodeChar_not_dot. reflexivity.
  - rewrite !encodeChar_not_dot. reflexivity.
  - rewrite !encodeChar_not_dot, IH. reflexivity.
Qed.

Lemma Unix_of_Add_minutes now m :
  time.Unix_of (time.Add now (m * time.Minute)) = time.Unix_of now + m * 60.
Proof.
  unfold time.Unix_of, time.Add, time.Minute.
  replace (now + m * (60 * time.Second)) with (now + (m * 60) * time.Second) by lia.
  apply Z.div_add. unfold time.Second. lia.
Qed.

Section Issuing.
Context {F : Float64} {L : Lib}.

Lemma authorizationClaims_lookup now Bid Iss :
  let claims := authorizationClaims now Bid Iss in
  claims !! "iss" = Some (AString Iss)
  ∧ claims !! "iat" = Some (AInt64 (time.Unix_of now))
  ∧ claims !! "exp" = Some (AInt64 (time.Unix_of now + 30 * 60))
  ∧ claims !! "aud" = Some (AString "appstoreconnect-v1")
  ∧ claims !! "bid" = Some (AString Bid).
Proof.
  cbv zeta. unfold authorizationClaims. rewrite Unix_of_Add_minutes.
  repeat split; by simplify_map_eq.
Qed.

Lemma SignedString_inv (t : jwt.Token.t (gmap string any)) key signed :
  jwt.SignedString t key = Ok signed →
  ∃ h c signature,
    json_Marshal (jwt.Token.Header t) = Some h
    ∧ json_Marshal (jwt.Token.Claims t) = Some c
    ∧ jwt.Sign (jwt.Token.Method t)
        (jwt.EncodeSegment h +:+ "." +:+ jwt.EncodeSegment c) key
      = Ok signature
    ∧ signed = (jwt.EncodeSegment h +:+ "." +:+ jwt.EncodeSegment c)
               +:+ "." +:+ jwt.EncodeSegment signature.
Proof.
  unfold jwt.SignedString, jwt.SigningString.
  destruct (json_Marshal (jwt.Token.Header t)) as [h|]; [|discriminate].
  destruct (json_Marshal (jwt.Token.Claims t)) as [c|]; [|discriminate].
  cbn [mbind option_bind].
  destruct (jwt.Sign _ _ key) as [signature|e] eqn:Hs; [|discriminate].
  intros [= <-]. exists h, c, signature. auto.
Qed.

(** C7.  Every envelope [GenerateAuthorizationJWT] returns is three
    dot-free segments that base64url-decode to the marshalled header, the
    marshalled claim map and the signature, where the claims carry the
    issuer [Iss], issued-at the current time in Unix seconds, expires-at
    exactly 30 minutes (1800 seconds) after issued-at, the audience
    "appstoreconnect-v1" and [bid] the bundle id [Bid], and the header
    carries the key identifier [Kid] (and the algorithm ES256). *)
Theorem authorization_envelope (now : time.Time)
    (Kid Bid Iss privateKeyStr envelope : string) :
  GenerateAuthorizationJWT now Kid Bid Iss privateKeyStr = Ok envelope →
  ∃ (header claims : gmap string any) (h c signature : list byte)
    (hseg pseg sseg : string),
    three_segments envelope hseg pseg sseg
    ∧ jwt.DecodeSegment hseg = Some h
    ∧ jwt.DecodeSegment pseg = Some c
    ∧ jwt.DecodeSegment sseg = Some signature
    ∧ json_Marshal header = Some h
    ∧ json_Marshal claims = Some c
    ∧ header !! "kid" = Some (AString Kid)
    ∧ header !! "alg" = Some (AString "ES256")
    ∧ claims !! "iss" = Some (AString Iss)
    ∧ claims !! "iat" = Some (AInt64 (time.Unix_of now))
    ∧ claims !! "exp" = Some (AInt64 (time.Unix_of now + 30 * 60))
    ∧ claims !! "aud" = Some (AString "appstoreconnect-v1")
    ∧ claims !! "bid" = Some (AString Bid).
Proof.
  unfold GenerateAuthorizationJWT. intros H.
  destruct (pem_Decode privateKeyStr) as [block|]; [|discriminate].
  destruct (negb _); [discriminate|].
  destruct (x509_ParseECPrivateKey _) as [privateKey|]; [|discriminate].
  destruct (jwt.SignedString _ privateKey) as [signed|] eqn:Hsigned;
    [|discriminate].
  injection H as ->.
  apply SignedString_inv in Hsigned as (h & c & signature & Hh & Hc & _ & ->).
  exists (jwt.Token.Header (authorizationToken now Kid Bid Iss)),
    (authorizationClaims now Bid Iss), h, c, signature,
    (jwt.EncodeSegment h), (jwt.EncodeSegment c), (jwt.EncodeSegment signature).
  split.
  { unfold three_segments, jwt.EncodeSegment.
    rewrite !EncodeToString_lacks_dot. repeat split.
    rewrite !append_assoc. reflexivity. }
  do 3 (split; [apply base64_round_trip|]).
  split; [exact Hh|]. split; [exact Hc|].
  split; [by simplify_map_eq|]. split; [by simplify_map_eq|].
  apply authorizationClaims_lookup.
Qed.
End Issuing.

(** C7 on the fixtures: an issuance at 1 second and 5 nanoseconds after the
    epoch succeeds, and its claims expire at second 1801. *)
Lemma authorization_envelope_example :
  ∃ envelope : string,
    GenerateAuthorizationJWT (L := Fixture.lib) (time.Unix 1 5) "2X9R4HXF34"
      "com.example.testbundleid" "57246542-96fe-1a63-e053-0824d011072a" "pem"
    = Ok envelope
    ∧ ∃ (header claims : gmap string any) (h c signature : list byte)
        (hseg pseg sseg : string),
        three_segments envelope hseg pseg sseg
        ∧ jwt.DecodeSegment hseg = Some h
        ∧ jwt.DecodeSegment pseg = Some c
        ∧ jwt.DecodeSegment sseg = Some signature
        ∧ json_Marshal (Lib := Fixture.lib) header = Some h
        ∧ json_Marshal (Lib := Fixture.lib) claims = Some c
        ∧ header !! "kid" = Some (AString "2X9R4HXF34")
        ∧ header !! "alg" = Some (AString "ES256")
        ∧ claims !! "iss"
          = Some (AString "57246542-96fe-1a63-e053-0824d011072a")
        ∧ claims !! "iat" = Some (AInt64 (time.Unix_of (time.Unix 1 5)))
        ∧ claims !! "exp"
          = Some (AInt64 (time.Unix_of (time.Unix 1 5) + 30 * 60))
        ∧ claims !! "aud" = Some (AString "appstoreconnect-v1")
        ∧ claims !! "bid" = Some (AString "com.example.testbundleid").
Proof.
  eexists. split.
  - vm_compute. reflexivity.
  - apply (authorization_envelope (L := Fixture.lib) (time.Unix 1 5)
             "2X9R4HXF34" "com.example.testbundleid"
             "57246542-96fe-1a63-e053-0824d011072a" "pem").
    vm_compute. reflexivity.
Defined.

(** ** Fetching the key directory *)

Section Fetching.
Context {F : Float64} {L : Lib}.

Lemma FetchAppleJWKs_hit net w jwks :
  AppleJWKs w = Some jwks → FetchAppleJWKs net w = (Ok (Some jwks), w).
Proof. unfold FetchAppleJWKs. now intros ->. Qed.

(** The status code of the response is never read. *)
Lemma FetchAppleJWKs_status status status' body w :
  FetchAppleJWKs (λ _, HttpResponse status body) w
  = FetchAppleJWKs (λ _, HttpResponse status' body) w.
Proof. reflexivity. Qed.

(** A body the decoder reports an error for is a fetch failure. *)
Lemma FetchAppleJWKs_undecodable net w status body :
  AppleJWKs w = None →
  net (requests w) = HttpResponse status body →
  (json_Decode_AppleJWK None body).2 = true →
  (FetchAppleJWKs net w).1 = Err ErrDecode.
Proof.
  unfold FetchAppleJWKs. intros -> -> Hfailed.
  destruct (json_Decode_AppleJWK None body) as [decoded failed].
  simpl in Hfailed. now subst.
Qed.

(** A decoding error that comes after the decoder allocated the struct
    leaves the struct in [AppleJWKs], and the next call returns it. *)
Lemma FetchAppleJWKs_partial net w status body partial :
  AppleJWKs w = None →
  net (requests w) = HttpResponse status body →
  json_Decode_AppleJWK None body = (Some partial, true) →
  ∃ w', FetchAppleJWKs net w = (Err ErrDecode, w')
        ∧ AppleJWKs w' = Some partial
        ∧ FetchAppleJWKs net w' = (Ok (Some partial), w').
Proof.
  unfold FetchAppleJWKs at 1. intros -> -> ->.
  eexists. split; [reflexivity|]. split; [reflexivity|].
  now apply FetchAppleJWKs_hit.
Qed.

End Fetching.

(** C3, where the code departs from the claim.  [FetchAppleJWKs] returns
    the decoding error for a body the JSON decoder refuses, but it never
    reads the status code: a response answers like the response with the
    same body and status 200, so the status 500 with the body [{}] is a
    successful fetch of an empty key set, which is cached. *)
Theorem fetch_ignores_status :
  (∀ (F : Float64) (L : Lib) (status : Z) (body : list byte) (w : World),
     FetchAppleJWKs (λ _, HttpResponse status body) w
     = FetchAppleJWKs (λ _, HttpResponse 200 body) w)
  ∧ (∀ (F : Float64) (L : Lib) (status : Z) (body : list byte) (n : nat),
       (json_Decode_AppleJWK None body).2 = true →
       (FetchAppleJWKs (λ _, HttpResponse status body)
          {| AppleJWKs := None; requests := n |}).1 = Err ErrDecode)
  ∧ FetchAppleJWKs (L := Fixture.lib)
      (Fixture.answers 500 Fixture.payload_empty) Fixture.fresh
    = (Ok (Some {| Keys := [] |}),
       {| AppleJWKs := Some {| Keys := [] |}; requests := 1 |}).
Proof.
  split; [|split].
  - intros. apply FetchAppleJWKs_status.
  - intros F L status body n Hfailed.
    now apply (FetchAppleJWKs_undecodable _ _ status body).
  - vm_compute. reflexivity.
Qed.

(** C4, where the code departs from the claim.  The response is decoded
    straight into the package variable: for the body [{'keys':5}] (valid
    JSON, a value of the wrong type) [FetchAppleJWKs] returns the decoding
    error and leaves an allocated, empty key set in [AppleJWKs]; the next
    call sends no request and returns that key set as a success.  The same
    holds for every body whose decoding fails after the allocation. *)
Theorem failed_fetch_populates_cache :
  (∀ (F : Float64) (L : Lib) (net : Network) (w : World) (status : Z)
     (body : list byte) (partial : AppleJWK),
     AppleJWKs w = None →
     net (requests w) = HttpResponse status body →
     json_Decode_AppleJWK None body = (Some partial, true) →
     ∃ w', FetchAppleJWKs net w = (Err ErrDecode, w')
           ∧ AppleJWKs w' = Some partial
           ∧ FetchAppleJWKs net w' = (Ok (Some partial), w'))
  ∧ (let net := Fixture.answers 200 Fixture.keys_of_wrong_type in
     let w' := {| AppleJWKs := Some {| Keys := [] |}; requests := 1 |} in
     FetchAppleJWKs (L := Fixture.lib) net Fixture.fresh = (Err ErrDecode, w')
     ∧ FetchAppleJWKs (L := Fixture.lib) net w'
       = (Ok (Some {| Keys := [] |}), w')).
Proof.
  split.
  - intros F L net w status body partial.
    apply FetchAppleJWKs_partial.
  - vm_compute. auto.
Qed.

(** ** Verifying *)

Section Verifying.
Context {F : Float64} {L : Lib}.

Lemma VerifyJWSTransaction_verify net now jws w :
  VerifyJWSTransaction net now jws w
  = verify json_Unmarshal_SubscriptionInfo net now jws w.
Proof.
  unfold VerifyJWSTransaction, verify, resolve_key, verify_claims.
  destruct (FetchAppleJWKs net w) as [fetched w'].
  repeat case_match; reflexivity.
Qed.

Lemma VerifyJWSRenewalInfo_verify net now jws w :
  VerifyJWSRenewalInfo net now jws w
  = verify json_Unmarshal_RenewalInfo net now jws w.
Proof.
  unfold VerifyJWSRenewalInfo, verify, resolve_key, verify_claims.
  destruct (FetchAppleJWKs net w) as [fetched w'].
  repeat case_match; reflexivity.
Qed.

Lemma VerifyJWT_resolve net now jws w :
  VerifyJWT net now jws w =
  match resolve_key net jws w with
  | (Success pubKey, w') =>
      (match jwt.ParseWithClaims json_Unmarshal_map now jws
               (keyFunc_VerifyJWT pubKey) with
       | Err err => Failure (FailedToVerify err)
       | Ok parsedToken =>
           if negb (jwt.Token.Valid parsedToken) then Failure InvalidJWT
           else Success tt
       end, w')
  | (Failure e, w') => (Failure e, w')
  | (Panic, w') => (Panic, w')
  end.
Proof.
  unfold VerifyJWT, resolve_key.
  destruct (FetchAppleJWKs net w) as [fetched w'].
  repeat case_match; reflexivity.
Qed.

(** What a successful [ParseUnverified] says about the envelope, and what
    it gives for another claim shape: only the decoding of the payload
    bytes depends on the shape. *)
Lemma ParseUnverified_shape {C} (unmarshal : list byte → option C) jws token parts :
  jwt.ParseUnverified unmarshal jws = Ok (token, parts) →
  ∃ h p s claimBytes,
    three_segments jws h p s ∧ parts = [h; p; s]
    ∧ jwt.DecodeSegment p = Some claimBytes
    ∧ jwt.decode_claims unmarshal claimBytes = Some (jwt.Token.Claims token)
    ∧ jwt.Token.Valid token = false
    ∧ ∀ C' (unmarshal' : list byte → option C'),
        jwt.ParseUnverified unmarshal' jws =
        match jwt.decode_claims unmarshal' claimBytes with
        | None => Err jwt.ErrClaimJSON
        | Some claims' => Ok (with_claims token claims', parts)
        end.
Proof.
  unfold jwt.ParseUnverified.
  destruct (strings.Split_dot jws) as [|h [|p [|s [|]]]] eqn:Hsplit;
    try discriminate.
  apply Split_dot_three in Hsplit.
  destruct (jwt.DecodeSegment h) as [headerBytes|]; [|discriminate].
  destruct (json_Unmarshal_map headerBytes) as [header|]; [|discriminate].
  destruct (jwt.DecodeSegment p) as [claimBytes|] eqn:Hp; [|discriminate].
  destruct (jwt.decode_claims unmarshal claimBytes) as [claims|] eqn:Hclaims;
    [|discriminate].
  destruct (header !! "alg") as [[| | | |method| |]|]; try discriminate.
  destruct (jwt.GetSigningMethod method) as [m|]; [|discriminate].
  intros [= <- <-]. exists h, p, s, claimBytes.
  split; [exact Hsplit|]. split; [reflexivity|]. split; [exact Hp|].
  split; [exact Hclaims|]. split; [reflexivity|].
  intros C' unmarshal'.
  destruct (jwt.decode_claims unmarshal' claimBytes); reflexivity.
Qed.

(** After a successful [ParseUnverified], with a signature segment that is
    base64url: the rest of [ParseWithClaims], the same in either order. *)
Lemma ParseWithClaims_parsed {C K} `{jwt.Claims C}
    (unmarshal : list byte → option C) now jws
    (keyFunc : jwt.Token.t C → result K rsa.PublicKey) token parts sig :
  jwt.ParseUnverified unmarshal jws = Ok (token, parts) →
  jwt.DecodeSegment (nth 2 parts "") = Some sig →
  jwt.ParseWithClaims unmarshal now jws keyFunc =
  match keyFunc token with
  | Err e => Err (jwt.ErrKeyfunc e)
  | Ok key =>
      match jwt.Verify (jwt.Token.Method token)
              (nth 0 parts "" +:+ "." +:+ nth 1 parts "") sig key with
      | Some e => Err (jwt.ErrTokenSignatureInvalid e)
      | None =>
          match jwt.Validate now (jwt.Token.Claims token) with
          | [] => Ok {| jwt.Token.Raw := jwt.Token.Raw token;
                        jwt.Token.Method := jwt.Token.Method token;
                        jwt.Token.Header := jwt.Token.Header token;
                        jwt.Token.Claims := jwt.Token.Claims token;
                        jwt.Token.Signature := sig;
                        jwt.Token.Valid := true |}
          | errs => Err (jwt.ErrTokenInvalidClaims errs)
          end
      end
  end.
Proof.
  intros Hparsed Hsig. unfold jwt.ParseWithClaims.
  rewrite Hparsed, Hsig.
  destruct jwt_keyfunc_first, (keyFunc token); reflexivity.
Qed.

Lemma Verify_refusal m signingString sig key :
  jwt.is_RSA_family m = false →
  jwt.Verify m signingString sig key = Some (refusal m).
Proof. destruct m; simpl; intros; try discriminate; reflexivity. Qed.

Lemma keyFunc_VerifyJWT_refusal {C} pubKey (token : jwt.Token.t C) :
  jwt.is_RSA_family (jwt.Token.Method token) = false →
  keyFunc_VerifyJWT pubKey token
  = Err (ErrUnexpectedSigningMethod (jwt.Token.Header token !! "alg")).
Proof.
  unfold keyFunc_VerifyJWT.
  destruct (jwt.Token.Method token); simpl; intros; try discriminate;
    reflexivity.
Qed.

(** Steps 4 and 5 for a method outside the RSA family: the payload is
    decoded into the shape, then the method refuses the key. *)
Lemma verify_claims_refused {C} `{jwt.Claims C}
    (unmarshal : list byte → option C) now jws pubKey
    (token : jwt.Token.t (gmap string any)) parts sig claimBytes :
  jwt.ParseUnverified json_Unmarshal_map jws = Ok (token, parts) →
  jwt.is_RSA_family (jwt.Token.Method token) = false →
  jwt.DecodeSegment (nth 2 parts "") = Some sig →
  jwt.DecodeSegment (nth 1 parts "") = Some claimBytes →
  verify_claims unmarshal now jws pubKey =
  Failure (FailedToVerify
    match jwt.decode_claims unmarshal claimBytes with
    | Some _ =>
        jwt.ErrTokenSignatureInvalid (refusal (jwt.Token.Method token))
    | None => jwt.ErrParse jwt.ErrClaimJSON
    end).
Proof.
  intros Hparsed Hfamily Hsig Hclaims.
  destruct (ParseUnverified_shape _ _ _ _ Hparsed)
    as (h & p & s & claimBytes' & _ & -> & Hp & _ & _ & Hshape).
  simpl in Hclaims. rewrite Hp in Hclaims. injection Hclaims as ->.
  specialize (Hshape _ unmarshal). unfold verify_claims.
  destruct (jwt.decode_claims unmarshal claimBytes) as [claims|].
  - rewrite (ParseWithClaims_parsed _ _ _ _ _ _ _ Hshape Hsig).
    unfold keyFunc_pubKey. now rewrite Verify_refusal.
  - unfold jwt.ParseWithClaims. now rewrite Hshape.
Qed.

(** C1, what the code does.  For an envelope that steps 1 to 3 resolve to
    an RSA public key, whose header names a registered algorithm outside
    the RSA family and whose signature segment is base64url: [VerifyJWT]
    fails in its key function with "unexpected signing method", before any
    verification.  [VerifyJWSTransaction] and [VerifyJWSRenewalInfo] have
    no such check: their key function hands the RSA key over, the library
    calls the method's [Verify], which refuses the key by its type, and the
    error is the library's "token signature is invalid" (or, when the
    payload does not decode into the claim shape, its "could not JSON
    decode claim"). *)
Theorem algorithm_mismatch (net : Network) (now : time.Time) (jws : string)
    (w w' : World) (pubKey : rsa.PublicKey)
    (token : jwt.Token.t (gmap string any)) (parts : list string)
    (sig : list byte) :
  resolve_key net jws w = (Success pubKey, w') →
  jwt.ParseUnverified json_Unmarshal_map jws = Ok (token, parts) →
  jwt.is_RSA_family (jwt.Token.Method token) = false →
  jwt.DecodeSegment (nth 2 parts "") = Some sig →
  let refused : jwt.error keyfunc_error :=
    jwt.ErrTokenSignatureInvalid (refusal (jwt.Token.Method token)) in
  VerifyJWT net now jws w
  = (Failure (FailedToVerify (jwt.ErrKeyfunc
       (ErrUnexpectedSigningMethod (jwt.Token.Header token !! "alg")))), w')
  ∧ ∃ claimBytes,
      jwt.DecodeSegment (nth 1 parts "") = Some claimBytes
      ∧ VerifyJWSTransaction net now jws w
        = (Failure (FailedToVerify
             (match jwt.decode_claims json_Unmarshal_SubscriptionInfo
                      claimBytes with
              | Some _ => refused
              | None => jwt.ErrParse jwt.ErrClaimJSON
              end)), w')
      ∧ VerifyJWSRenewalInfo net now jws w
        = (Failure (FailedToVerify
             (match jwt.decode_claims json_Unmarshal_RenewalInfo
                      claimBytes with
              | Some _ => refused
              | None => jwt.ErrParse jwt.ErrClaimJSON
              end)), w').
Proof.
  intros Hkey Hparsed Hfamily Hsig refused.
  split.
  - rewrite VerifyJWT_resolve, Hkey.
    rewrite (ParseWithClaims_parsed _ _ _ _ _ _ _ Hparsed Hsig).
    now rewrite keyFunc_VerifyJWT_refusal.
  - destruct (ParseUnverified_shape _ _ _ _ Hparsed)
      as (h & p & s & claimBytes & _ & Hparts & Hp & _ & _ & _).
    exists claimBytes. split; [now rewrite Hparts|].
    rewrite VerifyJWSTransaction_verify, VerifyJWSRenewalInfo_verify.
    unfold verify. rewrite Hkey. subst refused.
    now rewrite !(verify_claims_refused _ _ _ _ _ _ _ _ Hparsed Hfamily Hsig)
      by (rewrite Hparts; exact Hp).
Qed.

(** *** Expiry *)

Lemma UnixMilli_nanoseconds msec : time.UnixMilli msec = msec * 1000000.
Proof.
  unfold time.UnixMilli, time.Unix, time.Second.
  pose proof (Z.quot_rem' msec 1000). lia.
Qed.

Lemma ToNumericDate_seconds t : ToNumericDate t = t / 1000 * time.Second.
Proof.
  unfold ToNumericDate, jwt.NewNumericDate, time.Truncate_Second.
  rewrite UnixMilli_nanoseconds. unfold time.Second. f_equal.
  change 1000000000 with (1000 * 1000000).
  apply Z.div_mul_cancel_r; lia.
Qed.

(** The default validation of a renewal payload: [expiresDate] must be
    set and, truncated to the second, later than [now]. *)
Lemma Validate_RenewalInfo now (J : RenewalInfo.t) :
  jwt.Validate now J =
  if RenewalInfo.ExpiresDate J =? 0
  then [jwt.ErrAccessor (jwt.ErrNotSet "expiration time")]
  else if now <? RenewalInfo.ExpiresDate J / 1000 * time.Second then []
  else [jwt.ErrTokenExpired].
Proof.
  unfold jwt.Validate, jwt.verifyExpiresAt, jwt.verifyNotBefore. simpl.
  unfold RenewalInfo_GetExpirationTime, time.Before.
  rewrite ToNumericDate_seconds.
  destruct (RenewalInfo.ExpiresDate J =? 0); [reflexivity|].
  destruct (now <? _); reflexivity.
Qed.

Lemma numericClaim_Some name s :
  SubscriptionInfo_numericClaim name s ≠ Ok None.
Proof.
  unfold SubscriptionInfo_numericClaim.
  destruct (parseJWT _) as [claims|]; simpl; [|discriminate].
  repeat case_match; discriminate.
Qed.

(** The default validation of a transaction payload: both the [exp] and
    the [nbf] accessor must succeed, and [now] lie between the two. *)
Lemma Validate_SubscriptionInfo now (s : SubscriptionInfo.t) :
  jwt.Validate now s = [] ↔
  ∃ exp nbf : time.Time,
    SubscriptionInfo_GetExpirationTime s = Ok (Some exp)
    ∧ SubscriptionInfo_GetNotBefore s = Ok (Some nbf)
    ∧ nbf <= now < exp.
Proof.
  unfold jwt.Validate, jwt.verifyExpiresAt, jwt.verifyNotBefore.
  cbn [jwt.GetExpirationTime jwt.GetNotBefore SubscriptionInfo_Claims].
  unfold time.Before.
  destruct (SubscriptionInfo_GetExpirationTime s) as [[exp|]|e] eqn:Hexp.
  - destruct (SubscriptionInfo_GetNotBefore s) as [[nbf|]|e] eqn:Hnbf.
    + destruct (Z.ltb_spec now exp), (Z.ltb_spec now nbf); simpl;
        split; try discriminate;
        try (intros (exp' & nbf' & [= <-] & [= <-] & ?); lia);
        try (intros _; reflexivity).
      intros _. exists exp, nbf. split; [reflexivity|].
      split; [reflexivity|]. lia.
    + now apply numericClaim_Some in Hnbf.
    + split; [destruct (now <? exp); discriminate|].
      intros (exp' & nbf' & _ & [=] & _).
  - now apply numericClaim_Some in Hexp.
  - split; [discriminate|]. intros (exp' & nbf' & [=] & _).
Qed.

(** Steps 4 and 5 for an envelope whose payload decodes into the shape
    and whose signature verifies: the outcome is the validator's. *)
Lemma verify_claims_verified {C} `{jwt.Claims C}
    (unmarshal : list byte → option C) now jws pubKey token parts sig :
  jwt.ParseUnverified unmarshal jws = Ok (token, parts) →
  jwt.DecodeSegment (nth 2 parts "") = Some sig →
  jwt.Verify (jwt.Token.Method token)
    (nth 0 parts "" +:+ "." +:+ nth 1 parts "") sig pubKey = None →
  verify_claims unmarshal now jws pubKey =
  match jwt.Validate now (jwt.Token.Claims token) with
  | [] => Success (jwt.Token.Claims token)
  | errs => Failure (FailedToVerify (jwt.ErrTokenInvalidClaims errs))
  end.
Proof.
  intros Hparsed Hsig Hverified. unfold verify_claims.
  rewrite (ParseWithClaims_parsed _ _ _ _ _ _ _ Hparsed Hsig).
  unfold keyFunc_pubKey. rewrite Hverified.
  destruct (jwt.Validate now _); reflexivity.
Qed.

(** C2, as the code has it.  The library's default validation runs after
    the signature check and calls the claim accessors, so expiry is
    enforced.  For an envelope that resolves to a key, decodes into the
    claim shape and passes signature verification: [VerifyJWSRenewalInfo]
    returns the decoded claims exactly when [expiresDate] is set (not 0)
    and, truncated to the second, later than the current time, and fails
    with the validator's error otherwise; [VerifyJWSTransaction] returns
    the decoded claims exactly when the validator finds no error, which is
    when the [exp] and [nbf] accessors of [SubscriptionInfo] both succeed
    and the current time lies from [nbf] up to, not including, [exp]. *)
Theorem expiry_is_enforced (net : Network) (now : time.Time) (jws : string)
    (w w' : World) (pubKey : rsa.PublicKey) :
  resolve_key net jws w = (Success pubKey, w') →
  (∀ token parts sig,
     jwt.ParseUnverified json_Unmarshal_RenewalInfo jws = Ok (token, parts) →
     jwt.DecodeSegment (nth 2 parts "") = Some sig →
     jwt.Verify (jwt.Token.Method token)
       (nth 0 parts "" +:+ "." +:+ nth 1 parts "") sig pubKey = None →
     let claims := jwt.Token.Claims token in
     VerifyJWSRenewalInfo net now jws w =
     (if RenewalInfo.ExpiresDate claims =? 0
      then Failure (FailedToVerify (jwt.ErrTokenInvalidClaims
             [jwt.ErrAccessor (jwt.ErrNotSet "expiration time")]))
      else if now <? RenewalInfo.ExpiresDate claims / 1000 * time.Second
      then Success claims
      else Failure (FailedToVerify (jwt.ErrTokenInvalidClaims
             [jwt.ErrTokenExpired])), w'))
  ∧ (∀ token parts sig,
       jwt.ParseUnverified json_Unmarshal_SubscriptionInfo jws
       = Ok (token, parts) →
       jwt.DecodeSegment (nth 2 parts "") = Some sig →
       jwt.Verify (jwt.Token.Method token)
         (nth 0 parts "" +:+ "." +:+ nth 1 parts "") sig pubKey = None →
       let claims := jwt.Token.Claims token in
       VerifyJWSTransaction net now jws w =
       (match jwt.Validate now claims with
        | [] => Success claims
        | errs => Failure (FailedToVerify (jwt.ErrTokenInvalidClaims errs))
        end, w')
       ∧ (jwt.Validate now claims = [] ↔
          ∃ exp nbf : time.Time,
            SubscriptionInfo_GetExpirationTime claims = Ok (Some exp)
            ∧ SubscriptionInfo_GetNotBefore claims = Ok (Some nbf)
            ∧ nbf <= now < exp)).
Proof.
  intros Hkey. split.
  - intros token parts sig Hparsed Hsig Hverified claims.
    rewrite VerifyJWSRenewalInfo_verify. unfold verify. rewrite Hkey.
    rewrite (verify_claims_verified _ _ _ _ _ _ _ Hparsed Hsig Hverified).
    rewrite Validate_RenewalInfo. fold claims.
    destruct (RenewalInfo.ExpiresDate claims =? 0); [reflexivity|].
    destruct (now <? _); reflexivity.
  - intros token parts sig Hparsed Hsig Hverified claims. split.
    + rewrite VerifyJWSTransaction_verify. unfold verify. rewrite Hkey.
      now rewrite (verify_claims_verified _ _ _ _ _ _ _ Hparsed Hsig Hverified).
    + apply Validate_SubscriptionInfo.
Qed.

(** *** The two typed entry points *)

(** Steps 4 and 5 once the payload decoded into the shape: the signature
    segment, the signature, the validator (the key function of the typed
    entry points never fails, so the order of the two steps does not
    matter). *)
Lemma verify_claims_parsed {C} `{jwt.Claims C}
    (unmarshal : list byte → option C) now jws pubKey token parts :
  jwt.ParseUnverified unmarshal jws = Ok (token, parts) →
  verify_claims unmarshal now jws pubKey =
  match jwt.DecodeSegment (nth 2 parts "") with
  | None => Failure (FailedToVerify jwt.ErrSignatureBase64)
  | Some sig =>
      match jwt.Verify (jwt.Token.Method token)
              (nth 0 parts "" +:+ "." +:+ nth 1 parts "") sig pubKey with
      | Some e => Failure (FailedToVerify (jwt.ErrTokenSignatureInvalid e))
      | None =>
          match jwt.Validate now (jwt.Token.Claims token) with
          | [] => Success (jwt.Token.Claims token)
          | errs => Failure (FailedToVerify (jwt.ErrTokenInvalidClaims errs))
          end
      end
  end.
Proof.
  intros Hparsed. unfold verify_claims, jwt.ParseWithClaims, keyFunc_pubKey.
  rewrite Hparsed.
  destruct jwt_keyfunc_first, (jwt.DecodeSegment (nth 2 parts "")) as [sig|];
    try reflexivity.
  all: destruct (jwt.Verify _ _ sig pubKey); [reflexivity|].
  all: destruct (jwt.Validate now _); reflexivity.
Qed.

Lemma verify_claims_not_before {C} `{jwt.Claims C}
    (unmarshal : list byte → option C) now jws pubKey e :
  before_claims e = true → verify_claims unmarshal now jws pubKey ≠ Failure e.
Proof.
  unfold verify_claims. intros He.
  destruct (jwt.ParseWithClaims _ _ _ _); [discriminate|].
  intros [= <-]. discriminate.
Qed.

Lemma verify_claims_no_panic {C} `{jwt.Claims C}
    (unmarshal : list byte → option C) now jws pubKey :
  verify_claims unmarshal now jws pubKey ≠ Panic.
Proof.
  unfold verify_claims. destruct (jwt.ParseWithClaims _ _ _ _); discriminate.
Qed.

(** C9, as the code has it.  [VerifyJWSTransaction] and
    [VerifyJWSRenewalInfo] are the one algorithm [verify] at two claim
    shapes.  On every input they leave the same state behind, fail with
    the same error whenever the failure is in fetching the directory, in
    the unverified parse, in the key identifier or in resolving the key,
    and panic together.  When the payload decodes into both shapes and the
    validator gives the same verdict on the two claim sets, they agree on
    success; decoding and validation depend on the shape, so they need not
    agree otherwise. *)
Theorem typed_verifiers_share_algorithm (net : Network) (now : time.Time)
    (jws : string) (w : World) :
  let transaction := VerifyJWSTransaction net now jws w in
  let renewal := VerifyJWSRenewalInfo net now jws w in
  transaction = verify json_Unmarshal_SubscriptionInfo net now jws w
  ∧ renewal = verify json_Unmarshal_RenewalInfo net now jws w
  ∧ transaction.2 = renewal.2
  ∧ (∀ e, before_claims e = true →
          transaction.1 = Failure e ↔ renewal.1 = Failure e)
  ∧ (transaction.1 = Panic ↔ renewal.1 = Panic)
  ∧ (∀ tokenT tokenR partsT partsR,
       jwt.ParseUnverified json_Unmarshal_SubscriptionInfo jws
       = Ok (tokenT, partsT) →
       jwt.ParseUnverified json_Unmarshal_RenewalInfo jws
       = Ok (tokenR, partsR) →
       (jwt.Validate now (jwt.Token.Claims tokenT) = []
        ↔ jwt.Validate now (jwt.Token.Claims tokenR) = []) →
       succeeded transaction.1 = succeeded renewal.1).
Proof.
  intros transaction renewal. subst transaction renewal.
  rewrite VerifyJWSTransaction_verify, VerifyJWSRenewalInfo_verify.
  split; [reflexivity|]. split; [reflexivity|].
  unfold verify. destruct (resolve_key net jws w) as [[pubKey|e'|] w']; simpl.
  2:{ split; [reflexivity|]. split; [|split].
      - intros e _. split; intros [= ->]; reflexivity.
      - split; discriminate.
      - reflexivity. }
  2:{ split; [reflexivity|]. split; [|split].
      - intros e _. split; discriminate.
      - split; reflexivity.
      - reflexivity. }
  split; [reflexivity|]. split; [|split].
  - intros e He.
    split; intros Hfail; destruct (verify_claims_not_before _ _ _ _ _ He Hfail).
  - split; intros Hpanic; destruct (verify_claims_no_panic _ _ _ _ Hpanic).
  - intros tokenT tokenR partsT partsR HT HR Hvalid.
    destruct (ParseUnverified_shape _ _ _ _ HT)
      as (h & p & s & claimBytes & _ & -> & _ & _ & _ & Hshape).
    pose proof (Hshape _ json_Unmarshal_RenewalInfo) as HR'.
    rewrite HR in HR'.
    destruct (jwt.decode_claims json_Unmarshal_RenewalInfo claimBytes)
      as [claims|];
      [|discriminate].
    injection HR' as -> ->.
    rewrite (verify_claims_parsed _ _ _ _ _ _ HT).
    rewrite (verify_claims_parsed _ _ _ _ _ _ HR).
    cbn [with_claims jwt.Token.Method jwt.Token.Claims] in *.
    destruct (jwt.DecodeSegment _) as [sig|]; [|reflexivity].
    destruct (jwt.Verify _ _ sig pubKey); [reflexivity|].
    destruct (jwt.Validate now (jwt.Token.Claims tokenT)),
      (jwt.Validate now claims); try reflexivity; simpl.
    + destruct Hvalid as [Hvalid _]. now specialize (Hvalid eq_refl).
    + destruct Hvalid as [_ Hvalid]. now specialize (Hvalid eq_refl).
Qed.
End Verifying.

(** *** On the fixtures *)

(** C1 on the fixtures: the directory holds the RSA key [AB12], the header
    of the envelope is [{'alg':'ES256','kid':'AB12'}]. *)
Lemma algorithm_mismatch_example :
  let jws :=
    Fixture.envelope Fixture.header_ES256 Fixture.payload_2100 Fixture.sig in
  let net := Fixture.answers 200 Fixture.directory in
  let w' := {| AppleJWKs := Some Fixture.apple_keys; requests := 1 |} in
  VerifyJWT (L := Fixture.lib) net Fixture.today jws Fixture.fresh
  = (Failure (FailedToVerify (jwt.ErrKeyfunc
       (ErrUnexpectedSigningMethod (Some (AString "ES256"))))), w')
  ∧ VerifyJWSTransaction (L := Fixture.lib) net Fixture.today jws Fixture.fresh
    = (Failure (FailedToVerify
         (jwt.ErrTokenSignatureInvalid jwt.ErrInvalidKeyType)), w')
  ∧ VerifyJWSRenewalInfo (L := Fixture.lib) net Fixture.today jws Fixture.fresh
    = (Failure (FailedToVerify
         (jwt.ErrTokenSignatureInvalid jwt.ErrInvalidKeyType)), w').
Proof.
  intros jws net w'.
  edestruct (algorithm_mismatch (L := Fixture.lib) net Fixture.today jws
               Fixture.fresh) as (HJ & claimBytes & Hc & HT & HR).
  - vm_compute. reflexivity.
  - vm_compute. reflexivity.
  - reflexivity.
  - vm_compute. reflexivity.
  - vm_compute in Hc. injection Hc as <-.
    split; [exact HJ|]. split; [exact HT|exact HR].
Defined.

(** C2, the claim as stated fails: the envelope decodes, its signature
    verifies under the resolved key, its [expiresDate] is one second after
    the epoch, and [VerifyJWSRenewalInfo] in 2026 returns the error "token
    is expired". *)
Lemma expired_renewal_rejected :
  let jws :=
    Fixture.envelope Fixture.header_RS256 Fixture.payload_1970 Fixture.sig in
  JWSRenewalInfoDecoded (L := Fixture.lib) jws = Ok (Fixture.renewal 1000)
  ∧ jwt.Verify (L := Fixture.lib) (jwt.SigningMethodRSA crypto.SHA256)
      (jwt.EncodeSegment (Fixture.json Fixture.header_RS256) +:+ "."
       +:+ jwt.EncodeSegment (Fixture.json Fixture.payload_1970))
      Fixture.sig {| rsa.N := 65537; rsa.E := 65537 |} = None
  ∧ VerifyJWSRenewalInfo (L := Fixture.lib)
      (Fixture.answers 200 Fixture.directory) Fixture.today jws Fixture.fresh
    = (Failure (FailedToVerify
         (jwt.ErrTokenInvalidClaims [jwt.ErrTokenExpired])),
       {| AppleJWKs := Some Fixture.apple_keys; requests := 1 |}).
Proof. vm_compute. auto. Qed.

(** C2 on the fixtures: the same envelope with an [expiresDate] in 2100
    is accepted. *)
Lemma expiry_is_enforced_example :
  VerifyJWSRenewalInfo (L := Fixture.lib)
    (Fixture.answers 200 Fixture.directory) Fixture.today
    (Fixture.envelope Fixture.header_RS256 Fixture.payload_2100 Fixture.sig)
    Fixture.fresh
  = (Success (Fixture.renewal 4102444800000),
     {| AppleJWKs := Some Fixture.apple_keys; requests := 1 |}).
Proof.
  edestruct (expiry_is_enforced (L := Fixture.lib)
               (Fixture.answers 200 Fixture.directory) Fixture.today
               (Fixture.envelope Fixture.header_RS256 Fixture.payload_2100
                  Fixture.sig) Fixture.fresh) as [Hrenewal _].
  - vm_compute. reflexivity.
  - etransitivity.
    + eapply Hrenewal; vm_compute; reflexivity.
    + vm_compute. reflexivity.
Defined.

(** C9, the claim as stated fails: on the envelope with the payload
    [{'expiresDate':4102444800000}] the renewal entry point succeeds and
    the transaction entry point fails (no [signedTransactionInfo] for the
    accessors of [SubscriptionInfo] to parse). *)
Lemma typed_verifiers_disagree :
  let jws :=
    Fixture.envelope Fixture.header_RS256 Fixture.payload_2100 Fixture.sig in
  let net := Fixture.answers 200 Fixture.directory in
  (VerifyJWSRenewalInfo (L := Fixture.lib) net Fixture.today jws
     Fixture.fresh).1 = Success (Fixture.renewal 4102444800000)
  ∧ (VerifyJWSTransaction (L := Fixture.lib) net Fixture.today jws
       Fixture.fresh).1
    = Failure (FailedToVerify (jwt.ErrTokenInvalidClaims
        [jwt.ErrAccessor (jwt.ErrParseJWT jwt.ErrInvalidSegments);
         jwt.ErrAccessor (jwt.ErrParseJWT jwt.ErrInvalidSegments)])).
Proof. vm_compute. auto. Qed.

(** ** Concurrent callers *)

Local Open Scope nat_scope.

Lemma count_callers_cons f c cs :
  count_callers f (c :: cs) = weight (f c) + count_callers f cs.
Proof.
  unfold count_callers. rewrite filter_cons.
  destruct (decide (f c = true)) as [->|Hf]; [reflexivity|].
  apply not_true_is_false in Hf. now rewrite Hf.
Qed.

Lemma count_callers_insert f cs i c c' :
  cs !! i = Some c →
  count_callers f (<[i := c']> cs) + weight (f c)
  = count_callers f cs + weight (f c').
Proof.
  revert i. induction cs as [|c0 cs IH]; intros [|i]; simpl; try discriminate.
  - intros [= ->]. rewrite !count_callers_cons. lia.
  - intros Hi. rewrite !count_callers_cons. specialize (IH _ Hi). lia.
Qed.

Lemma count_callers_replicate f n c :
  count_callers f (replicate n c) = n * weight (f c).
Proof.
  induction n as [|n IH]; simpl; [reflexivity|].
  rewrite count_callers_cons, IH. lia.
Qed.

Lemma count_callers_app f cs cs' :
  count_callers f (cs ++ cs') = count_callers f cs + count_callers f cs'.
Proof. unfold count_callers. now rewrite filter_app, length_app. Qed.

Section Concurrency.
Context {F : Float64} {L : Lib}.
Variable net : Network.

Lemma arrive_requests response w :
  requests (arrive response w).2 = requests w.
Proof.
  unfold arrive. destruct response as [|status body]; [reflexivity|].
  destruct (json_Decode_AppleJWK _ body) as [decoded []]; reflexivity.
Qed.

(** Each caller sends at most one request, and only requests that were
    sent are in flight. *)
Lemma step_invariant n s :
  rtc (step net) (start n) s →
  requests (world s) + count_callers at_entry (callers s) ≤ n
  ∧ count_callers in_flight (callers s) ≤ requests (world s).
Proof.
  revert s.
  apply (rtc_ind_r (λ s,
    requests (world s) + count_callers at_entry (callers s) ≤ n
    ∧ count_callers in_flight (callers s) ≤ requests (world s))).
  - simpl. rewrite !count_callers_replicate. simpl. lia.
  - intros s s' Hrtc Hstep [IH1 IH2].
    inversion Hstep as [? i jwks Hi Hcache|? i Hi Hcache|? i response Hi];
      subst; simpl.
    + pose proof (count_callers_insert at_entry _ _ _ (Returned (Ok (Some jwks))) Hi).
      pose proof (count_callers_insert in_flight _ _ _ (Returned (Ok (Some jwks))) Hi).
      simpl in *. lia.
    + pose proof (count_callers_insert at_entry _ _ _ (InFlight (net (requests (world s)))) Hi).
      pose proof (count_callers_insert in_flight _ _ _ (InFlight (net (requests (world s)))) Hi).
      simpl in *. lia.
    + pose proof (count_callers_insert at_entry _ _ _ (Returned (arrive response (world s)).1) Hi).
      pose proof (count_callers_insert in_flight _ _ _ (Returned (arrive response (world s)).1) Hi).
      rewrite arrive_requests. simpl in *. lia.
Qed.

Lemma waiting_reachable n k : k ≤ n → rtc (step net) (start n) (waiting net n k).
Proof.
  induction k as [|k IH]; intros Hk.
  - unfold waiting. simpl. rewrite Nat.sub_0_r. apply rtc_refl.
  - eapply rtc_r; [apply IH; lia|].
    pose proof (step_miss net (waiting net n k) k) as Hstep.
    simpl in Hstep.
    replace (n - k) with (S (n - S k)) in Hstep by lia.
    assert (length (map (λ j, InFlight (net j)) (seq 0 k)) = k) as Hlen
      by now rewrite length_map, length_seq.
    rewrite lookup_app_r in Hstep by lia.
    rewrite Hlen, Nat.sub_diag in Hstep. specialize (Hstep eq_refl eq_refl).
    rewrite insert_app_r_alt in Hstep by lia.
    rewrite Hlen, Nat.sub_diag in Hstep. simpl in Hstep.
    unfold waiting at 2. rewrite seq_S, map_app, <- app_assoc. simpl.
    unfold waiting in Hstep |- *. simpl. exact Hstep.
Qed.

Lemma waiting_in_flight n :
  fetches_in_flight (waiting net n n) = n ∧ requests (world (waiting net n n)) = n.
Proof.
  split; [|reflexivity]. unfold fetches_in_flight, count_callers, waiting. simpl.
  rewrite Nat.sub_diag. simpl. rewrite app_nil_r.
  transitivity (length (seq 0 n)); [|apply length_seq].
  induction (seq 0 n) as [|j js IH]; [reflexivity|].
  cbn [map]. rewrite filter_cons. cbn [in_flight].
  destruct (decide (true = true)); [|done].
  cbn [length]. now rewrite IH.
Qed.

(** A caller that runs its steps without interruption does what
    [FetchAppleJWKs] does. *)
Lemma caller_alone s i :
  callers s !! i = Some AtEntry →
  rtc (step net) s
    {| world := (FetchAppleJWKs net (world s)).2;
       callers := <[i := Returned (FetchAppleJWKs net (world s)).1]> (callers s) |}.
Proof.
  intros Hi. unfold FetchAppleJWKs.
  destruct (AppleJWKs (world s)) as [jwks|] eqn:Hcache.
  - apply rtc_once. simpl. destruct s as [w cs]. now apply (step_hit net _ i jwks).
  - eapply rtc_l; [now apply (step_miss net s i)|].
    apply rtc_once.
    pose proof (step_arrive net
      {| world := {| AppleJWKs := None; requests := S (requests (world s)) |};
         callers := <[i := InFlight (net (requests (world s)))]> (callers s) |}
      i (net (requests (world s)))) as Hstep.
    simpl in Hstep. rewrite list_lookup_insert_eq in Hstep
      by (eapply lookup_lt_Some; eauto).
    specialize (Hstep eq_refl). rewrite list_insert_insert_eq in Hstep.
    unfold arrive in Hstep. cbn [AppleJWKs] in Hstep.
    destruct (net (requests (world s))) as [|status body]; [exact Hstep|].
    destruct (json_Decode_AppleJWK None body) as [decoded []]; exact Hstep.
Qed.

(** C10, as the code has it.  [FetchAppleJWKs] takes no lock.  Of [n]
    callers that start with the cache unpopulated, each sends at most one
    request, so at most [n] are sent, and only sent requests are in
    flight; but nothing serializes them: all [n] requests can be in flight
    at once.  A caller that runs alone does what the function does, and a
    call that finds the cache populated returns it and sends nothing. *)
Theorem fetches_are_not_serialized (n : nat) :
  (∀ s, rtc (step net) (start n) s →
        fetches_in_flight s ≤ requests (world s) ∧ requests (world s) ≤ n)
  ∧ (∃ s, rtc (step net) (start n) s
          ∧ fetches_in_flight s = n ∧ requests (world s) = n)
  ∧ (∀ s i, callers s !! i = Some AtEntry →
            rtc (step net) s
              {| world := (FetchAppleJWKs net (world s)).2;
                 callers := <[i := Returned (FetchAppleJWKs net (world s)).1]>
                              (callers s) |})
  ∧ (∀ w jwks, AppleJWKs w = Some jwks →
               FetchAppleJWKs net w = (Ok (Some jwks), w)).
Proof.
  split; [|split; [|split]].
  - intros s Hs. apply step_invariant in Hs. unfold fetches_in_flight. lia.
  - exists (waiting net n n). split; [now apply waiting_reachable|].
    apply waiting_in_flight.
  - apply caller_alone.
  - intros w jwks. apply FetchAppleJWKs_hit.
Qed.

End Concurrency.

(** C10, the claim as stated fails: two callers start with the cache
    unpopulated, both test it before either response arrives, and two
    requests are in flight. *)
Lemma two_fetches_in_flight :
  let net := Fixture.answers 200 Fixture.directory in
  rtc (step (L := Fixture.lib) net) (start 2)
    {| world := {| AppleJWKs := None; requests := 2 |};
       callers := [InFlight (net 0%nat); InFlight (net 1%nat)] |}
  ∧ fetches_in_flight
      {| world := {| AppleJWKs := None; requests := 2 |};
         callers := [InFlight (net 0%nat); InFlight (net 1%nat)] |} = 2%nat.
Proof.
  intros net. split; [|reflexivity].
  eapply rtc_l; [exact (step_miss net (start 2) 0 eq_refl eq_refl)|].
  apply rtc_once.
  exact (step_miss net
           {| world := {| AppleJWKs := None; requests := 1 |};
              callers := [InFlight (net 0%nat); AtEntry] |} 1 eq_refl eq_refl).
Qed.

Local Close Scope nat_scope.

(** ** More on the key directory *)

Lemma publicKeyOf_found key kid : publicKeyOf key ≠ Err (ErrNoMatchingKey kid).
Proof.
  unfold publicKeyOf.
  destruct (base64.RawURLEncoding_DecodeString (JWK.N key)); [|discriminate].
  destruct (base64.RawURLEncoding_DecodeString (JWK.E key)) as [eBytes|];
    [|discriminate].
  destruct eBytes as [|e0 [|e1 [|e2 [|]]]]; discriminate.
Qed.

(** X1.  [GetAppleRSAPublicKey] reports "no matching key found" exactly
    when no entry of the key set carries the wanted key identifier (the
    comparison is that of Go strings, byte for byte); an entry that
    matches but is broken is reported otherwise. *)
Theorem no_matching_key (jwk : AppleJWK) (kid : string) :
  GetAppleRSAPublicKey jwk kid = Err (ErrNoMatchingKey kid)
  ↔ Forall (λ key, JWK.Kid key ≠ kid) (Keys jwk).
Proof.
  unfold GetAppleRSAPublicKey.
  induction (Keys jwk) as [|key keys IH]; simpl.
  - split; [constructor|reflexivity].
  - destruct (String.eqb_spec (JWK.Kid key) kid) as [Heq|Hne].
    + split.
      * intros H. now apply publicKeyOf_found in H.
      * intros H. apply Forall_cons in H as [H _]. contradiction.
    + rewrite IH. split.
      * intros H. now constructor.
      * intros H. now apply Forall_cons in H as [_ H].
Qed.

Lemma GetAppleRSAPublicKey_skip (before rest : list JWK.t) kid :
  Forall (λ key, JWK.Kid key ≠ kid) before →
  GetAppleRSAPublicKey_range (before ++ rest) kid
  = GetAppleRSAPublicKey_range rest kid.
Proof.
  induction 1 as [|key before Hkey _ IH]; simpl; [reflexivity|].
  apply String.eqb_neq in Hkey. now rewrite Hkey.
Qed.

(** X2.  The loop of [GetAppleRSAPublicKey] returns at the first entry
    that carries the key identifier: the entries before it play no part,
    and the entries after it are never looked at, so the result is that of
    the key set with this entry alone, also when the entry is broken and
    a later entry with the same identifier is sound. *)
Theorem first_match_decides (before after : list JWK.t) (key : JWK.t)
    (kid : string) :
  Forall (λ key, JWK.Kid key ≠ kid) before →
  JWK.Kid key = kid →
  GetAppleRSAPublicKey {| Keys := before ++ key :: after |} kid
  = GetAppleRSAPublicKey {| Keys := [key] |} kid.
Proof.
  intros Hbefore Hkey. unfold GetAppleRSAPublicKey. cbn [Keys].
  rewrite GetAppleRSAPublicKey_skip by assumption.
  apply String.eqb_eq in Hkey. simpl. now rewrite Hkey.
Qed.

(** A key set with two entries [AB12]: the first has a modulus that is no
    base64url, and the sound second entry does not help. *)
Lemma first_match_decides_example :
  let broken :=
    {| JWK.Kty := "RSA"; JWK.Kid := "AB12"; JWK.Use := "sig";
       JWK.Alg := "RS256"; JWK.N := "*"; JWK.E := "AQAB" |} in
  let other :=
    {| JWK.Kty := "RSA"; JWK.Kid := "CD34"; JWK.Use := "sig";
       JWK.Alg := "RS256"; JWK.N := "AQAB"; JWK.E := "AQAB" |} in
  GetAppleRSAPublicKey {| Keys := [other; broken; Fixture.AB12] |} "AB12"
  = Err ErrDecodeModulus.
Proof.
  intros broken other.
  etransitivity;
    [apply (first_match_decides [other] [Fixture.AB12] broken "AB12")|].
  - repeat constructor. discriminate.
  - reflexivity.
  - reflexivity.
Defined.

Lemma publicKeyOf_ext key key' :
  JWK.N key = JWK.N key' → JWK.E key = JWK.E key' →
  publicKeyOf key = publicKeyOf key'.
Proof. unfold publicKeyOf. now intros -> ->. Qed.

(** X3.  [GetAppleRSAPublicKey] reads the fields [kid], [n] and [e] of an
    entry and no other: the key type, the use and the algorithm of an
    entry are never checked, so two key sets whose entries agree in these
    three fields give the same result. *)
Theorem key_type_is_not_checked (jwk jwk' : AppleJWK) (kid : string) :
  Forall2 (λ key key', JWK.Kid key = JWK.Kid key' ∧ JWK.N key = JWK.N key'
                       ∧ JWK.E key = JWK.E key') (Keys jwk) (Keys jwk') →
  GetAppleRSAPublicKey jwk kid = GetAppleRSAPublicKey jwk' kid.
Proof.
  unfold GetAppleRSAPublicKey.
  induction 1 as [|key key' keys keys' (Hkid & Hn & He) _ IH]; simpl.
  - reflexivity.
  - rewrite <- Hkid, IH, (publicKeyOf_ext _ _ Hn He). reflexivity.
Qed.

(** An entry that declares an elliptic-curve key for encryption is read
    as the RSA signing key [AB12]. *)
Lemma key_type_is_not_checked_example :
  GetAppleRSAPublicKey
    {| Keys := [ {| JWK.Kty := "EC"; JWK.Kid := "AB12"; JWK.Use := "enc";
                    JWK.Alg := "ES256"; JWK.N := "AQAB"; JWK.E := "AQAB" |} ] |}
    "AB12"
  = Ok {| rsa.N := 65537; rsa.E := 65537 |}.
Proof.
  etransitivity;
    [apply (key_type_is_not_checked _ Fixture.apple_keys "AB12")|].
  - repeat constructor.
  - reflexivity.
Defined.

Lemma SetBytes_app buf acc :
  fold_left (λ acc b, acc * 256 + int_of_byte b) buf acc
  = acc * 256 ^ Z.of_nat (length buf) + big.SetBytes buf.
Proof.
  unfold big.SetBytes. revert acc.
  induction buf as [|b buf IH]; intros acc; simpl fold_left.
  - simpl. lia.
  - rewrite IH, (IH (0 * 256 + int_of_byte b)).
    rewrite length_cons, Nat2Z.inj_succ, Z.pow_succ_r by lia. lia.
Qed.

Lemma SetBytes_range buf :
  0 <= big.SetBytes buf < 256 ^ Z.of_nat (length buf).
Proof.
  induction buf as [|b buf IH].
  - unfold big.SetBytes. simpl. lia.
  - unfold big.SetBytes. simpl fold_left. rewrite SetBytes_app.
    rewrite length_cons, Nat2Z.inj_succ, Z.pow_succ_r by lia.
    pose proof (int_of_byte_range b). nia.
Qed.

(** X4.  Every key [GetAppleRSAPublicKey] returns comes from an entry with
    the wanted identifier; its modulus is the big-endian value of the
    decoded bytes of [n], so it is not negative and below 256 to the
    number of these bytes, and its exponent lies from 0 to 2^24 - 1.
    Nothing more is checked: neither that the modulus is positive nor that
    the exponent is odd. *)
Theorem public_key_bounds (jwk : AppleJWK) (kid : string)
    (pubKey : rsa.PublicKey) :
  GetAppleRSAPublicKey jwk kid = Ok pubKey →
  ∃ key nBytes,
    In key (Keys jwk) ∧ JWK.Kid key = kid
    ∧ base64.RawURLEncoding_DecodeString (JWK.N key) = Some nBytes
    ∧ rsa.N pubKey = big.SetBytes nBytes
    ∧ 0 <= rsa.N pubKey < 256 ^ Z.of_nat (length nBytes)
    ∧ 0 <= rsa.E pubKey < 2 ^ 24.
Proof.
  unfold GetAppleRSAPublicKey.
  induction (Keys jwk) as [|key keys IH]; simpl; [discriminate|].
  destruct (String.eqb_spec (JWK.Kid key) kid) as [Heq|Hne].
  - unfold publicKeyOf.
    destruct (base64.RawURLEncoding_DecodeString (JWK.N key)) as [nBytes|] eqn:Hn;
      [|discriminate].
    destruct (base64.RawURLEncoding_DecodeString (JWK.E key)) as [eBytes|];
      [|discriminate].
    destruct (exponent_int eBytes) as [eInt|] eqn:He; [|discriminate].
    intros [= <-]. exists key, nBytes. cbn [rsa.N rsa.E].
    split; [now left|]. split; [exact Heq|]. split; [exact Hn|].
    split; [reflexivity|]. split; [apply SetBytes_range|].
    now apply exponent_int_range in He.
  - intros H. destruct (IH H) as (key' & nBytes & Hin & Hrest).
    exists key', nBytes. split; [now right|exact Hrest].
Qed.

(** The entry with the empty modulus and the exponent byte 0 gives the key
    with modulus 0 and exponent 0. *)
Lemma public_key_bounds_example :
  let key :=
    {| JWK.Kty := "RSA"; JWK.Kid := "AB12"; JWK.Use := "sig";
       JWK.Alg := "RS256"; JWK.N := ""; JWK.E := "AA" |} in
  GetAppleRSAPublicKey {| Keys := [key] |} "AB12"
  = Ok {| rsa.N := 0; rsa.E := 0 |}
  ∧ ∃ entry nBytes,
      In entry [key] ∧ JWK.Kid entry = "AB12"
      ∧ base64.RawURLEncoding_DecodeString (JWK.N entry) = Some nBytes
      ∧ 0 = big.SetBytes nBytes
      ∧ 0 <= 0 < 256 ^ Z.of_nat (length nBytes)
      ∧ 0 <= 0 < 2 ^ 24.
Proof.
  intros key. split; [reflexivity|].
  exact (public_key_bounds {| Keys := [key] |} "AB12"
           {| rsa.N := 0; rsa.E := 0 |} eq_refl).
Defined.

(** ** More on verifying *)

Section Accepting.
Context {F : Float64} {L : Lib}.

Lemma resolve_key_state net jws w :
  (resolve_key net jws w).2 = (FetchAppleJWKs net w).2.
Proof.
  unfold resolve_key. now destruct (FetchAppleJWKs net w) as [fetched w'].
Qed.

Lemma VerifyJWT_state net now jws w :
  (VerifyJWT net now jws w).2 = (FetchAppleJWKs net w).2.
Proof.
  rewrite VerifyJWT_resolve, <- (resolve_key_state net jws w).
  now destruct (resolve_key net jws w) as [[pubKey|e|] w'].
Qed.

Lemma verify_state {C} `{jwt.Claims C} (unmarshal : list byte → option C)
    net now jws w :
  (verify unmarshal net now jws w).2 = (FetchAppleJWKs net w).2.
Proof.
  unfold verify. rewrite <- (resolve_key_state net jws w).
  now destruct (resolve_key net jws w) as [[pubKey|e|] w'].
Qed.

Lemma resolve_key_unfetched net jws w e :
  (FetchAppleJWKs net w).1 = Err e →
  (resolve_key net jws w).1 = Failure (FailedToFetch e).
Proof.
  unfold resolve_key. destruct (FetchAppleJWKs net w) as [fetched w'].
  simpl. now intros ->.
Qed.

(** X5.  The three verification functions begin with [FetchAppleJWKs] and
    touch the state nowhere else: whatever the envelope and the time, the
    state after the call is the state after the fetch (so a malformed
    envelope still costs the request), and when the fetch fails they fail
    with "failed to fetch Apple JWKs" without looking at the envelope. *)
Theorem verification_fetches_first (net : Network) (now : time.Time)
    (jws : string) (w : World) :
  let fetched := FetchAppleJWKs net w in
  (VerifyJWT net now jws w).2 = fetched.2
  ∧ (VerifyJWSTransaction net now jws w).2 = fetched.2
  ∧ (VerifyJWSRenewalInfo net now jws w).2 = fetched.2
  ∧ ∀ e, fetched.1 = Err e →
         (VerifyJWT net now jws w).1 = Failure (FailedToFetch e)
         ∧ (VerifyJWSTransaction net now jws w).1 = Failure (FailedToFetch e)
         ∧ (VerifyJWSRenewalInfo net now jws w).1 = Failure (FailedToFetch e).
Proof.
  intros fetched. subst fetched.
  rewrite VerifyJWSTransaction_verify, VerifyJWSRenewalInfo_verify.
  split; [apply VerifyJWT_state|]. split; [apply verify_state|].
  split; [apply verify_state|].
  intros e He. rewrite VerifyJWT_resolve. unfold verify.
  pose proof (resolve_key_unfetched net jws w e He) as Hkey.
  destruct (resolve_key net jws w) as [[pubKey|e'|] w']; simpl in Hkey;
    try discriminate.
  injection Hkey as ->. auto.
Qed.

Lemma resolve_key_Success net jws w pubKey w' :
  resolve_key net jws w = (Success pubKey, w') ↔
  ∃ jwk token parts kid,
    FetchAppleJWKs net w = (Ok (Some jwk), w')
    ∧ jwt.ParseUnverified json_Unmarshal_map jws = Ok (token, parts)
    ∧ header_kid token = Some kid
    ∧ GetAppleRSAPublicKey jwk kid = Ok pubKey.
Proof.
  unfold resolve_key. split.
  - destruct (FetchAppleJWKs net w) as [[[jwk|]|e] w0]; try discriminate;
      destruct (jwt.ParseUnverified json_Unmarshal_map jws)
        as [[token parts]|e]; try discriminate;
      destruct (header_kid token) as [kid|] eqn:Hkid; try discriminate.
    destruct (GetAppleRSAPublicKey jwk kid) as [key|e] eqn:Hkey;
      try discriminate.
    intros [= <- <-]. exists jwk, token, parts, kid. auto.
  - intros (jwk & token & parts & kid & -> & -> & -> & ->). reflexivity.
Qed.

Lemma ParseWithClaims_Ok {C K} `{jwt.Claims C}
    (unmarshal : list byte → option C) now jws
    (keyFunc : jwt.Token.t C → result K rsa.PublicKey) parsed :
  jwt.ParseWithClaims unmarshal now jws keyFunc = Ok parsed ↔
  ∃ token parts sig key,
    jwt.ParseUnverified unmarshal jws = Ok (token, parts)
    ∧ jwt.DecodeSegment (nth 2 parts "") = Some sig
    ∧ keyFunc token = Ok key
    ∧ jwt.Verify (jwt.Token.Method token)
        (nth 0 parts "" +:+ "." +:+ nth 1 parts "") sig key = None
    ∧ jwt.Validate now (jwt.Token.Claims token) = []
    ∧ parsed = {| jwt.Token.Raw := jwt.Token.Raw token;
                  jwt.Token.Method := jwt.Token.Method token;
                  jwt.Token.Header := jwt.Token.Header token;
                  jwt.Token.Claims := jwt.Token.Claims token;
                  jwt.Token.Signature := sig;
                  jwt.Token.Valid := true |}.
Proof.
  split.
  - unfold jwt.ParseWithClaims.
    destruct (jwt.ParseUnverified unmarshal jws) as [[token parts]|e];
      [|discriminate].
    destruct (jwt.DecodeSegment (nth 2 parts "")) as [sig|] eqn:Hsig;
      [|destruct jwt_keyfunc_first, (keyFunc token); discriminate].
    destruct (keyFunc token) as [key|e] eqn:Hkey;
      [|destruct jwt_keyfunc_first; discriminate].
    destruct (jwt.Verify _ _ sig key) eqn:Hverify;
      [destruct jwt_keyfunc_first; discriminate|].
    destruct (jwt.Validate now _) eqn:Hvalid;
      [|destruct jwt_keyfunc_first; discriminate].
    intros Hparsed. exists token, parts, sig, key.
    repeat (split; [reflexivity || assumption|]).
    destruct jwt_keyfunc_first; now injection Hparsed.
  - intros (token & parts & sig & key & Hparsed & Hsig & Hkey & Hverify
            & Hvalid & ->).
    rewrite (ParseWithClaims_parsed _ _ _ _ _ _ _ Hparsed Hsig).
    now rewrite Hkey, Hverify, Hvalid.
Qed.

(** What the generic algorithm accepts. *)
Lemma verify_Success {C} `{jwt.Claims C} (unmarshal : list byte → option C)
    net now jws w w' claims :
  verify unmarshal net now jws w = (Success claims, w') ↔
  ∃ jwk (token : jwt.Token.t (gmap string any)) h p s kid pubKey
    claimBytes sig,
    FetchAppleJWKs net w = (Ok (Some jwk), w')
    ∧ jwt.ParseUnverified json_Unmarshal_map jws = Ok (token, [h; p; s])
    ∧ header_kid token = Some kid
    ∧ GetAppleRSAPublicKey jwk kid = Ok pubKey
    ∧ jwt.DecodeSegment p = Some claimBytes
    ∧ jwt.decode_claims unmarshal claimBytes = Some claims
    ∧ jwt.DecodeSegment s = Some sig
    ∧ jwt.Verify (jwt.Token.Method token) (h +:+ "." +:+ p) sig pubKey = None
    ∧ jwt.Validate now claims = [].
Proof.
  unfold verify. split.
  - destruct (resolve_key net jws w) as [[pubKey|e|] w0] eqn:Hkey;
      try discriminate.
    intros [= Hclaims <-].
    apply resolve_key_Success in Hkey
      as (jwk & token & parts & kid & Hfetch & Hparsed & Hkid & Hkey).
    destruct (ParseUnverified_shape _ _ _ _ Hparsed)
      as (h & p & s & claimBytes & _ & -> & Hp & _ & _ & Hshape).
    specialize (Hshape _ unmarshal). unfold verify_claims in Hclaims.
    destruct (jwt.ParseWithClaims unmarshal now jws (keyFunc_pubKey pubKey))
      as [parsed|e] eqn:HP; [|discriminate].
    injection Hclaims as <-.
    apply ParseWithClaims_Ok in HP
      as (token' & parts' & sig & key & HP & Hsig & [= <-] & Hverify & Hvalid
          & ->).
    rewrite HP in Hshape.
    destruct (jwt.decode_claims unmarshal claimBytes) as [claims|] eqn:Hclaims;
      [|discriminate].
    injection Hshape as -> ->. cbn in Hsig, Hverify, Hvalid |- *.
    exists jwk, token, h, p, s, kid, pubKey, claimBytes, sig. auto 10.
  - intros (jwk & token & h & p & s & kid & pubKey & claimBytes & sig & Hfetch
            & Hparsed & Hkid & Hkey & Hp & Hclaims & Hsig & Hverify & Hvalid).
    assert (resolve_key net jws w = (Success pubKey, w')) as ->
      by (apply resolve_key_Success; eauto 10).
    f_equal.
    destruct (ParseUnverified_shape _ _ _ _ Hparsed)
      as (h' & p' & s' & claimBytes' & _ & [= <- <- <-] & Hp' & _ & _ & Hshape).
    rewrite Hp in Hp'. injection Hp' as <-.
    specialize (Hshape _ unmarshal). rewrite Hclaims in Hshape.
    rewrite (verify_claims_verified _ _ _ _ _ _ _ Hshape Hsig Hverify).
    cbn. now rewrite Hvalid.
Qed.

Lemma Validate_RenewalInfo_nil now (J : RenewalInfo.t) :
  jwt.Validate now J = [] ↔
  RenewalInfo.ExpiresDate J ≠ 0
  ∧ now < RenewalInfo.ExpiresDate J / 1000 * time.Second.
Proof.
  rewrite Validate_RenewalInfo.
  destruct (Z.eqb_spec (RenewalInfo.ExpiresDate J) 0) as [->|Hne].
  - split; [discriminate|]. now intros [? _].
  - destruct (Z.ltb_spec now (RenewalInfo.ExpiresDate J / 1000 * time.Second)).
    + split; auto.
    + split; [discriminate|]. intros [_ ?]. lia.
Qed.

(** X6.  [VerifyJWT] returns no error exactly when all of this holds: the
    key set was fetched (or cached), the envelope parses as three
    segments with a header and a claim map, the header carries a string
    [kid] which the key set resolves to an RSA key, the header's algorithm
    is RS256, RS384 or RS512, the signature segment is base64url and is a
    PKCS #1 v1.5 signature of the first two segments under that key, and
    the claim map passes the validator.  No envelope is accepted without
    the signature check. *)
Theorem VerifyJWT_accepts (net : Network) (now : time.Time) (jws : string)
    (w w' : World) :
  VerifyJWT net now jws w = (Success (), w') ↔
  ∃ jwk (token : jwt.Token.t (gmap string any)) h p s kid pubKey hash sig,
    FetchAppleJWKs net w = (Ok (Some jwk), w')
    ∧ jwt.ParseUnverified json_Unmarshal_map jws = Ok (token, [h; p; s])
    ∧ header_kid token = Some kid
    ∧ GetAppleRSAPublicKey jwk kid = Ok pubKey
    ∧ jwt.Token.Method token = jwt.SigningMethodRSA hash
    ∧ jwt.DecodeSegment s = Some sig
    ∧ rsa_VerifyPKCS1v15 pubKey hash (h +:+ "." +:+ p) sig = true
    ∧ jwt.Validate now (jwt.Token.Claims token) = [].
Proof.
  rewrite VerifyJWT_resolve. split.
  - destruct (resolve_key net jws w) as [[pubKey|e|] w0] eqn:Hkey;
      try discriminate.
    destruct (jwt.ParseWithClaims _ _ _ _) as [parsed|e] eqn:HP;
      [|discriminate].
    intros [= _ <-].
    apply resolve_key_Success in Hkey
      as (jwk & token & parts & kid & Hfetch & Hparsed & Hkid & Hkey).
    apply ParseWithClaims_Ok in HP
      as (token' & parts' & sig & key & HP & Hsig & Hfunc & Hverify & Hvalid
          & _).
    rewrite Hparsed in HP. injection HP as <- <-.
    destruct (ParseUnverified_shape _ _ _ _ Hparsed)
      as (h & p & s & claimBytes & _ & -> & _).
    unfold keyFunc_VerifyJWT in Hfunc.
    destruct (jwt.Token.Method token) as [|hash| | | |] eqn:Hmethod;
      try discriminate.
    injection Hfunc as <-. cbn in Hsig, Hverify.
    destruct (rsa_VerifyPKCS1v15 pubKey hash _ sig) eqn:Hrsa; [|discriminate].
    exists jwk, token, h, p, s, kid, pubKey, hash, sig. auto 10.
  - intros (jwk & token & h & p & s & kid & pubKey & hash & sig & Hfetch
            & Hparsed & Hkid & Hkey & Hmethod & Hsig & Hrsa & Hvalid).
    assert (resolve_key net jws w = (Success pubKey, w')) as ->
      by (apply resolve_key_Success; eauto 10).
    rewrite (ParseWithClaims_parsed _ _ _ _ _ _ _ Hparsed Hsig).
    unfold keyFunc_VerifyJWT. rewrite Hmethod. cbn. now rewrite Hrsa, Hvalid.
Qed.

(** X7.  [VerifyJWT] never returns "invalid JWT": a token the library
    returns without an error is valid, so the test of [parsedToken.Valid]
    never fails. *)
Theorem invalid_JWT_is_unreachable (net : Network) (now : time.Time)
    (jws : string) (w : World) :
  (VerifyJWT net now jws w).1 ≠ Failure InvalidJWT.
Proof.
  rewrite VerifyJWT_resolve.
  destruct (resolve_key net jws w) as [[pubKey|e|] w'] eqn:Hkey; simpl.
  - destruct (jwt.ParseWithClaims _ _ _ _) as [parsed|e] eqn:HP;
      [|discriminate].
    apply ParseWithClaims_Ok in HP as (? & ? & ? & ? & _ & _ & _ & _ & _ & ->).
    discriminate.
  - intros [= ->]. unfold resolve_key in Hkey.
    destruct (FetchAppleJWKs net w) as [fetched w0].
    repeat case_match; discriminate.
  - discriminate.
Qed.

(** X8.  [VerifyJWSRenewalInfo] returns claims exactly when all of this
    holds: the key resolves as in [VerifyJWT], the payload segment is
    base64url, its bytes decode into the claim shape, these are the claims
    returned, the signature segment is a signature of the first two
    segments under the resolved key by the header's RSA method, and
    [expiresDate] is set and, in whole seconds, later than the current
    time. *)
Theorem VerifyJWSRenewalInfo_accepts (net : Network) (now : time.Time)
    (jws : string) (w w' : World) (claims : JWSRenewalInfoDecodedPayload) :
  VerifyJWSRenewalInfo net now jws w = (Success claims, w') ↔
  ∃ jwk (token : jwt.Token.t (gmap string any)) h p s kid pubKey
    claimBytes sig,
    FetchAppleJWKs net w = (Ok (Some jwk), w')
    ∧ jwt.ParseUnverified json_Unmarshal_map jws = Ok (token, [h; p; s])
    ∧ header_kid token = Some kid
    ∧ GetAppleRSAPublicKey jwk kid = Ok pubKey
    ∧ jwt.DecodeSegment p = Some claimBytes
    ∧ jwt.decode_claims json_Unmarshal_RenewalInfo claimBytes = Some claims
    ∧ jwt.DecodeSegment s = Some sig
    ∧ jwt.Verify (jwt.Token.Method token) (h +:+ "." +:+ p) sig pubKey = None
    ∧ RenewalInfo.ExpiresDate claims ≠ 0
    ∧ now < RenewalInfo.ExpiresDate claims / 1000 * time.Second.
Proof.
  rewrite VerifyJWSRenewalInfo_verify, verify_Success.
  setoid_rewrite Validate_RenewalInfo_nil. reflexivity.
Qed.

Lemma NewNumericDate_Unix sec :
  jwt.NewNumericDate (time.Unix sec 0) = sec * time.Second.
Proof.
  unfold jwt.NewNumericDate, time.Truncate_Second, time.Unix.
  rewrite Z.add_0_r, Z.div_mul by (unfold time.Second; lia). reflexivity.
Qed.

Lemma numericClaim_Ok name s t :
  SubscriptionInfo_numericClaim name s = Ok (Some t) ↔
  ∃ inner v,
    parseJWT (SubscriptionInfo.SignedTransactionInfo s) = Ok inner
    ∧ inner !! name = Some (AFloat64 v)
    ∧ t = int64_of_float64 v * time.Second.
Proof.
  unfold SubscriptionInfo_numericClaim.
  destruct (parseJWT _) as [inner|e]; cbn [mbind result_bind].
  - split.
    + destruct (inner !! name) as [[| |v| | | |]|] eqn:Hname;
        try discriminate.
      rewrite NewNumericDate_Unix. intros [= <-]. eauto.
    + intros (inner' & v & [= <-] & -> & ->).
      now rewrite NewNumericDate_Unix.
  - split; [discriminate|]. intros (? & ? & [=] & _).
Qed.


End Accepting.


(** The envelope of the fixtures with the header
    [{'alg':'RS256','kid':'AB12'}] is accepted. *)
Lemma VerifyJWT_accepts_example :
  VerifyJWT (L := Fixture.lib) (Fixture.answers 200 Fixture.directory)
    Fixture.today
    (Fixture.envelope Fixture.header_RS256 Fixture.payload_2100 Fixture.sig)
    Fixture.fresh
  = (Success (), {| AppleJWKs := Some Fixture.apple_keys; requests := 1 |}).
Proof.
  apply (VerifyJWT_accepts (L := Fixture.lib)).
  exists Fixture.apple_keys,
    (Cases.parsed Fixture.payload_2100 Cases.expires_2100),
    (jwt.EncodeSegment (Fixture.json Fixture.header_RS256)),
    (jwt.EncodeSegment (Fixture.json Fixture.payload_2100)),
    (jwt.EncodeSegment Fixture.sig), "AB12",
    {| rsa.N := 65537; rsa.E := 65537 |}, crypto.SHA256, Fixture.sig.
  split; [vm_compute; reflexivity|]. split; [vm_compute; reflexivity|].
  split; [vm_compute; reflexivity|]. split; [vm_compute; reflexivity|].
  split; [reflexivity|]. split; [vm_compute; reflexivity|].
  split; vm_compute; reflexivity.
Defined.

(** A renewal envelope that expires in 2100 is accepted in 2026. *)
Lemma VerifyJWSRenewalInfo_accepts_example :
  VerifyJWSRenewalInfo (L := Cases.lib)
    (Fixture.answers 200 Fixture.directory) Fixture.today
    (Fixture.envelope Fixture.header_RS256 Fixture.payload_2100 Fixture.sig)
    Fixture.fresh
  = (Success (Fixture.renewal 4102444800000),
     {| AppleJWKs := Some Fixture.apple_keys; requests := 1 |}).
Proof.
  apply (VerifyJWSRenewalInfo_accepts (L := Cases.lib)).
  exists Fixture.apple_keys,
    (Cases.parsed Fixture.payload_2100 Cases.expires_2100),
    (jwt.EncodeSegment (Fixture.json Fixture.header_RS256)),
    (jwt.EncodeSegment (Fixture.json Fixture.payload_2100)),
    (jwt.EncodeSegment Fixture.sig), "AB12",
    {| rsa.N := 65537; rsa.E := 65537 |},
    (Fixture.json Fixture.payload_2100), Fixture.sig.
  do 8 (split; [vm_compute; reflexivity|]).
  split; [discriminate|]. vm_compute. reflexivity.
Defined.


(** ** Failures of the verification functions *)

Section Refusing.
Context {F : Float64} {L : Lib}.

Lemma resolve_key_unknown net jws w w' jwk token parts kid :
  FetchAppleJWKs net w = (Ok (Some jwk), w') →
  jwt.ParseUnverified json_Unmarshal_map jws = Ok (token, parts) →
  header_kid token = Some kid →
  Forall (λ key, JWK.Kid key ≠ kid) (Keys jwk) →
  resolve_key net jws w = (Failure (FailedToGetKey (ErrNoMatchingKey kid)), w').
Proof.
  intros Hfetch Hparsed Hkid Hkeys. unfold resolve_key.
  rewrite Hfetch, Hparsed, Hkid.
  assert (GetAppleRSAPublicKey jwk kid = Err (ErrNoMatchingKey kid)) as ->;
    [|reflexivity].
  unfold GetAppleRSAPublicKey.
  induction Hkeys as [|key keys Hkey _ IH]; simpl; [reflexivity|].
  apply String.eqb_neq in Hkey. now rewrite Hkey.
Qed.

(** X10.  An envelope whose header names a key identifier that no entry of
    the fetched key set carries is refused by the three verification
    functions with "no matching key found for kid", whatever its payload,
    its signature and the time; the key set is not fetched again. *)
Theorem unknown_key_identifier (net : Network) (now : time.Time)
    (jws : string) (w w' : World) (jwk : AppleJWK)
    (token : jwt.Token.t (gmap string any)) (parts : list string)
    (kid : string) :
  FetchAppleJWKs net w = (Ok (Some jwk), w') →
  jwt.ParseUnverified json_Unmarshal_map jws = Ok (token, parts) →
  header_kid token = Some kid →
  Forall (λ key, JWK.Kid key ≠ kid) (Keys jwk) →
  let refused {A} : outcome verify_failure A * World :=
    (Failure (FailedToGetKey (ErrNoMatchingKey kid)), w') in
  VerifyJWT net now jws w = refused
  ∧ VerifyJWSTransaction net now jws w = refused
  ∧ VerifyJWSRenewalInfo net now jws w = refused.
Proof.
  intros Hfetch Hparsed Hkid Hkeys refused. subst refused.
  pose proof (resolve_key_unknown _ _ _ _ _ _ _ _ Hfetch Hparsed Hkid Hkeys)
    as Hkey.
  rewrite VerifyJWT_resolve, VerifyJWSTransaction_verify,
    VerifyJWSRenewalInfo_verify.
  unfold verify. now rewrite Hkey.
Qed.

Lemma resolve_key_null net jws w StatusCode body token parts kid :
  AppleJWKs w = None →
  net (requests w) = HttpResponse StatusCode body →
  json_Decode_AppleJWK None body = (None, false) →
  jwt.ParseUnverified json_Unmarshal_map jws = Ok (token, parts) →
  header_kid token = Some kid →
  resolve_key net jws w
  = (Panic, {| AppleJWKs := None; requests := S (requests w) |}).
Proof.
  intros Hcache Hnet Hnull Hparsed Hkid. unfold resolve_key, FetchAppleJWKs.
  now rewrite Hcache, Hnet, Hnull, Hparsed, Hkid.
Qed.

(** X11.  A response whose body decodes to no key set without an error (the
    JSON text [null]) makes [FetchAppleJWKs] return a nil key set and a
    nil error, and leaves the cache unpopulated.  The three verification
    functions then dereference the nil key set: they panic on every
    envelope that parses and names a key identifier. *)
Theorem null_key_set_panics (net : Network) (w : World) (StatusCode : Z)
    (body : list byte) :
  AppleJWKs w = None →
  net (requests w) = HttpResponse StatusCode body →
  json_Decode_AppleJWK None body = (None, false) →
  let w' := {| AppleJWKs := None; requests := S (requests w) |} in
  FetchAppleJWKs net w = (Ok None, w')
  ∧ ∀ now jws token parts kid,
      jwt.ParseUnverified json_Unmarshal_map jws = Ok (token, parts) →
      header_kid token = Some kid →
      VerifyJWT net now jws w = (Panic, w')
      ∧ VerifyJWSTransaction net now jws w = (Panic, w')
      ∧ VerifyJWSRenewalInfo net now jws w = (Panic, w').
Proof.
  intros Hcache Hnet Hnull w'. split.
  - unfold FetchAppleJWKs. now rewrite Hcache, Hnet, Hnull.
  - intros now jws token parts kid Hparsed Hkid.
    pose proof (resolve_key_null _ _ _ _ _ _ _ _ Hcache Hnet Hnull Hparsed Hkid)
      as Hkey.
    rewrite VerifyJWT_resolve, VerifyJWSTransaction_verify,
      VerifyJWSRenewalInfo_verify.
    unfold verify. now rewrite Hkey.
Qed.

Lemma Verify_None_RSA m signingString sig key :
  jwt.Verify m signingString sig key = None → jwt.is_RSA_family m = true.
Proof. destruct m; simpl; intros; try discriminate; reflexivity. Qed.

Lemma ParseUnverified_header {C} (unmarshal : list byte → option C) jws
    token parts :
  jwt.ParseUnverified unmarshal jws = Ok (token, parts) →
  ∃ headerBytes alg,
    jwt.DecodeSegment (nth 0 parts "") = Some headerBytes
    ∧ json_Unmarshal_map headerBytes = Some (jwt.Token.Header token)
    ∧ jwt.Token.Header token !! "alg" = Some (AString alg)
    ∧ jwt.GetSigningMethod alg = Some (jwt.Token.Method token).
Proof.
  unfold jwt.ParseUnverified.
  destruct (strings.Split_dot jws) as [|h [|p [|s [|]]]]; try discriminate.
  destruct (jwt.DecodeSegment h) as [headerBytes|] eqn:Hh; [|discriminate].
  destruct (json_Unmarshal_map headerBytes) as [header|] eqn:Hheader;
    [|discriminate].
  destruct (jwt.DecodeSegment p) as [claimBytes|]; [|discriminate].
  destruct (jwt.decode_claims unmarshal claimBytes) as [claims|];
    [|discriminate].
  destruct (header !! "alg") as [[| | | |method| |]|] eqn:Halg;
    try discriminate.
  destruct (jwt.GetSigningMethod method) as [m|] eqn:Hm; [|discriminate].
  intros [= <- <-]. exists headerBytes, method. auto.
Qed.

(** What the three functions accept names an RSA method in its header. *)
Lemma accepted_is_RSA net now jws w token parts :
  jwt.ParseUnverified json_Unmarshal_map jws = Ok (token, parts) →
  jwt.is_RSA_family (jwt.Token.Method token) = false →
  succeeded (VerifyJWT net now jws w).1 = false
  ∧ succeeded (VerifyJWSTransaction net now jws w).1 = false
  ∧ succeeded (VerifyJWSRenewalInfo net now jws w).1 = false.
Proof.
  intros Hparsed Hfamily. split; [|split].
  - destruct (VerifyJWT net now jws w) as [[[]|e|] w'] eqn:E; try reflexivity.
    apply VerifyJWT_accepts in E
      as (? & token' & ? & ? & ? & ? & ? & hash & ? & _ & Hparsed' & _ & _
          & Hmethod & _).
    rewrite Hparsed in Hparsed'. injection Hparsed' as <- _.
    now rewrite Hmethod in Hfamily.
  - destruct (VerifyJWSTransaction net now jws w) as [[claims|e|] w'] eqn:E;
      try reflexivity.
    rewrite VerifyJWSTransaction_verify in E. apply verify_Success in E
      as (? & token' & ? & ? & ? & ? & ? & ? & ? & _ & Hparsed' & _ & _ & _ & _
          & _ & Hverify & _).
    rewrite Hparsed in Hparsed'. injection Hparsed' as <- _.
    apply Verify_None_RSA in Hverify. congruence.
  - destruct (VerifyJWSRenewalInfo net now jws w) as [[claims|e|] w'] eqn:E;
      try reflexivity.
    rewrite VerifyJWSRenewalInfo_verify in E. apply verify_Success in E
      as (? & token' & ? & ? & ? & ? & ? & ? & ? & _ & Hparsed' & _ & _ & _ & _
          & _ & Hverify & _).
    rewrite Hparsed in Hparsed'. injection Hparsed' as <- _.
    apply Verify_None_RSA in Hverify. congruence.
Qed.

Lemma not_parsed_not_accepted net now jws w e :
  jwt.ParseUnverified json_Unmarshal_map jws = Err e →
  succeeded (VerifyJWT net now jws w).1 = false
  ∧ succeeded (VerifyJWSTransaction net now jws w).1 = false
  ∧ succeeded (VerifyJWSRenewalInfo net now jws w).1 = false.
Proof.
  intros Hparsed.
  assert (∀ pubKey w', resolve_key net jws w ≠ (Success pubKey, w')) as Hkey.
  { intros pubKey w' (? & ? & ? & ? & _ & Hparsed' & _)%resolve_key_Success.
    congruence. }
  rewrite VerifyJWT_resolve, VerifyJWSTransaction_verify,
    VerifyJWSRenewalInfo_verify.
  unfold verify.
  destruct (resolve_key net jws w) as [[pubKey|e'|] w']; auto.
  now destruct (Hkey pubKey w').
Qed.

(** X12.  The package does not accept the tokens it issues: a token from
    [GenerateAuthorizationJWT] is signed with ES256, and as long as the
    JSON library reads back the algorithm it wrote into the header, none
    of the three verification functions returns success on it, whatever
    the key set, the state and the time. *)
Theorem issued_token_is_not_accepted (issued : time.Time)
    (Kid Bid Iss privateKeyStr envelope : string) :
  GenerateAuthorizationJWT issued Kid Bid Iss privateKeyStr = Ok envelope →
  (∀ h header,
     json_Marshal (jwt.Token.Header (authorizationToken issued Kid Bid Iss))
     = Some h →
     json_Unmarshal_map h = Some header →
     header !! "alg" = Some (AString "ES256")) →
  ∀ (net : Network) (now : time.Time) (w : World),
    succeeded (VerifyJWT net now envelope w).1 = false
    ∧ succeeded (VerifyJWSTransaction net now envelope w).1 = false
    ∧ succeeded (VerifyJWSRenewalInfo net now envelope w).1 = false.
Proof.
  unfold GenerateAuthorizationJWT. intros H Hjson net now w.
  destruct (pem_Decode privateKeyStr) as [block|]; [|discriminate].
  destruct (negb _); [discriminate|].
  destruct (x509_ParseECPrivateKey _) as [privateKey|]; [|discriminate].
  destruct (jwt.SignedString _ privateKey) as [signed|] eqn:Hsigned;
    [|discriminate].
  injection H as ->.
  apply SignedString_inv in Hsigned as (h & c & signature & Hh & _ & _ & ->).
  destruct (jwt.ParseUnverified json_Unmarshal_map
              ((jwt.EncodeSegment h +:+ "." +:+ jwt.EncodeSegment c)
               +:+ "." +:+ jwt.EncodeSegment signature))
    as [[token parts]|e] eqn:Hparsed;
    [|now apply (not_parsed_not_accepted _ _ _ _ e)].
  apply (accepted_is_RSA _ _ _ _ _ _ Hparsed).
  destruct (ParseUnverified_shape _ _ _ _ Hparsed)
    as (h' & p' & s' & _ & Hsegments & -> & _).
  destruct (ParseUnverified_header _ _ _ _ Hparsed)
    as (headerBytes & alg & Hdecoded & Hheader & Halg & Hmethod).
  assert (three_segments
            ((jwt.EncodeSegment h +:+ "." +:+ jwt.EncodeSegment c)
             +:+ "." +:+ jwt.EncodeSegment signature)
            (jwt.EncodeSegment h) (jwt.EncodeSegment c)
            (jwt.EncodeSegment signature)) as Hissued.
  { unfold three_segments, jwt.EncodeSegment.
    rewrite !EncodeToString_lacks_dot. repeat split.
    rewrite !append_assoc. reflexivity. }
  apply Split_dot_three in Hsegments, Hissued.
  rewrite Hsegments in Hissued. injection Hissued as -> -> ->.
  cbn [nth] in Hdecoded. unfold jwt.DecodeSegment, jwt.EncodeSegment in Hdecoded.
  rewrite base64_round_trip in Hdecoded. injection Hdecoded as <-.
  rewrite (Hjson _ _ Hh Hheader) in Halg. injection Halg as <-.
  assert (jwt.GetSigningMethod "ES256" = Some jwt.SigningMethodES256) as Hes
    by (vm_compute; reflexivity).
  rewrite Hes in Hmethod. injection Hmethod as <-. reflexivity.
Qed.

(** X13.  What a typed verification function returns is what the unverified
    decoding of the same envelope returns, when the library decodes the
    claim bytes with [json.Unmarshal] as the package's decoders do: every
    verified claim set is the decoded claim set. *)
Theorem verified_claims_are_the_decoded_claims (net : Network)
    (now : time.Time) (jws : string) (w : World) :
  jwt_claims_by_decoder = false →
  (∀ claims, (VerifyJWSTransaction net now jws w).1 = Success claims →
             DecodeJWSTransaction jws = Ok claims)
  ∧ (∀ claims, (VerifyJWSRenewalInfo net now jws w).1 = Success claims →
               JWSRenewalInfoDecoded jws = Ok claims).
Proof.
  intros Hflag. split; intros claims Hsuccess.
  - destruct (VerifyJWSTransaction net now jws w) as [o w'] eqn:E.
    simpl in Hsuccess. subst o.
    rewrite VerifyJWSTransaction_verify in E. apply verify_Success in E
      as (? & token & h & p & s & ? & ? & claimBytes & ? & _ & Hparsed & _ & _
          & Hp & Hclaims & _).
    destruct (ParseUnverified_shape _ _ _ _ Hparsed)
      as (h' & p' & s' & _ & Hsegments & [= <- <- <-] & _).
    rewrite (DecodeJWSTransaction_segments _ _ _ _ Hsegments).
    unfold jwt.DecodeSegment in Hp. unfold jwt.decode_claims in Hclaims.
    rewrite Hflag in Hclaims. now rewrite Hp, Hclaims.
  - destruct (VerifyJWSRenewalInfo net now jws w) as [o w'] eqn:E.
    simpl in Hsuccess. subst o.
    rewrite VerifyJWSRenewalInfo_verify in E. apply verify_Success in E
      as (? & token & h & p & s & ? & ? & claimBytes & ? & _ & Hparsed & _ & _
          & Hp & Hclaims & _).
    destruct (ParseUnverified_shape _ _ _ _ Hparsed)
      as (h' & p' & s' & _ & Hsegments & [= <- <- <-] & _).
    rewrite (JWSRenewalInfoDecoded_segments _ _ _ _ Hsegments).
    unfold jwt.DecodeSegment in Hp. unfold jwt.decode_claims in Hclaims.
    rewrite Hflag in Hclaims. now rewrite Hp, Hclaims.
Qed.

(** ** Runs of calls *)

Lemma after_call_fetch net w c : after_call net w c = (FetchAppleJWKs net w).2.
Proof.
  destruct c as [|now jws|now jws|now jws]; simpl.
  - reflexivity.
  - apply VerifyJWT_state.
  - rewrite VerifyJWSTransaction_verify. apply verify_state.
  - rewrite VerifyJWSRenewalInfo_verify. apply verify_state.
Qed.

(** X14.  Once [AppleJWKs] holds a key set, no call of the package changes
    it or sends a request: after any run of [FetchAppleJWKs], [VerifyJWT],
    [VerifyJWSTransaction] and [VerifyJWSRenewalInfo] the state is what it
    was.  The key set is never refreshed, whatever the network would
    answer. *)
Theorem key_set_is_never_refreshed (net : Network) (cs : list call)
    (w : World) (jwks : AppleJWK) :
  AppleJWKs w = Some jwks → after_calls net cs w = w.
Proof.
  intros Hcache. unfold after_calls.
  induction cs as [|c cs IH]; simpl; [reflexivity|].
  now rewrite after_call_fetch, (FetchAppleJWKs_hit _ _ _ Hcache).
Qed.

(** X15.  Each call of the package sends at most one request: a run of
    calls sends at most as many requests as it has calls. *)
Theorem one_request_per_call (net : Network) (cs : list call) (w : World) :
  (requests w ≤ requests (after_calls net cs w) ≤ requests w + length cs)%nat.
Proof.
  unfold after_calls. revert w.
  induction cs as [|c cs IH]; intros w; simpl; [lia|].
  specialize (IH (after_call net w c)).
  assert (requests w ≤ requests (after_call net w c) ≤ S (requests w))%nat.
  { rewrite after_call_fetch. unfold FetchAppleJWKs.
    destruct (AppleJWKs w); [simpl; lia|].
    destruct (net (requests w)) as [|StatusCode body]; [simpl; lia|].
    destruct (json_Decode_AppleJWK None body) as [decoded []]; simpl; lia. }
  lia.
Qed.

(** X16.  What [FetchAppleJWKs] leaves behind: it sends one request when
    the cache is unpopulated and none otherwise; the key set it returns
    without an error is the one in [AppleJWKs] afterwards; and after the
    error "failed to fetch" the cache is still unpopulated, so the next
    call asks again. *)
Theorem FetchAppleJWKs_accounting (net : Network) (w : World) :
  let fetched := FetchAppleJWKs net w in
  requests fetched.2
  = (requests w + match AppleJWKs w with Some _ => 0 | None => 1 end)%nat
  ∧ (∀ jwk, fetched.1 = Ok jwk → AppleJWKs fetched.2 = jwk)
  ∧ (fetched.1 = Err ErrFetch →
     AppleJWKs fetched.2 = None ∧ net (requests w) = HttpError).
Proof.
  unfold FetchAppleJWKs.
  destruct (AppleJWKs w) as [jwks|] eqn:Hcache; simpl.
  { split; [lia|]. split; [now intros jwk [= <-]|discriminate]. }
  destruct (net (requests w)) as [|StatusCode body]; simpl.
  { split; [lia|]. split; [discriminate|auto]. }
  destruct (json_Decode_AppleJWK None body) as [decoded []]; simpl.
  - split; [lia|]. split; discriminate.
  - split; [lia|]. split; [now intros jwk [= <-]|discriminate].
Qed.

End Refusing.

(** ** More compositions *)

Section Composing.
Context {F : Float64} {L : Lib}.

(** X17.  [VerifyJWT] and the typed verification functions differ on
    RSA-PSS: for an envelope that resolves to a key and whose header names
    PS256, PS384 or PS512, [VerifyJWT] fails in its key function with
    "unexpected signing method" without looking at the signature, while
    the typed functions hand the key over and accept only a valid PSS
    signature of the first two segments. *)
Theorem PSS_is_refused_by_VerifyJWT (net : Network) (now : time.Time)
    (jws : string) (w w' : World) (pubKey : rsa.PublicKey)
    (token : jwt.Token.t (gmap string any)) (parts : list string)
    (hash : crypto.Hash) (sig : list byte) :
  resolve_key net jws w = (Success pubKey, w') →
  jwt.ParseUnverified json_Unmarshal_map jws = Ok (token, parts) →
  jwt.Token.Method token = jwt.SigningMethodRSAPSS hash →
  jwt.DecodeSegment (nth 2 parts "") = Some sig →
  VerifyJWT net now jws w
  = (Failure (FailedToVerify (jwt.ErrKeyfunc
       (ErrUnexpectedSigningMethod (jwt.Token.Header token !! "alg")))), w')
  ∧ (∀ claims, (VerifyJWSTransaction net now jws w).1 = Success claims →
       rsa_VerifyPSS pubKey hash (nth 0 parts "" +:+ "." +:+ nth 1 parts "")
         sig = true)
  ∧ (∀ claims, (VerifyJWSRenewalInfo net now jws w).1 = Success claims →
       rsa_VerifyPSS pubKey hash (nth 0 parts "" +:+ "." +:+ nth 1 parts "")
         sig = true).
Proof.
  intros Hkey Hparsed Hmethod Hsig.
  assert (∀ C `{jwt.Claims C} (unmarshal : list byte → option C) claims,
            verify_claims unmarshal now jws pubKey = Success claims →
            rsa_VerifyPSS pubKey hash
              (nth 0 parts "" +:+ "." +:+ nth 1 parts "") sig = true) as Htyped.
  { intros C HC unmarshal claims Hclaims.
    destruct (ParseUnverified_shape _ _ _ _ Hparsed)
      as (h & p & s & claimBytes & _ & -> & _ & _ & _ & Hshape).
    specialize (Hshape _ unmarshal).
    destruct (jwt.decode_claims unmarshal claimBytes) as [claims'|].
    - rewrite (verify_claims_parsed _ _ _ _ _ _ Hshape), Hsig in Hclaims.
      cbn [with_claims jwt.Token.Method] in Hclaims.
      rewrite Hmethod in Hclaims. cbn [jwt.Verify] in Hclaims.
      now destruct (rsa_VerifyPSS pubKey hash _ sig).
    - unfold verify_claims, jwt.ParseWithClaims in Hclaims.
      now rewrite Hshape in Hclaims. }
  split; [|split].
  - rewrite VerifyJWT_resolve, Hkey.
    rewrite (ParseWithClaims_parsed _ _ _ _ _ _ _ Hparsed Hsig).
    unfold keyFunc_VerifyJWT. now rewrite Hmethod.
  - intros claims. rewrite VerifyJWSTransaction_verify. unfold verify.
    rewrite Hkey. apply Htyped.
  - intros claims. rewrite VerifyJWSRenewalInfo_verify. unfold verify.
    rewrite Hkey. apply Htyped.
Qed.

(** X18.  Issuing and unverified decoding compose: the envelope
    [GenerateAuthorizationJWT] returns always has the three segments and
    the base64url payload the decoders ask for, so [DecodeJWSTransaction]
    and [JWSRenewalInfoDecoded] get as far as unmarshalling the very bytes
    the claims were marshalled to, and return what [json.Unmarshal] makes
    of them. *)
Theorem issued_token_is_decoded (now : time.Time)
    (Kid Bid Iss privateKeyStr envelope : string) :
  GenerateAuthorizationJWT now Kid Bid Iss privateKeyStr = Ok envelope →
  ∃ c, json_Marshal (authorizationClaims now Bid Iss) = Some c
       ∧ DecodeJWSTransaction envelope
         = match json_Unmarshal_SubscriptionInfo c with
           | Some transaction => Ok transaction
           | None => Err ErrUnmarshalPayload
           end
       ∧ JWSRenewalInfoDecoded envelope
         = match json_Unmarshal_RenewalInfo c with
           | Some transaction => Ok transaction
           | None => Err ErrUnmarshalPayload
           end.
Proof.
  unfold GenerateAuthorizationJWT. intros H.
  destruct (pem_Decode privateKeyStr) as [block|]; [|discriminate].
  destruct (negb _); [discriminate|].
  destruct (x509_ParseECPrivateKey _) as [privateKey|]; [|discriminate].
  destruct (jwt.SignedString _ privateKey) as [signed|] eqn:Hsigned;
    [|discriminate].
  injection H as ->.
  apply SignedString_inv in Hsigned as (h & c & signature & _ & Hc & _ & ->).
  exists c. split; [exact Hc|].
  assert (three_segments
            ((jwt.EncodeSegment h +:+ "." +:+ jwt.EncodeSegment c)
             +:+ "." +:+ jwt.EncodeSegment signature)
            (jwt.EncodeSegment h) (jwt.EncodeSegment c)
            (jwt.EncodeSegment signature)) as Hissued.
  { unfold three_segments, jwt.EncodeSegment.
    rewrite !EncodeToString_lacks_dot. repeat split.
    rewrite !append_assoc. reflexivity. }
  rewrite (DecodeJWSTransaction_segments _ _ _ _ Hissued),
    (JWSRenewalInfoDecoded_segments _ _ _ _ Hissued).
  unfold jwt.EncodeSegment. rewrite base64_round_trip.
  split; [destruct (json_Unmarshal_SubscriptionInfo c)
         |destruct (json_Unmarshal_RenewalInfo c)]; reflexivity.
Qed.

Lemma parseJWT_segments jws jws' h p s s' :
  three_segments jws h p s → three_segments jws' h p s' →
  parseJWT jws = parseJWT jws'.
Proof.
  intros H%Split_dot_three H'%Split_dot_three.
  unfold parseJWT, jwt.ParseUnverified. rewrite H, H'.
  destruct (jwt.DecodeSegment h) as [headerBytes|]; [|reflexivity].
  destruct (json_Unmarshal_map headerBytes) as [header|]; [|reflexivity].
  destruct (jwt.DecodeSegment p) as [claimBytes|]; [|reflexivity].
  destruct (jwt.decode_claims json_Unmarshal_map claimBytes) as [claims|];
    [|reflexivity].
  destruct (header !! "alg") as [[| | | |method| |]|]; try reflexivity.
  destruct (jwt.GetSigningMethod method); reflexivity.
Qed.

(** X19.  The six accessors of [SubscriptionInfo] read the claims of
    [signedTransactionInfo] without checking its signature: two
    transactions whose inner envelopes differ in the signature segment
    only get the same answer from every accessor. *)
Theorem accessors_ignore_the_inner_signature (t t' : SubscriptionInfo.t)
    (h p s s' : string) :
  three_segments (SubscriptionInfo.SignedTransactionInfo t) h p s →
  three_segments (SubscriptionInfo.SignedTransactionInfo t') h p s' →
  SubscriptionInfo_GetExpirationTime t = SubscriptionInfo_GetExpirationTime t'
  ∧ SubscriptionInfo_GetIssuedAt t = SubscriptionInfo_GetIssuedAt t'
  ∧ SubscriptionInfo_GetNotBefore t = SubscriptionInfo_GetNotBefore t'
  ∧ SubscriptionInfo_GetIssuer t = SubscriptionInfo_GetIssuer t'
  ∧ SubscriptionInfo_GetSubject t = SubscriptionInfo_GetSubject t'
  ∧ SubscriptionInfo_GetAudience t = SubscriptionInfo_GetAudience t'.
Proof.
  intros H H'.
  unfold SubscriptionInfo_GetExpirationTime, SubscriptionInfo_GetIssuedAt,
    SubscriptionInfo_GetNotBefore, SubscriptionInfo_numericClaim,
    SubscriptionInfo_GetIssuer, SubscriptionInfo_GetSubject,
    SubscriptionInfo_stringClaim, SubscriptionInfo_GetAudience.
  rewrite (parseJWT_segments _ _ _ _ _ _ H H'). auto 10.
Qed.

End Composing.

(** The envelope of the fixtures under the header
    [{'alg':'PS256','kid':'AB12'}]: [VerifyJWT] refuses the method. *)
Lemma PSS_is_refused_by_VerifyJWT_example :
  VerifyJWT (L := Cases.lib) (Fixture.answers 200 Fixture.directory)
    Fixture.today
    (Fixture.envelope Cases.header_PS256 Fixture.payload_2100 Fixture.sig)
    Fixture.fresh
  = (Failure (FailedToVerify (jwt.ErrKeyfunc
       (ErrUnexpectedSigningMethod (Some (AString "PS256"))))),
     {| AppleJWKs := Some Fixture.apple_keys; requests := 1 |}).
Proof.
  pose proof (PSS_is_refused_by_VerifyJWT (L := Cases.lib)
                (Fixture.answers 200 Fixture.directory) Fixture.today
                (Fixture.envelope Cases.header_PS256 Fixture.payload_2100
                   Fixture.sig)
                Fixture.fresh
                {| AppleJWKs := Some Fixture.apple_keys; requests := 1 |}
                {| rsa.N := 65537; rsa.E := 65537 |}
                {| jwt.Token.Raw :=
                     Fixture.envelope Cases.header_PS256 Fixture.payload_2100
                       Fixture.sig;
                   jwt.Token.Method := jwt.SigningMethodRSAPSS crypto.SHA256;
                   jwt.Token.Header := Fixture.header_of "PS256";
                   jwt.Token.Claims := Cases.expires_2100;
                   jwt.Token.Signature := [];
                   jwt.Token.Valid := false |}
                [jwt.EncodeSegment (Fixture.json Cases.header_PS256);
                 jwt.EncodeSegment (Fixture.json Fixture.payload_2100);
                 jwt.EncodeSegment Fixture.sig]
                crypto.SHA256 Fixture.sig) as H.
  destruct H as [H _].
  - vm_compute. reflexivity.
  - vm_compute. reflexivity.
  - reflexivity.
  - vm_compute. reflexivity.
  - etransitivity; [exact H|]. vm_compute. reflexivity.
Defined.

(** The token issued on the fixtures decodes into the zero transaction:
    no key of its claims is a field of [SubscriptionInfo]. *)
Lemma issued_token_is_decoded_example :
  DecodeJWSTransaction (L := Cases.lib)
    (Fixture.envelope Fixture.issued_header Fixture.issued_claims Fixture.sig)
  = Ok Fixture.zero_SubscriptionInfo.
Proof.
  destruct (issued_token_is_decoded (L := Cases.lib) (time.Unix 1 5)
              "2X9R4HXF34" "com.example.testbundleid"
              "57246542-96fe-1a63-e053-0824d011072a" "pem"
              (Fixture.envelope Fixture.issued_header Fixture.issued_claims
                 Fixture.sig))
    as (c & Hc & Htransaction & _).
  - vm_compute. reflexivity.
  - assert (json_Marshal (Lib := Cases.lib)
              (authorizationClaims (time.Unix 1 5) "com.example.testbundleid"
                 "57246542-96fe-1a63-e053-0824d011072a")
            = Some (Fixture.json Fixture.issued_claims)) as Hmarshal
      by (vm_compute; reflexivity).
    rewrite Hmarshal in Hc. injection Hc as <-.
    etransitivity; [exact Htransaction|]. vm_compute. reflexivity.
Defined.

(** The transaction of the fixtures and the one whose inner envelope has
    an empty signature have the same expiration time, the year 2100. *)
Lemma accessors_ignore_the_inner_signature_example :
  let h := jwt.EncodeSegment (Fixture.json Fixture.header_RS256) in
  let p := jwt.EncodeSegment (Fixture.json Cases.payload_window) in
  SubscriptionInfo_GetExpirationTime (L := Cases.lib)
    (Cases.transaction (h +:+ "." +:+ p +:+ "." +:+ ""))
  = SubscriptionInfo_GetExpirationTime (L := Cases.lib)
      (Cases.transaction (Cases.signedTransactionInfo Cases.payload_window)).
Proof.
  intros h p.
  apply (accessors_ignore_the_inner_signature (L := Cases.lib)
           (Cases.transaction (h +:+ "." +:+ p +:+ "." +:+ ""))
           (Cases.transaction (Cases.signedTransactionInfo Cases.payload_window))
           h p "" (jwt.EncodeSegment Fixture.sig)).
  - vm_compute. auto.
  - vm_compute. auto.
Defined.

(** ** More on issuing and decoding *)

Section More.
Context {F : Float64} {L : Lib}.

Lemma Sign_ES256 signingString key signature :
  jwt.Sign jwt.SigningMethodES256 signingString key = Ok signature ↔
  ecdsa_Sign key crypto.SHA256 signingString = Some signature
  ∧ ecdsa.CurveBitSize key = 256.
Proof.
  unfold jwt.Sign, jwt.SigningMethodES256.
  destruct (ecdsa_Sign key crypto.SHA256 signingString) as [out|].
  - destruct (Z.eqb_spec 256 (ecdsa.CurveBitSize key)) as [Heq|Hne]; simpl.
    + split; [intros [= <-]; auto|now intros [[= <-] _]].
    + split; [discriminate|]. intros [_ Hsize]. now rewrite Hsize in Hne.
  - split; [discriminate|]. now intros [[=] _].
Qed.

(** X20.  [GenerateAuthorizationJWT] returns an envelope exactly when the
    key text holds a PEM block of type [PRIVATE KEY] whose bytes parse as
    an EC private key on a 256-bit curve, the header and the claims
    marshal, and ECDSA signing with SHA-256 succeeds; the envelope is then
    the two encoded segments and the encoded signature, joined by dots.
    A key on another curve is never signed with. *)
Theorem issuing_requirements (now : time.Time)
    (Kid Bid Iss privateKeyStr envelope : string) :
  GenerateAuthorizationJWT now Kid Bid Iss privateKeyStr = Ok envelope ↔
  ∃ block privateKey h c signature,
    pem_Decode privateKeyStr = Some block
    ∧ pem.Type_ block = "PRIVATE KEY"
    ∧ x509_ParseECPrivateKey (pem.Bytes block) = Some privateKey
    ∧ ecdsa.CurveBitSize privateKey = 256
    ∧ json_Marshal (jwt.Token.Header (authorizationToken now Kid Bid Iss))
      = Some h
    ∧ json_Marshal (authorizationClaims now Bid Iss) = Some c
    ∧ ecdsa_Sign privateKey crypto.SHA256
        (jwt.EncodeSegment h +:+ "." +:+ jwt.EncodeSegment c)
      = Some signature
    ∧ envelope = (jwt.EncodeSegment h +:+ "." +:+ jwt.EncodeSegment c)
                 +:+ "." +:+ jwt.EncodeSegment signature.
Proof.
  unfold GenerateAuthorizationJWT. split.
  - destruct (pem_Decode privateKeyStr) as [block|]; [|discriminate].
    destruct (String.eqb_spec (pem.Type_ block) "PRIVATE KEY") as [Htype|];
      [|discriminate].
    cbn [negb].
    destruct (x509_ParseECPrivateKey _) as [privateKey|] eqn:Hkey;
      [|discriminate].
    destruct (jwt.SignedString _ privateKey) as [signed|] eqn:Hsigned;
      [|discriminate].
    intros [= <-].
    apply SignedString_inv in Hsigned as (h & c & signature & Hh & Hc & Hs & ->).
    apply Sign_ES256 in Hs as [Hs Hcurve].
    exists block, privateKey, h, c, signature. auto 10.
  - intros (block & privateKey & h & c & signature & -> & Htype & -> & Hcurve
            & Hh & Hc & Hs & ->).
    apply String.eqb_eq in Htype. rewrite Htype. cbn [negb].
    unfold jwt.SignedString, jwt.SigningString.
    cbn [jwt.Token.Header jwt.Token.Claims jwt.Token.Method authorizationToken
         jwt.NewWithClaims] in Hh |- *.
    rewrite Hh, Hc. cbn [mbind option_bind].
    assert (jwt.Sign jwt.SigningMethodES256
              (jwt.EncodeSegment h +:+ "." +:+ jwt.EncodeSegment c) privateKey
            = Ok signature) as -> by (apply Sign_ES256; auto).
    reflexivity.
Qed.

(** X21.  The unverified decoders read the payload segment and nothing
    else: two envelopes with the same payload segment decode alike,
    whatever their header segments (which are never decoded) and their
    signature segments are. *)
Theorem decoding_reads_the_payload_only (jws jws' h h' p s s' : string) :
  three_segments jws h p s →
  three_segments jws' h' p s' →
  DecodeJWSTransaction jws = DecodeJWSTransaction jws'
  ∧ JWSRenewalInfoDecoded jws = JWSRenewalInfoDecoded jws'.
Proof.
  intros H H'.
  now rewrite (DecodeJWSTransaction_segments _ _ _ _ H),
    (DecodeJWSTransaction_segments _ _ _ _ H'),
    (JWSRenewalInfoDecoded_segments _ _ _ _ H),
    (JWSRenewalInfoDecoded_segments _ _ _ _ H').
Qed.

Lemma audience_range_Some aud audience :
  audience_range aud = Some audience ↔ aud = AString <$> audience.
Proof.
  revert audience. induction aud as [|v aud IH]; intros audience; simpl.
  - split.
    + now intros [= <-].
    + destruct audience; [reflexivity|discriminate].
  - destruct v as [| | | |v| |];
      try (split; [discriminate|destruct audience; discriminate]).
    destruct (audience_range aud) as [rest|] eqn:Hrest; simpl.
    + split.
      * intros [= <-]. simpl. f_equal. now apply IH.
      * destruct audience as [|v' audience]; [discriminate|].
        intros [= <- Haud]. apply IH in Haud. now injection Haud as <-.
    + split; [discriminate|].
      destruct audience as [|v' audience]; [discriminate|].
      intros [= <- Haud]. now apply IH in Haud.
Qed.

(** X22.  [SubscriptionInfo.GetAudience] returns an audience exactly when
    [signedTransactionInfo] parses and its claim [aud] is a JSON array
    whose elements are all strings, and it returns these strings in
    order.  An audience given as a single string, as
    [GenerateAuthorizationJWT] writes it, is reported as not found. *)
Theorem audience_is_a_list_of_strings (s : SubscriptionInfo.t)
    (audience : list string) :
  SubscriptionInfo_GetAudience s = Ok audience ↔
  ∃ claims,
    parseJWT (SubscriptionInfo.SignedTransactionInfo s) = Ok claims
    ∧ claims !! "aud" = Some (ASlice (AString <$> audience)).
Proof.
  unfold SubscriptionInfo_GetAudience.
  destruct (parseJWT _) as [claims|e].
  - split.
    + destruct (claims !! "aud") as [[| | | | |aud|]|] eqn:Hclaims;
        try discriminate.
      destruct (audience_range aud) as [audience'|] eqn:Haud; [|discriminate].
      intros [= <-]. apply audience_range_Some in Haud as ->. eauto.
    + intros (claims' & [= <-] & ->).
      now rewrite (proj2 (audience_range_Some _ _) eq_refl).
  - split; [discriminate|]. intros (? & [=] & _).
Qed.

End More.

(** X23.  The two conversions of a [Timestamp], which counts milliseconds:
    [Time] is the instant itself, and [ToNumericDate] is that instant
    rounded down to the whole second, also for a timestamp before the
    epoch. *)
Theorem ToNumericDate_rounds_down (t : Timestamp) :
  Timestamp_Time t = t * 1000000
  ∧ ToNumericDate t = t / 1000 * time.Second
  ∧ ToNumericDate t <= Timestamp_Time t < ToNumericDate t + time.Second.
Proof.
  unfold Timestamp_Time. rewrite ToNumericDate_seconds, UnixMilli_nanoseconds.
  split; [reflexivity|]. split; [reflexivity|].
  unfold time.Second. pose proof (Z.div_mod t 1000).
  pose proof (Z.mod_pos_bound t 1000). lia.
Qed.

(** ** The query string *)

Lemma Sprintf_d_lacks_ampersand val : strings.lacks "&" (Sprintf_d val) = true.
Proof.
  assert (Huint : ∀ d, strings.lacks "&" (NilEmpty.string_of_uint d) = true).
  { induction d; simpl; auto. }
  unfold Sprintf_d, NilZero.string_of_int, NilZero.string_of_uint.
  destruct (Z.to_int val) as [d|d]; destruct d; simpl; auto.
Qed.

Lemma Sprintf_d_inj val val' : Sprintf_d val = Sprintf_d val' → val = val'.
Proof.
  unfold Sprintf_d. intros H. apply DecimalZ.to_int_inj.
  assert (Hnil : ∀ z, Z.to_int z ≠ Decimal.Pos Decimal.Nil
                      ∧ Z.to_int z ≠ Decimal.Neg Decimal.Nil).
  { intros [|p|p]; simpl; split; try discriminate;
      intros [= Hp]; revert Hp; apply DecimalPos.Unsigned.to_uint_nonnil. }
  destruct (Hnil val), (Hnil val').
  apply (f_equal NilZero.int_of_string) in H.
  rewrite !NilZero.isi in H by assumption. congruence.
Qed.

Lemma lacks_app c (a b : string) :
  strings.lacks c (a +:+ b) = strings.lacks c a && strings.lacks c b.
Proof.
  induction a as [|x a IH]; [reflexivity|].
  change (strings.lacks c (String x (a +:+ b))
          = strings.lacks c (String x a) && strings.lacks c b).
  simpl. rewrite IH. apply andb_assoc.
Qed.

Lemma Join_cons elem elem' rest sep :
  Join (elem :: elem' :: rest) sep = elem +:+ sep +:+ Join (elem' :: rest) sep.
Proof. reflexivity. Qed.

Lemma Join_split c elems :
  Forall (λ elem, strings.lacks c elem = true) elems → elems ≠ [] →
  strings.split_on c (Join elems (String c "")) = elems.
Proof.
  induction 1 as [|elem [|elem' rest] Helem Hrest IH]; intros Hne.
  - contradiction.
  - now apply split_on_lacks.
  - rewrite Join_cons.
    change (String c "" +:+ Join (elem' :: rest) (String c ""))
      with (String c (Join (elem' :: rest) (String c ""))).
    rewrite split_on_app by assumption. f_equal. now apply IH.
Qed.

Lemma convertToQueryParam_Join arr key :
  convertToQueryParam arr key
  = Join (map (λ val, key +:+ "=" +:+ Sprintf_d val) arr) "&".
Proof.
  unfold convertToQueryParam. f_equal.
  set (pair := λ val, key +:+ "=" +:+ Sprintf_d val).
  assert (∀ params : list string,
            fold_left (λ params val, (params ++ [pair val])%list) arr params
            = (params ++ map pair arr)%list) as H; [|apply H].
  induction arr as [|val arr IH]; intros params; simpl.
  - now rewrite app_nil_r.
  - rewrite IH, <- app_assoc. reflexivity.
Qed.

(** A run of characters other than [&] ends where the text ends or at the
    next [&]. *)
Lemma run_inj (s s' r r' : string) :
  strings.lacks "&" s = true → strings.lacks "&" s' = true →
  (r = "" ∨ ∃ t, r = String "&" t) → (r' = "" ∨ ∃ t, r' = String "&" t) →
  s +:+ r = s' +:+ r' → s = s' ∧ r = r'.
Proof.
  revert s'. induction s as [|a s IH]; intros [|a' s'] Hs Hs' Hr Hr'.
  - auto.
  - change (r = String a' (s' +:+ r') → "" = String a' s' ∧ r = r').
    intros ->. destruct Hr as [?|[t [= -> _]]]; [discriminate|].
    discriminate.
  - change (String a (s +:+ r) = r' → String a s = "" ∧ r = r').
    intros <-. destruct Hr' as [?|[t [= -> _]]]; [discriminate|].
    discriminate.
  - change (String a (s +:+ r) = String a' (s' +:+ r')
            → String a s = String a' s' ∧ r = r').
    intros [= -> H]. simpl in Hs, Hs'.
    apply andb_true_iff in Hs as [_ Hs]. apply andb_true_iff in Hs' as [_ Hs'].
    destruct (IH s' Hs Hs' Hr Hr' H) as [-> ->]. auto.
Qed.

Lemma Join_inj (f : Z → string) arr arr' :
  (∀ val, strings.lacks "&" (f val) = true) →
  (∀ val, f val ≠ "") →
  (∀ val val', f val = f val' → val = val') →
  Join (map f arr) "&" = Join (map f arr') "&" → arr = arr'.
Proof.
  intros Hlacks Hne Hinj. revert arr'.
  assert (Htail : ∀ rest : list Z,
            let r := match rest with
                     | [] => "" | _ => "&" +:+ Join (map f rest) "&"
                     end in
            r = "" ∨ ∃ t, r = String "&" t).
  { intros [|? ?]; [now left|right; eauto]. }
  assert (Hcons : ∀ val rest,
            Join (map f (val :: rest)) "&"
            = f val +:+ match rest with
                        | [] => "" | _ => "&" +:+ Join (map f rest) "&"
                        end).
  { intros val [|val' rest]; simpl map; [|now rewrite Join_cons].
    simpl. induction (f val) as [|a s IH]; [reflexivity|].
    change (String a s = String a (s +:+ "")). now rewrite <- IH. }
  induction arr as [|val arr IH]; intros [|val' arr'].
  - reflexivity.
  - rewrite Hcons. simpl. intros H. symmetry in H.
    destruct (f val') eqn:E; [now apply Hne in E|discriminate].
  - rewrite Hcons. simpl. intros H.
    destruct (f val) eqn:E; [now apply Hne in E|discriminate].
  - rewrite !Hcons. intros H.
    apply run_inj in H as [Hval Hrest]; auto; [|apply Htail..].
    apply Hinj in Hval as ->. f_equal. apply IH.
    destruct arr as [|x arr], arr' as [|x' arr']; try discriminate.
    + reflexivity.
    + now injection Hrest.
Qed.

(** X24.  The query string [convertToQueryParam] builds holds one
    [key=value] pair per element, in order, joined by [&]: for a key
    without [&] and at least one element, splitting the result at [&]
    gives back exactly the pairs. *)
Theorem query_string_pairs (arr : list Z) (key : string) :
  strings.lacks "&" key = true → arr ≠ [] →
  strings.split_on "&" (convertToQueryParam arr key)
  = map (λ val, key +:+ "=" +:+ Sprintf_d val) arr.
Proof.
  intros Hkey Hne. rewrite convertToQueryParam_Join.
  apply (Join_split "&").
  - clear Hne. induction arr as [|val arr IH]; constructor; [|exact IH].
    rewrite !lacks_app, Hkey, Sprintf_d_lacks_ampersand. reflexivity.
  - destruct arr; [contradiction|discriminate].
Qed.

Lemma query_string_pairs_example :
  strings.split_on "&" (convertToQueryParam [1; 4; -7] "status")
  = ["status=1"; "status=4"; "status=-7"].
Proof.
  exact (query_string_pairs [1; 4; -7] "status" eq_refl
           ltac:(discriminate)).
Defined.

Lemma pair_inj (key : string) val val' :
  key +:+ "=" +:+ Sprintf_d val = key +:+ "=" +:+ Sprintf_d val' → val = val'.
Proof.
  intros H. apply String.app_inj in H. injection H as H.
  now apply Sprintf_d_inj.
Qed.

(** X25.  [convertToQueryParam] loses nothing: for a key without [&], two
    lists of values give the same query string only when they are the same
    list. *)
Theorem query_string_injective (arr arr' : list Z) (key : string) :
  strings.lacks "&" key = true →
  convertToQueryParam arr key = convertToQueryParam arr' key ↔ arr = arr'.
Proof.
  intros Hkey. split; [|now intros ->].
  rewrite !convertToQueryParam_Join.
  apply Join_inj.
  - intros val. rewrite !lacks_app, Hkey, Sprintf_d_lacks_ampersand.
    reflexivity.
  - intros val. destruct key; discriminate.
  - apply pair_inj.
Qed.

(** The statuses 1 and 4 and the status 14 give different queries. *)
Lemma query_string_injective_example :
  convertToQueryParam [1; 4] "status" ≠ convertToQueryParam [14] "status".
Proof.
  intros H.
  apply (query_string_injective [1; 4] [14] "status" eq_refl) in H.
  discriminate.
Defined.

(** ** The HTTP client *)

Lemma append_nil_r (s : string) : s +:+ "" = s.
Proof.
  induction s as [|a s IH]; [reflexivity|].
  change (String a (s +:+ "") = String a s). now rewrite IH.
Qed.

(** X26.  [Subscriptions] copies the transaction identifier into the address
    as it is, without escaping: an identifier that ends in a query gives
    the address that the identifier and the statuses of that query give. *)
Theorem transaction_id_is_not_escaped (c : Client.t) (transactionId : string)
    (val : Z) (rest : list Z) :
  Subscriptions c
    (transactionId +:+ "?" +:+ convertToQueryParam (val :: rest) "status") []
  = Subscriptions c transactionId (val :: rest).
Proof.
  unfold Subscriptions. cbn [length Nat.ltb Nat.leb].
  destruct (Client.Config c) as [config|]; [|reflexivity].
  cbn [mbind option_bind]. do 2 f_equal.
  now rewrite append_nil_r.
Qed.

(** X27.  [Subscriptions] sets the method and the address and nothing else,
    so of two calls in a row the second decides the request, and a token
    the client holds is kept. *)
Theorem Subscriptions_overwrites (c : Client.t) (transactionId transactionId' : string)
    (status status' : list Z) :
  (c' ← Subscriptions c transactionId status;
   Subscriptions c' transactionId' status')
  = Subscriptions c transactionId' status'
  ∧ ∀ c', Subscriptions c transactionId status = Some c' →
          Client.method c' = "GET"
          ∧ Client.Config c' = Client.Config c
          ∧ Client.payload c' = Client.payload c
          ∧ Client.Authorization c' = Client.Authorization c.
Proof.
  unfold Subscriptions.
  destruct (Client.Config c) as [config|] eqn:Hconfig;
    cbn [mbind option_bind Client.Config]; [|easy].
  split; [reflexivity|].
  intros c' [= <-]. auto.
Qed.

Section Client.
Context {F : Float64} {L : Lib} {CL : ClientLib}.

Lemma Do_authorized send now c jwt :
  Client.Authorization c = Some jwt →
  Do send now c
  = (match Do_request c jwt with
     | None => Failure ErrNewRequest
     | Some req => Do_response (send req)
     end, c).
Proof. unfold Do. now intros ->. Qed.

Lemma Do_response_Success res response :
  Do_response res = Success response ↔
  ∃ body, res = http.Response 200 (Some body)
          ∧ json_Unmarshal_StatusResponse body = Some response.
Proof.
  unfold Do_response. split.
  - destruct res as [|StatusCode [body|]]; try discriminate.
    + destruct (Z.eqb_spec StatusCode 200) as [->|]; [|discriminate]. simpl.
      destruct (json_Unmarshal_StatusResponse body) eqn:E; [|discriminate].
      intros [= <-]. eauto.
    + destruct (negb _); discriminate.
  - intros (body & -> & ->). reflexivity.
Qed.

(** X28.  [Do] issues the authorization token once.  A client without a
    token whose key material signs gets the token from
    [GenerateAuthorizationJWT] and keeps it whatever becomes of the
    exchange; every later [Do], at whatever time, issues nothing, leaves
    the client as it is and sends that same token as [Bearer]. *)
Theorem authorization_is_issued_once (send : http.Request → http.result)
    (now : time.Time) (c : Client.t) (config : Config.t) (jwt : string) :
  Client.Authorization c = None →
  Client.Config c = Some config →
  GenerateAuthorizationJWT now (Config.Kid config) (Config.Bid config)
    (Config.Iss config) (Config.PrivateKey config) = Ok jwt →
  let c' := (Do send now c).2 in
  Client.Authorization c' = Some jwt
  ∧ ∀ (send' : http.Request → http.result) (now' : time.Time),
      (Do send' now' c').2 = c'
      ∧ (Do send' now' c').1
        = match Do_request c' jwt with
          | None => Failure ErrNewRequest
          | Some req => Do_response (send' req)
          end
      ∧ ∀ req, Do_request c' jwt = Some req →
               http.Authorization req = Some ("Bearer " +:+ jwt).
Proof.
  intros Hnone Hconfig Hjwt c'.
  assert (Client.Authorization c' = Some jwt) as Hc'.
  { subst c'. unfold Do. now rewrite Hnone, Hconfig, Hjwt. }
  split; [exact Hc'|]. intros send' now'.
  rewrite (Do_authorized _ _ _ _ Hc'). split; [reflexivity|].
  split; [reflexivity|].
  unfold Do_request. intros req. destruct (http_NewRequest _ _); [|discriminate].
  now intros [= <-].
Qed.

(** X29.  [Do] returns a response only for an exchange that went through:
    the client holds a token (its own from before, or the one just
    issued), the request was built and carried it, the answer had status
    200 and a body that was read and unmarshalled into the response. *)
Theorem Do_accepts (send : http.Request → http.result) (now : time.Time)
    (c c' : Client.t) (response : StatusResponse.t) :
  Do send now c = (Success response, c') ↔
  ∃ (jwt : string) (req : http.Request) (body : list byte),
    Client.Authorization c' = Some jwt
    ∧ (c' = c
       ∨ Client.Authorization c = None
         ∧ ∃ config, Client.Config c = Some config
             ∧ GenerateAuthorizationJWT now (Config.Kid config)
                 (Config.Bid config) (Config.Iss config)
                 (Config.PrivateKey config) = Ok jwt
             ∧ c' = {| Client.Config := Client.Config c;
                       Client.url := Client.url c;
                       Client.method := Client.method c;
                       Client.payload := Client.payload c;
                       Client.Authorization := Some jwt |})
    ∧ Do_request c' jwt = Some req
    ∧ send req = http.Response 200 (Some body)
    ∧ json_Unmarshal_StatusResponse body = Some response.
Proof.
  split.
  - unfold Do.
    destruct (Client.Authorization c) as [jwt|] eqn:Hauth.
    + intros [= H <-].
      destruct (Do_request c jwt) as [req|] eqn:Hreq; [|discriminate].
      apply Do_response_Success in H as (body & Hsend & Hbody).
      exists jwt, req, body. auto 10.
    + destruct (Client.Config c) as [config|] eqn:Hconfig; [|discriminate].
      destruct (GenerateAuthorizationJWT _ _ _ _ _) as [jwt|e] eqn:Hjwt;
        [|discriminate].
      intros [= H <-].
      match type of H with
      | match ?r with _ => _ end = _ => destruct r as [req|] eqn:Hreq
      end; [|discriminate].
      apply Do_response_Success in H as (body & Hsend & Hbody).
      exists jwt, req, body. split; [reflexivity|].
      split; [right; eauto 10|]. auto.
  - intros (jwt & req & body & Hauth & Hc' & Hreq & Hsend & Hbody).
    assert (Do_response (send req) = Success response) as Hres
      by (apply Do_response_Success; eauto).
    destruct Hc' as [->|(Hnone & config & Hconfig & Hjwt & ->)].
    + now rewrite (Do_authorized _ _ _ _ Hauth), Hreq, Hres.
    + unfold Do. rewrite Hnone, Hconfig, Hjwt. cbv beta zeta.
      rewrite Hconfig in Hreq. now rewrite Hreq, Hres.
Qed.

End Client.

(** A sandbox client that asks for the subscriptions of a transaction:
    the first [Do] issues the token although the exchange fails, the
    second, a day later, sends the same token. *)
Lemma authorization_is_issued_once_example :
  let c :=
    {| Client.Config := Some Cases.config;
       Client.url :=
         "https://api.storekit-sandbox.itunes.apple.com/inApps/v1/subscriptions/1000000?status=1&status=4";
       Client.method := "GET"; Client.payload := None;
       Client.Authorization := None |} in
  let c' :=
    (Do (L := Cases.lib) (CL := Cases.client_lib)
       (λ _, http.Error) (time.Unix 1 5) c).2 in
  Subscriptions (NewClient (Some Cases.config)) "1000000" [1; 4] = Some c
  ∧ (∃ jwt, Client.Authorization c' = Some jwt)
  ∧ Do (L := Cases.lib) (CL := Cases.client_lib)
      (Cases.replies 200 Fixture.payload_empty) (time.Unix 86401 0) c'
    = (Success Cases.empty_StatusResponse, c').
Proof.
  intros c c'. split; [vm_compute; reflexivity|].
  edestruct (authorization_is_issued_once (L := Cases.lib)
               (CL := Cases.client_lib) (λ _, http.Error) (time.Unix 1 5)
               c Cases.config)
    as (Hauth & Hlater).
  - reflexivity.
  - reflexivity.
  - vm_compute. reflexivity.
  - fold c' in Hauth, Hlater. split; [eauto|].
    destruct (Hlater (Cases.replies 200 Fixture.payload_empty)
                (time.Unix 86401 0)) as (Hc' & Hres & _).
    rewrite (surjective_pairing (Do _ _ c')), Hc', Hres.
    f_equal.
Defined.

(** The cache holds the empty key set, which the response with status 500
    and the body [{}] put there: the envelope signed under [AB12] is
    refused for its key identifier, and no request is sent. *)
Lemma unknown_key_identifier_example :
  let jws :=
    Fixture.envelope Fixture.header_RS256 Fixture.payload_2100 Fixture.sig in
  let net := Fixture.answers 200 Fixture.directory in
  let w := {| AppleJWKs := Some {| Keys := [] |}; requests := 1 |} in
  VerifyJWT (L := Fixture.lib) net Fixture.today jws w
  = (Failure (FailedToGetKey (ErrNoMatchingKey "AB12")), w)
  ∧ VerifyJWSTransaction (L := Fixture.lib) net Fixture.today jws w
    = (Failure (FailedToGetKey (ErrNoMatchingKey "AB12")), w)
  ∧ VerifyJWSRenewalInfo (L := Fixture.lib) net Fixture.today jws w
    = (Failure (FailedToGetKey (ErrNoMatchingKey "AB12")), w).
Proof.
  intros jws net w.
  apply (unknown_key_identifier (L := Fixture.lib) net Fixture.today jws w w
           {| Keys := [] |}
           (Cases.parsed Fixture.payload_2100 Cases.expires_2100)
           [jwt.EncodeSegment (Fixture.json Fixture.header_RS256);
            jwt.EncodeSegment (Fixture.json Fixture.payload_2100);
            jwt.EncodeSegment Fixture.sig] "AB12").
  - reflexivity.
  - vm_compute. reflexivity.
  - vm_compute. reflexivity.
  - constructor.
Defined.

(** The key directory answers [null]: the fetch succeeds with a nil key
    set, and verifying the envelope of the fixtures panics. *)
Lemma null_key_set_panics_example :
  let jws :=
    Fixture.envelope Fixture.header_RS256 Fixture.payload_2100 Fixture.sig in
  let net := Fixture.answers 200 "null" in
  let w' := {| AppleJWKs := None; requests := 1 |} in
  FetchAppleJWKs (L := Cases.lib) net Fixture.fresh = (Ok None, w')
  ∧ VerifyJWT (L := Cases.lib) net Fixture.today jws Fixture.fresh
    = (Panic, w')
  ∧ VerifyJWSTransaction (L := Cases.lib) net Fixture.today jws Fixture.fresh
    = (Panic, w')
  ∧ VerifyJWSRenewalInfo (L := Cases.lib) net Fixture.today jws Fixture.fresh
    = (Panic, w').
Proof.
  intros jws net w'.
  destruct (null_key_set_panics (L := Cases.lib) net Fixture.fresh 200
              (Fixture.json "null") eq_refl eq_refl)
    as [Hfetch Hpanic].
  - vm_compute. reflexivity.
  - split; [exact Hfetch|].
    apply (Hpanic Fixture.today jws
             (Cases.parsed Fixture.payload_2100 Cases.expires_2100)
             [jwt.EncodeSegment (Fixture.json Fixture.header_RS256);
              jwt.EncodeSegment (Fixture.json Fixture.payload_2100);
              jwt.EncodeSegment Fixture.sig] "AB12").
    + vm_compute. reflexivity.
    + vm_compute. reflexivity.
Defined.

(** The token issued on the fixtures is accepted by none of the three
    functions. *)
Lemma issued_token_is_not_accepted_example :
  let envelope :=
    Fixture.envelope Fixture.issued_header Fixture.issued_claims Fixture.sig in
  let net := Fixture.answers 200 Fixture.directory in
  GenerateAuthorizationJWT (L := Cases.lib) (time.Unix 1 5) "2X9R4HXF34"
    "com.example.testbundleid" "57246542-96fe-1a63-e053-0824d011072a" "pem"
  = Ok envelope
  ∧ succeeded
      (VerifyJWT (L := Cases.lib) net Fixture.today envelope Fixture.fresh).1
    = false
  ∧ succeeded
      (VerifyJWSTransaction (L := Cases.lib) net Fixture.today envelope
         Fixture.fresh).1 = false
  ∧ succeeded
      (VerifyJWSRenewalInfo (L := Cases.lib) net Fixture.today envelope
         Fixture.fresh).1 = false.
Proof.
  intros envelope net.
  assert (GenerateAuthorizationJWT (L := Cases.lib) (time.Unix 1 5)
            "2X9R4HXF34" "com.example.testbundleid"
            "57246542-96fe-1a63-e053-0824d011072a" "pem" = Ok envelope)
    as Hissued by (vm_compute; reflexivity).
  split; [exact Hissued|].
  apply (issued_token_is_not_accepted (L := Cases.lib) _ _ _ _ _ _ Hissued).
  intros h header Hh Hheader.
  assert (json_Marshal (Lib := Cases.lib)
            (jwt.Token.Header
               (authorizationToken (time.Unix 1 5) "2X9R4HXF34"
                  "com.example.testbundleid"
                  "57246542-96fe-1a63-e053-0824d011072a"))
          = Some (Fixture.json Fixture.issued_header)) as Hmarshal
    by (vm_compute; reflexivity).
  rewrite Hmarshal in Hh. injection Hh as <-.
  assert (json_Unmarshal_map (Lib := Cases.lib)
            (Fixture.json Fixture.issued_header) = Some Cases.issued_header)
    as Hunmarshal by (vm_compute; reflexivity).
  rewrite Hunmarshal in Hheader. injection Hheader as <-.
  vm_compute. reflexivity.
Defined.

(** The renewal envelope of the fixtures: what [VerifyJWSRenewalInfo]
    returns, [JWSRenewalInfoDecoded] returns. *)
Lemma verified_claims_are_the_decoded_claims_example :
  JWSRenewalInfoDecoded (L := Fixture.lib)
    (Fixture.envelope Fixture.header_RS256 Fixture.payload_2100 Fixture.sig)
  = Ok (Fixture.renewal 4102444800000).
Proof.
  apply (verified_claims_are_the_decoded_claims (L := Fixture.lib)
           (Fixture.answers 200 Fixture.directory) Fixture.today
           (Fixture.envelope Fixture.header_RS256 Fixture.payload_2100
              Fixture.sig)
           Fixture.fresh eq_refl).
  vm_compute. reflexivity.
Defined.

(** The empty key set in the cache survives a run of calls, although the
    directory now answers with the key [AB12]. *)
Lemma key_set_is_never_refreshed_example :
  let jws :=
    Fixture.envelope Fixture.header_RS256 Fixture.payload_2100 Fixture.sig in
  let w := {| AppleJWKs := Some {| Keys := [] |}; requests := 1 |} in
  after_calls (L := Fixture.lib) (Fixture.answers 200 Fixture.directory)
    [CallVerifyJWT Fixture.today jws; CallFetchAppleJWKs;
     CallVerifyJWSRenewalInfo Fixture.today jws] w
  = w.
Proof.
  intros jws w.
  exact (key_set_is_never_refreshed (L := Fixture.lib)
           (Fixture.answers 200 Fixture.directory)
           [CallVerifyJWT Fixture.today jws; CallFetchAppleJWKs;
            CallVerifyJWSRenewalInfo Fixture.today jws] w {| Keys := [] |}
           eq_refl).
Defined.

(** An envelope whose header segment is no base64url and whose signature
    is empty decodes like the envelope of the fixtures. *)
Lemma decoding_reads_the_payload_only_example :
  let p := jwt.EncodeSegment (Fixture.json Fixture.payload_2100) in
  JWSRenewalInfoDecoded (L := Fixture.lib) ("*" +:+ "." +:+ p +:+ "." +:+ "")
  = JWSRenewalInfoDecoded (L := Fixture.lib)
      (Fixture.envelope Fixture.header_RS256 Fixture.payload_2100 Fixture.sig).
Proof.
  intros p.
  apply (decoding_reads_the_payload_only (L := Fixture.lib)
           ("*" +:+ "." +:+ p +:+ "." +:+ "")
           (Fixture.envelope Fixture.header_RS256 Fixture.payload_2100
              Fixture.sig)
           "*" (jwt.EncodeSegment (Fixture.json Fixture.header_RS256)) p ""
           (jwt.EncodeSegment Fixture.sig)).
  - vm_compute. auto.
  - vm_compute. auto.
Defined.

(** The audience [['a','b']] of the inner envelope is returned. *)
Lemma audience_is_a_list_of_strings_example :
  SubscriptionInfo_GetAudience (L := Cases.lib)
    (Cases.transaction (Cases.signedTransactionInfo Cases.payload_audience))
  = Ok ["a"; "b"].
Proof.
  apply (audience_is_a_list_of_strings (L := Cases.lib)).
  exists {["aud" := ASlice [AString "a"; AString "b"]]}.
  split; vm_compute; reflexivity.
Defined.

(** The exchange of the fixtures: a client that holds a token gets the
    response of the status 200. *)
Lemma Do_accepts_example :
  let c :=
    {| Client.Config := None; Client.url := "https://example.com/";
       Client.method := ""; Client.payload := None;
       Client.Authorization := Some "token" |} in
  Do (L := Cases.lib) (CL := Cases.client_lib)
    (Cases.replies 200 Fixture.payload_empty) Fixture.today c
  = (Success Cases.empty_StatusResponse, c).
Proof.
  intros c. apply (Do_accepts (L := Cases.lib) (CL := Cases.client_lib)).
  exists "token",
    {| http.Method := "GET"; http.URL := "https://example.com/";
       http.Body := None; http.Authorization := Some "Bearer token" |},
    (Fixture.json Fixture.payload_empty).
  split; [reflexivity|]. split; [now left|]. split; [reflexivity|].
  split; [reflexivity|]. vm_compute. reflexivity.
Defined.
